(** * The multiplayer provider of isometric-city: a shallow embedding

    The class [MultiplayerProvider] (Y.js document, WebRTC negotiation through a
    polled signalling relay, BroadcastChannel fallback on localhost) is embedded
    as a reactive state machine:

    - the fields of the class form the record [Provider];
    - the objects the class only holds handles to (peer connections, data
      channels, timers, the clock, the colour generator) live in [Runtime];
    - every method is a computation in the monad [Co]: state passing over
      [State], a log of observable [Effect]s, exceptions, and suspension at
      each [await] of the source;
    - [World] adds the pool of suspended asynchronous calls, and [step] lets
      the environment deliver one event at a time (a public call, a promise
      that settles, a timer, a WebRTC or channel event), the way the event
      loop does. *)

From Stdlib Require Import ZArith String Bool List Lia.
From stdpp Require Import base option list gmap strings.

Set Warnings "-register-all".
Local Open Scope string_scope.
Local Open Scope Z_scope.
Local Open Scope nat_scope.
Local Open Scope list_scope.

(** ** Values *)

(** Values stored in slots typed [unknown]: the cached game state and the
    metadata map.  Objects are opaque references; numbers are integers. *)
Inductive JsValue :=
| JUndefined
| JNull
| JBool (b : bool)
| JNum (n : Z)
| JStr (s : string)
| JObj (ref : nat).

#[global] Instance JsValue_eq_dec : EqDecision JsValue.
Proof. solve_decision. Defined.

(** JavaScript truthiness, as used by [if (x)] and [x && y]. *)
Definition truthy (v : JsValue) : bool :=
  match v with
  | JUndefined | JNull => false
  | JBool b => b
  | JNum n => negb (n =? 0)%Z
  | JStr s => negb (String.eqb s "")
  | JObj _ => true
  end.

(** Truthiness of a string, for [a || b] on strings. *)
Definition str_truthy (s : string) : bool := negb (String.eqb s "").

(** [s.slice(-4)]: the last four characters. *)
Definition slice_last4 (s : string) : string :=
  substring (String.length s - 4) 4 s.

(** ** Data of the protocol *)

Record Player := mkPlayer {
  p_id : string;
  p_name : string;
  p_color : string;
  p_joinedAt : Z;
  p_isHost : bool
}.

Record GameActionInput := mkInput {
  action_type : string;
  action_args : list JsValue
}.

(** [{ ...action, timestamp, playerId }] *)
Record GameAction := mkAction {
  ga_input : GameActionInput;
  timestamp : Z;
  playerId : string
}.

Record AwarenessState := mkAwareness {
  aw_player : Player;
  aw_fields : gmap string JsValue
}.

(** A Y.js update, seen from the document it is applied to: the operations it
    adds to the [operations] array and the entries it writes into the [meta]
    map.  What an update adds is decided by Y.js (entries the document already
    holds are not added again); the embedding takes that part as given and adds
    it at the end of the array. *)
Record YUpdate := mkUpdate {
  u_ops : list GameAction;
  u_meta : list (string * JsValue)
}.

Definition update_is_empty (u : YUpdate) : bool :=
  match u_ops u, u_meta u with
  | [], [] => true
  | _, _ => false
  end.

(** [DataChannelMessage]: [{ type, data? }].  [MsgOther] is a frame that parses
    but whose [type] is none of the five. *)
Inductive DataChannelMessage :=
| MsgSync (data : option YUpdate)
| MsgUpdate (data : option YUpdate)
| MsgAwareness (data : option AwarenessState)
| MsgStateSync (data : JsValue)
| MsgStateRequest
| MsgOther.

(** What arrives on a data channel: a string that [JSON.parse] accepts or not. *)
Inductive Frame :=
| FrameJson (m : DataChannelMessage)
| FrameInvalid.

(** BroadcastChannel messages carry the envelope plus [from] / [peerId]. *)
Record BroadcastMsg := mkBroadcast {
  bm_body : DataChannelMessage;
  bm_from : option string;
  bm_peerId : option string
}.

Record SessionDescription := mkDesc {
  sd_type : string;
  sd_sdp : string
}.

(** An [RTCIceCandidateInit], or an object of another shape that the code casts
    to one. *)
Inductive Candidate :=
| CandInit (candidate : string)
| CandForeign (tag : string).

Inductive SignalType := SigOffer | SigAnswer | SigIceCandidate.

(** The payload shapes the code distinguishes by its casts and field tests. *)
Inductive Payload :=
| PayAnnounce (peer : string) (playerName : string)
| PayBundle (sdp : option SessionDescription) (candidates : option (list Candidate))
| PayDescription (d : SessionDescription)
| PayCandidate (c : Candidate).

Record SignalMessage := mkSignal {
  sig_type : SignalType;
  sig_from : string;
  sig_to : option string;
  sig_payload : Payload;
  sig_timestamp : Z
}.

(** [(signal.payload as { type?: string })?.type] *)
Definition payloadType (p : Payload) : option string :=
  match p with
  | PayAnnounce _ _ => Some "announce"
  | PayDescription d => Some (sd_type d)
  | PayBundle _ _ | PayCandidate _ => None
  end.

(** Truthiness of [(signal.payload as { sdp?: unknown })?.sdp] *)
Definition hasSdpPayload (p : Payload) : bool :=
  match p with
  | PayBundle (Some _) _ => true
  | PayDescription d => str_truthy (sd_sdp d)
  | _ => false
  end.

(** The argument of [new RTCSessionDescription(...)]: [payload.sdp ||
    signal.payload]. *)
Inductive DescriptionArg :=
| ArgInit (d : SessionDescription)
| ArgSdpString (s : string)
| ArgPayload (p : Payload).

Definition sdp_or_payload (p : Payload) : DescriptionArg :=
  match p with
  | PayBundle (Some d) _ => ArgInit d
  | PayDescription d => if str_truthy (sd_sdp d) then ArgSdpString (sd_sdp d) else ArgInit d
  | _ => ArgPayload p
  end.

(** [payload.candidates || []] *)
Definition candidates_or_empty (p : Payload) : list Candidate :=
  match p with
  | PayBundle _ (Some cs) => cs
  | _ => []
  end.

(** [[payload]] when the payload has no [candidates] field. *)
Definition payload_as_candidate (p : Payload) : Candidate :=
  match p with
  | PayCandidate c => c
  | PayAnnounce _ _ => CandForeign "announce"
  | PayBundle _ _ => CandForeign "bundle"
  | PayDescription d => CandForeign (sd_type d)
  end.

(** ['candidates' in payload ? payload.candidates : [payload]] *)
Definition legacy_candidates (p : Payload) : list Candidate :=
  match p with
  | PayBundle _ (Some cs) => cs
  | _ => [payload_as_candidate p]
  end.

(** ** The provider *)

(** [MultiplayerProviderOptions]; a callback is present or absent, calling it
    is an [Effect]. *)
Record MultiplayerProviderOptions := mkOptions {
  opt_roomCode : string;
  opt_cityName : string;
  opt_playerName : string;
  opt_isHost : bool;
  opt_initialGameState : JsValue;
  onConnectionChange : bool;
  onPlayersChange : bool;
  onAction : bool;
  onStateReceived : bool
}.

(** The fields of [MultiplayerProvider].  Maps hold handles (numbers) of the
    runtime's connection and channel objects; [doc] is represented by its two
    shared types and by whether the fallback's ['update'] listener is
    registered; [awareness] by its local state. *)
Record Provider := mkProvider {
  roomCode : string;
  peerId : string;
  isHost : bool;
  player : Player;
  options : MultiplayerProviderOptions;
  operationsArray : list GameAction;
  metaMap : gmap string JsValue;
  docUpdateListener : bool;
  awarenessLocal : option AwarenessState;
  lastAppliedIndex : nat;
  destroyed : bool;
  peerConnections : gmap string nat;
  dataChannels : gmap string nat;
  pollingInterval : option nat;
  lastSeenSignals : string;
  connectedPeers : gset string;
  initialGameState : JsValue;
  pendingIceCandidates : gmap string (list Candidate);
  outgoingIceCandidates : gmap string (list Candidate);
  broadcastChannel : option string;
  useLocalFallback : bool
}.

Definition set_ops (x : list GameAction) (p : Provider) : Provider :=
  mkProvider (roomCode p) (peerId p) (isHost p) (player p) (options p) x (metaMap p)
    (docUpdateListener p) (awarenessLocal p) (lastAppliedIndex p) (destroyed p)
    (peerConnections p) (dataChannels p) (pollingInterval p) (lastSeenSignals p)
    (connectedPeers p) (initialGameState p) (pendingIceCandidates p)
    (outgoingIceCandidates p) (broadcastChannel p) (useLocalFallback p).

Definition set_meta (x : gmap string JsValue) (p : Provider) : Provider :=
  mkProvider (roomCode p) (peerId p) (isHost p) (player p) (options p) (operationsArray p) x
    (docUpdateListener p) (awarenessLocal p) (lastAppliedIndex p) (destroyed p)
    (peerConnections p) (dataChannels p) (pollingInterval p) (lastSeenSignals p)
    (connectedPeers p) (initialGameState p) (pendingIceCandidates p)
    (outgoingIceCandidates p) (broadcastChannel p) (useLocalFallback p).

Definition set_docUpdateListener (x : bool) (p : Provider) : Provider :=
  mkProvider (roomCode p) (peerId p) (isHost p) (player p) (options p) (operationsArray p)
    (metaMap p) x (awarenessLocal p) (lastAppliedIndex p) (destroyed p)
    (peerConnections p) (dataChannels p) (pollingInterval p) (lastSeenSignals p)
    (connectedPeers p) (initialGameState p) (pendingIceCandidates p)
    (outgoingIceCandidates p) (broadcastChannel p) (useLocalFallback p).

Definition set_awarenessLocal (x : option AwarenessState) (p : Provider) : Provider :=
  mkProvider (roomCode p) (peerId p) (isHost p) (player p) (options p) (operationsArray p)
    (metaMap p) (docUpdateListener p) x (lastAppliedIndex p) (destroyed p)
    (peerConnections p) (dataChannels p) (pollingInterval p) (lastSeenSignals p)
    (connectedPeers p) (initialGameState p) (pendingIceCandidates p)
    (outgoingIceCandidates p) (broadcastChannel p) (useLocalFallback p).

Definition set_lastAppliedIndex (x : nat) (p : Provider) : Provider :=
  mkProvider (roomCode p) (peerId p) (isHost p) (player p) (options p) (operationsArray p)
    (metaMap p) (docUpdateListener p) (awarenessLocal p) x (destroyed p)
    (peerConnections p) (dataChannels p) (pollingInterval p) (lastSeenSignals p)
    (connectedPeers p) (initialGameState p) (pendingIceCandidates p)
    (outgoingIceCandidates p) (broadcastChannel p) (useLocalFallback p).

Definition set_destroyed (x : bool) (p : Provider) : Provider :=
  mkProvider (roomCode p) (peerId p) (isHost p) (player p) (options p) (operationsArray p)
    (metaMap p) (docUpdateListener p) (awarenessLocal p) (lastAppliedIndex p) x
    (peerConnections p) (dataChannels p) (pollingInterval p) (lastSeenSignals p)
    (connectedPeers p) (initialGameState p) (pendingIceCandidates p)
    (outgoingIceCandidates p) (broadcastChannel p) (useLocalFallback p).

Definition set_peerConnections (x : gmap string nat) (p : Provider) : Provider :=
  mkProvider (roomCode p) (peerId p) (isHost p) (player p) (options p) (operationsArray p)
    (metaMap p) (docUpdateListener p) (awarenessLocal p) (lastAppliedIndex p) (destroyed p)
    x (dataChannels p) (pollingInterval p) (lastSeenSignals p)
    (connectedPeers p) (initialGameState p) (pendingIceCandidates p)
    (outgoingIceCandidates p) (broadcastChannel p) (useLocalFallback p).

Definition set_dataChannels (x : gmap string nat) (p : Provider) : Provider :=
  mkProvider (roomCode p) (peerId p) (isHost p) (player p) (options p) (operationsArray p)
    (metaMap p) (docUpdateListener p) (awarenessLocal p) (lastAppliedIndex p) (destroyed p)
    (peerConnections p) x (pollingInterval p) (lastSeenSignals p)
    (connectedPeers p) (initialGameState p) (pendingIceCandidates p)
    (outgoingIceCandidates p) (broadcastChannel p) (useLocalFallback p).

Definition set_pollingInterval (x : option nat) (p : Provider) : Provider :=
  mkProvider (roomCode p) (peerId p) (isHost p) (player p) (options p) (operationsArray p)
    (metaMap p) (docUpdateListener p) (awarenessLocal p) (lastAppliedIndex p) (destroyed p)
    (peerConnections p) (dataChannels p) x (lastSeenSignals p)
    (connectedPeers p) (initialGameState p) (pendingIceCandidates p)
    (outgoingIceCandidates p) (broadcastChannel p) (useLocalFallback p).

Definition set_lastSeenSignals (x : string) (p : Provider) : Provider :=
  mkProvider (roomCode p) (peerId p) (isHost p) (player p) (options p) (operationsArray p)
    (metaMap p) (docUpdateListener p) (awarenessLocal p) (lastAppliedIndex p) (destroyed p)
    (peerConnections p) (dataChannels p) (pollingInterval p) x
    (connectedPeers p) (initialGameState p) (pendingIceCandidates p)
    (outgoingIceCandidates p) (broadcastChannel p) (useLocalFallback p).

Definition set_connectedPeers (x : gset string) (p : Provider) : Provider :=
  mkProvider (roomCode p) (peerId p) (isHost p) (player p) (options p) (operationsArray p)
    (metaMap p) (docUpdateListener p) (awarenessLocal p) (lastAppliedIndex p) (destroyed p)
    (peerConnections p) (dataChannels p) (pollingInterval p) (lastSeenSignals p)
    x (initialGameState p) (pendingIceCandidates p)
    (outgoingIceCandidates p) (broadcastChannel p) (useLocalFallback p).

Definition set_initialGameState (x : JsValue) (p : Provider) : Provider :=
  mkProvider (roomCode p) (peerId p) (isHost p) (player p) (options p) (operationsArray p)
    (metaMap p) (docUpdateListener p) (awarenessLocal p) (lastAppliedIndex p) (destroyed p)
    (peerConnections p) (dataChannels p) (pollingInterval p) (lastSeenSignals p)
    (connectedPeers p) x (pendingIceCandidates p)
    (outgoingIceCandidates p) (broadcastChannel p) (useLocalFallback p).

Definition set_pendingIceCandidates (x : gmap string (list Candidate)) (p : Provider) : Provider :=
  mkProvider (roomCode p) (peerId p) (isHost p) (player p) (options p) (operationsArray p)
    (metaMap p) (docUpdateListener p) (awarenessLocal p) (lastAppliedIndex p) (destroyed p)
    (peerConnections p) (dataChannels p) (pollingInterval p) (lastSeenSignals p)
    (connectedPeers p) (initialGameState p) x
    (outgoingIceCandidates p) (broadcastChannel p) (useLocalFallback p).

Definition set_outgoingIceCandidates (x : gmap string (list Candidate)) (p : Provider) : Provider :=
  mkProvider (roomCode p) (peerId p) (isHost p) (player p) (options p) (operationsArray p)
    (metaMap p) (docUpdateListener p) (awarenessLocal p) (lastAppliedIndex p) (destroyed p)
    (peerConnections p) (dataChannels p) (pollingInterval p) (lastSeenSignals p)
    (connectedPeers p) (initialGameState p) (pendingIceCandidates p)
    x (broadcastChannel p) (useLocalFallback p).

Definition set_broadcastChannel (x : option string) (p : Provider) : Provider :=
  mkProvider (roomCode p) (peerId p) (isHost p) (player p) (options p) (operationsArray p)
    (metaMap p) (docUpdateListener p) (awarenessLocal p) (lastAppliedIndex p) (destroyed p)
    (peerConnections p) (dataChannels p) (pollingInterval p) (lastSeenSignals p)
    (connectedPeers p) (initialGameState p) (pendingIceCandidates p)
    (outgoingIceCandidates p) x (useLocalFallback p).

Definition set_useLocalFallback (x : bool) (p : Provider) : Provider :=
  mkProvider (roomCode p) (peerId p) (isHost p) (player p) (options p) (operationsArray p)
    (metaMap p) (docUpdateListener p) (awarenessLocal p) (lastAppliedIndex p) (destroyed p)
    (peerConnections p) (dataChannels p) (pollingInterval p) (lastSeenSignals p)
    (connectedPeers p) (initialGameState p) (pendingIceCandidates p)
    (outgoingIceCandidates p) (broadcastChannel p) x.

(** ** The runtime: objects the provider holds handles to *)

Inductive ConnectionState :=
| CsNew | CsConnecting | CsConnected | CsDisconnected | CsFailed | CsClosed.

Inductive GatheringState := GsNew | GsGathering | GsComplete.

Inductive ReadyState := RsConnecting | RsOpen | RsClosing | RsClosed.

(** An [RTCPeerConnection]; [pc_remote] is the [remotePeerId] its handlers
    close over. *)
Record PcObj := mkPc {
  pc_remote : string;
  pc_connectionState : ConnectionState;
  pc_iceGatheringState : GatheringState;
  pc_localDescription : option SessionDescription;
  pc_closed : bool
}.

(** An [RTCDataChannel]; [ch_peer] is the [remotePeerId] of the handlers
    attached by [setupDataChannel], if any. *)
Record ChanObj := mkChan {
  ch_peer : option string;
  ch_readyState : ReadyState
}.

Record Runtime := mkRuntime {
  rt_now : Z;                      (* Date.now() *)
  rt_localhost : bool;             (* window defined and hostname is localhost *)
  rt_generatePlayerColor : nat -> string;
  rt_colorCalls : nat;             (* calls of generatePlayerColor so far *)
  rt_pcs : gmap nat PcObj;
  rt_chans : gmap nat ChanObj;
  rt_nextRef : nat;                (* next fresh handle *)
  rt_intervals : gset nat          (* intervals set and not cleared *)
}.

Record State := mkState {
  prov : Provider;
  rt : Runtime
}.

Definition set_rt_now (x : Z) (r : Runtime) : Runtime :=
  mkRuntime x (rt_localhost r) (rt_generatePlayerColor r) (rt_colorCalls r) (rt_pcs r)
    (rt_chans r) (rt_nextRef r) (rt_intervals r).
Definition set_rt_colorCalls (x : nat) (r : Runtime) : Runtime :=
  mkRuntime (rt_now r) (rt_localhost r) (rt_generatePlayerColor r) x (rt_pcs r)
    (rt_chans r) (rt_nextRef r) (rt_intervals r).
Definition set_rt_pcs (x : gmap nat PcObj) (r : Runtime) : Runtime :=
  mkRuntime (rt_now r) (rt_localhost r) (rt_generatePlayerColor r) (rt_colorCalls r) x
    (rt_chans r) (rt_nextRef r) (rt_intervals r).
Definition set_rt_chans (x : gmap nat ChanObj) (r : Runtime) : Runtime :=
  mkRuntime (rt_now r) (rt_localhost r) (rt_generatePlayerColor r) (rt_colorCalls r)
    (rt_pcs r) x (rt_nextRef r) (rt_intervals r).
Definition set_rt_nextRef (x : nat) (r : Runtime) : Runtime :=
  mkRuntime (rt_now r) (rt_localhost r) (rt_generatePlayerColor r) (rt_colorCalls r)
    (rt_pcs r) (rt_chans r) x (rt_intervals r).
Definition set_rt_intervals (x : gset nat) (r : Runtime) : Runtime :=
  mkRuntime (rt_now r) (rt_localhost r) (rt_generatePlayerColor r) (rt_colorCalls r)
    (rt_pcs r) (rt_chans r) (rt_nextRef r) x.

(** ** Requests, responses and effects *)

(** What an [await] waits for. *)
Inductive Request :=
| FetchRoom (code : string)
| FetchSignals (room : string) (peer : string) (lastSeen : string)
| PostSignal (room : string) (type : SignalType) (from : string) (to : option string)
    (payload : Payload)
| ResponseText
| Sleep (ms : nat)
| CreateOffer (pc : nat)
| CreateAnswer (pc : nat)
| SetLocalDescription (pc : nat) (d : SessionDescription)
| SetRemoteDescription (pc : nat) (d : DescriptionArg)
| AddIceCandidate (pc : nat) (c : Candidate)
| GatherOrTimeout (pc : nat) (ms : nat).

(** What the awaited promise settles to. *)
Inductive Response :=
| RespReject
| RespVoid
| RespHttp (ok : bool) (status : nat)
| RespPoll (signals : list SignalMessage) (lastSeen : string)
| RespDesc (d : SessionDescription).

(** Observable actions of the provider, in the order they happen. *)
Inductive Effect :=
| CallOnConnectionChange (connected : bool) (peerCount : nat)
| CallOnPlayersChange (players : list Player)
| CallOnAction (op : GameAction)
| CallOnStateReceived (state : JsValue)
| Issue (req : Request)
| ChannelSend (ch : nat) (m : DataChannelMessage)
| BroadcastPost (m : BroadcastMsg)
| BroadcastClose
| NewPeerConnection (pc : nat) (remote : string)
| CreateDataChannel (pc : nat) (ch : nat)
| ClosePeerConnection (pc : nat)
| SetInterval (id : nat) (ms : nat)
| ClearInterval (id : nat)
| AwarenessSetLocalState (s : AwarenessState)
| AwarenessDestroy
| DocDestroy
| Uncaught.

(** ** The monad of provider code

    A computation runs on a [State] until it returns, throws, or reaches an
    [await]; it reports the effects performed on the way and the asynchronous
    calls it started without awaiting them ([r_forks]).  A suspended computation
    is resumed with the settled value and the state as it is by then: other
    handlers may have run in between. *)

Record Run (T A : Type) := mkRun {
  r_st : State;
  r_eff : list Effect;
  r_forks : list T;
  r_next : A
}.
Arguments mkRun {T A}.
Arguments r_st {T A}.
Arguments r_eff {T A}.
Arguments r_forks {T A}.
Arguments r_next {T A}.

Inductive Susp (A : Type) : Type :=
| Ret (a : A)
| Throw
| Await (req : Request) (k : Response -> State -> Run (Susp unit) (Susp A)).
Arguments Ret {A}.
Arguments Throw {A}.
Arguments Await {A}.

Definition Task := Susp unit.
Definition Co (A : Type) := State -> Run Task (Susp A).

(** Run [g] after [r], accumulating effects and forks. *)
Definition then_run {A B} (r : Run Task A) (g : A -> State -> Run Task B) : Run Task B :=
  let r2 := g (r_next r) (r_st r) in
  mkRun (r_st r2) (r_eff r ++ r_eff r2) (r_forks r ++ r_forks r2) (r_next r2).

Fixpoint susp_bind {A B} (s : Susp A) (f : A -> Co B) (st : State) {struct s}
  : Run Task (Susp B) :=
  match s with
  | Ret a => f a st
  | Throw => mkRun st [] [] Throw
  | Await req k =>
      mkRun st [] [] (Await req (fun resp st' =>
        match k resp st' with
        | mkRun st1 e1 f1 n1 =>
            let r2 := susp_bind n1 f st1 in
            mkRun (r_st r2) (e1 ++ r_eff r2) (f1 ++ r_forks r2) (r_next r2)
        end))
  end.

(** [try { s } catch { h }] *)
Fixpoint susp_try {A} (s : Susp A) (h : Co A) (st : State) {struct s}
  : Run Task (Susp A) :=
  match s with
  | Ret a => mkRun st [] [] (Ret a)
  | Throw => h st
  | Await req k =>
      mkRun st [] [] (Await req (fun resp st' =>
        match k resp st' with
        | mkRun st1 e1 f1 n1 =>
            let r2 := susp_try n1 h st1 in
            mkRun (r_st r2) (e1 ++ r_eff r2) (f1 ++ r_forks r2) (r_next r2)
        end))
  end.

Definition ret {A} (a : A) : Co A := fun st => mkRun st [] [] (Ret a).
Definition throw {A} : Co A := fun st => mkRun st [] [] Throw.
Definition bind {A B} (c : Co A) (f : A -> Co B) : Co B :=
  fun st => then_run (c st) (fun s => susp_bind s f).
Definition try_catch {A} (c : Co A) (h : Co A) : Co A :=
  fun st => then_run (c st) (fun s => susp_try s h).

Declare Scope co_scope.
Delimit Scope co_scope with co.
Notation "x <- c1 ;; c2" := (bind c1 (fun x => c2))
  (at level 100, c1 at next level, c2 at level 200, right associativity) : co_scope.
Notation "c1 ;; c2" := (bind c1 (fun _ => c2))
  (at level 100, c2 at level 200, right associativity) : co_scope.
Local Open Scope co_scope.

(** [await req]: issue the request and suspend until it settles. *)
Definition await (req : Request) : Co Response :=
  fun st => mkRun st [Issue req] []
    (Await req (fun resp st' => mkRun st' [] [] (Ret resp))).

(** Calling an async function without awaiting it: it runs up to its first
    suspension, the caller goes on. *)
Definition fork (c : Co unit) : Co unit :=
  fun st => let r := c st in
    mkRun (r_st r) (r_eff r) (r_forks r ++ [r_next r]) (Ret tt).

Definition emit (e : Effect) : Co unit := fun st => mkRun st [e] [] (Ret tt).
Definition getP {A} (f : Provider -> A) : Co A :=
  fun st => mkRun st [] [] (Ret (f (prov st))).
Definition modP (f : Provider -> Provider) : Co unit :=
  fun st => mkRun (mkState (f (prov st)) (rt st)) [] [] (Ret tt).
Definition getR {A} (f : Runtime -> A) : Co A :=
  fun st => mkRun st [] [] (Ret (f (rt st))).
Definition modR (f : Runtime -> Runtime) : Co unit :=
  fun st => mkRun (mkState (prov st) (f (rt st))) [] [] (Ret tt).

Definition when (b : bool) (c : Co unit) : Co unit := if b then c else ret tt.

(** [for (const x of l) { f x }] *)
Fixpoint foreach {A} (l : list A) (f : A -> Co unit) : Co unit :=
  match l with
  | [] => ret tt
  | x :: l' => f x ;; foreach l' f
  end.

Fixpoint mapM {A B} (f : A -> Co B) (l : list A) : Co (list B) :=
  match l with
  | [] => ret []
  | x :: l' => y <- f x ;; ys <- mapM f l' ;; ret (y :: ys)
  end.

Arguments then_run {A B} r g /.
Arguments ret {A} a st /.
Arguments throw {A} st /.
Arguments bind {A B} c f st /.
Arguments try_catch {A} c h st /.
Arguments await req st /.
Arguments fork c st /.
Arguments emit e st /.
Arguments getP {A} f st /.
Arguments modP f st /.
Arguments getR {A} f st /.
Arguments modR f st /.
Arguments when b c /.

(** The awaited promise resolves (to anything) or rejects. *)
Definition await_ok (req : Request) : Co unit :=
  r <- await req ;;
  match r with
  | RespReject => throw
  | _ => ret tt
  end.

(** The awaited promise resolves to a session description. *)
Definition await_desc (req : Request) : Co SessionDescription :=
  r <- await req ;;
  match r with
  | RespDesc d => ret d
  | _ => throw
  end.

(** ** The methods of [MultiplayerProvider] *)

(** [generatePlayerColor] comes from [./types], which is not part of the
    sources at hand: the runtime holds it as a parameter, the colour returned by
    its n-th call. *)
Definition nextColor : Co string :=
  n <- getR rt_colorCalls ;;
  generatePlayerColor <- getR rt_generatePlayerColor ;;
  modR (set_rt_colorCalls (S n)) ;;
  ret (generatePlayerColor n).

(** The placeholder built for a connected peer in [getPlayers] and
    [notifyPlayersChange]. *)
Definition placeholderPlayer (peer : string) : Co Player :=
  color <- nextColor ;;
  now <- getR rt_now ;;
  ret (mkPlayer peer ("Player " +:+ slice_last4 peer) color now false).

Definition getPlayers : Co (list Player) :=
  me <- getP player ;;
  peers <- getP connectedPeers ;;
  others <- mapM placeholderPlayer (elements peers) ;;
  ret (me :: others).

Definition getHost : Co (option Player) :=
  players <- getPlayers ;;
  ret (List.find p_isHost players).

Definition amIHost : Co bool := getP isHost.

Definition getOperationsSince (index : nat) : Co (list GameAction) :=
  ops <- getP operationsArray ;;
  ret (drop index ops).

Definition getAllOperations : Co (list GameAction) := getP operationsArray.

Definition getMeta (key : string) : Co (option JsValue) :=
  m <- getP metaMap ;;
  ret (m !! key).

Definition notifyPlayersChange : Co unit :=
  o <- getP options ;;
  if negb (onPlayersChange o) then ret tt
  else
    me <- getP player ;;
    peers <- getP connectedPeers ;;
    others <- mapM placeholderPlayer (elements peers) ;;
    emit (CallOnPlayersChange (me :: others)).

Definition updateConnectionStatus : Co unit :=
  peers <- getP connectedPeers ;;
  let peerCount := size peers + 1 in
  o <- getP options ;;
  when (onConnectionChange o) (emit (CallOnConnectionChange true peerCount)) ;;
  notifyPlayersChange.

(** The observer installed on the operations array by the constructor; [added]
    is [event.changes.added.size]. *)
Definition operationsObserver (added : nat) : Co unit :=
  if 0 <? added then
    ops <- getP operationsArray ;;
    idx <- getP lastAppliedIndex ;;
    pid <- getP peerId ;;
    o <- getP options ;;
    foreach (drop idx ops) (fun op =>
      let isRemote := negb (String.eqb (playerId op) pid) in
      when (isRemote && onAction o) (emit (CallOnAction op))) ;;
    ops' <- getP operationsArray ;;
    modP (set_lastAppliedIndex (length ops'))
  else ret tt.

(** The ['update'] listener that [enableLocalFallback] registers on the
    document. *)
Definition docUpdateHandler (originRemote : bool) (u : YUpdate) : Co unit :=
  registered <- getP docUpdateListener ;;
  if negb registered then ret tt
  else if originRemote then ret tt
  else
    fallback <- getP useLocalFallback ;;
    if negb fallback then ret tt
    else
      bc <- getP broadcastChannel ;;
      pid <- getP peerId ;;
      match bc with
      | Some _ => emit (BroadcastPost (mkBroadcast (MsgUpdate (Some u)) (Some pid) None))
      | None => ret tt
      end.

Definition write_meta (kvs : list (string * JsValue)) (m : gmap string JsValue)
  : gmap string JsValue :=
  fold_left (fun acc kv => <[kv.1 := kv.2]> acc) kvs m.

(** One transaction on the document that adds [u]: the shared types change, the
    array observer runs, then the document's ['update'] listeners.  A
    transaction that adds nothing notifies nobody. *)
Definition transact (originRemote : bool) (u : YUpdate) : Co unit :=
  if update_is_empty u then ret tt
  else
    modP (fun p => set_meta (write_meta (u_meta u) (metaMap p))
                     (set_ops (operationsArray p ++ u_ops u) p)) ;;
    operationsObserver (length (u_ops u)) ;;
    docUpdateHandler originRemote u.

(** [Y.encodeStateAsUpdate(this.doc)] *)
Definition encodeStateAsUpdate : Co YUpdate :=
  ops <- getP operationsArray ;;
  m <- getP metaMap ;;
  ret (mkUpdate ops (map_to_list m)).

Definition readyStateOf (ch : nat) : Co ReadyState :=
  chans <- getR rt_chans ;;
  ret (match chans !! ch with
       | Some c => ch_readyState c
       | None => RsClosed
       end).

Definition is_open (s : ReadyState) : bool :=
  match s with
  | RsOpen => true
  | _ => false
  end.

Definition dispatchAction (action : GameActionInput) : Co unit :=
  d <- getP destroyed ;;
  if d then ret tt
  else
    now <- getR rt_now ;;
    pid <- getP peerId ;;
    let fullAction := mkAction action now pid in
    transact false (mkUpdate [fullAction] []) ;;
    update <- encodeStateAsUpdate ;;
    chans <- getP dataChannels ;;
    foreach (map_to_list chans) (fun entry =>
      s <- readyStateOf entry.2 ;;
      when (is_open s) (emit (ChannelSend entry.2 (MsgUpdate (Some update))))) ;;
    fallback <- getP useLocalFallback ;;
    bc <- getP broadcastChannel ;;
    match bc with
    | Some _ =>
        when fallback
          (emit (BroadcastPost (mkBroadcast (MsgUpdate (Some update)) (Some pid) None)))
    | None => ret tt
    end.

(** [Partial<AwarenessState>]: the fields to overwrite; a [player] in the
    update is overwritten by [this.player] in any case. *)
Definition updateAwareness (update : gmap string JsValue) : Co unit :=
  d <- getP destroyed ;;
  if d then ret tt
  else
    current <- getP awarenessLocal ;;
    me <- getP player ;;
    let fields := match current with
                  | Some c => aw_fields c
                  | None => ∅
                  end in
    let next := mkAwareness me (update ∪ fields) in
    modP (set_awarenessLocal (Some next)) ;;
    emit (AwarenessSetLocalState next).

Definition setMeta (key : string) (value : JsValue) : Co unit :=
  transact false (mkUpdate [] [(key, value)]).

Definition updateGameState (state : JsValue) : Co unit :=
  modP (set_initialGameState state).

Definition clearInterval (id : nat) : Co unit :=
  modR (fun r => set_rt_intervals (rt_intervals r ∖ {[id]}) r) ;;
  emit (ClearInterval id).

Definition closePeerConnection (pc : nat) : Co unit :=
  modR (fun r => set_rt_pcs
    (alter (fun o => mkPc (pc_remote o) CsClosed (pc_iceGatheringState o)
                       (pc_localDescription o) true) pc (rt_pcs r)) r) ;;
  emit (ClosePeerConnection pc).

Definition destroy : Co unit :=
  d <- getP destroyed ;;
  if d then ret tt
  else
    modP (set_destroyed true) ;;
    interval <- getP pollingInterval ;;
    match interval with
    | Some id => clearInterval id ;; modP (set_pollingInterval None)
    | None => ret tt
    end ;;
    pcs <- getP peerConnections ;;
    foreach (map_to_list pcs) (fun entry => closePeerConnection entry.2) ;;
    modP (set_peerConnections ∅) ;;
    modP (set_dataChannels ∅) ;;
    bc <- getP broadcastChannel ;;
    match bc with
    | Some _ => emit BroadcastClose ;; modP (set_broadcastChannel None)
    | None => ret tt
    end ;;
    modP (set_awarenessLocal None) ;;
    emit AwarenessDestroy ;;
    emit DocDestroy.

Definition stopPollingIfConnected : Co unit :=
  peers <- getP connectedPeers ;;
  interval <- getP pollingInterval ;;
  match interval with
  | Some id =>
      if 0 <? size peers
      then clearInterval id ;; modP (set_pollingInterval None)
      else ret tt
  | None => ret tt
  end.

Definition announceMsg (p : Provider) : BroadcastMsg :=
  mkBroadcast (MsgAwareness (Some (mkAwareness (player p) ∅))) (Some (peerId p)) None.

Definition enableLocalFallback : Co unit :=
  fallback <- getP useLocalFallback ;;
  if fallback then ret tt
  else
    bc <- getP broadcastChannel ;;
    match bc with
    | None => ret tt
    | Some _ =>
        modP (set_useLocalFallback true) ;;
        msg <- getP announceMsg ;;
        emit (BroadcastPost msg) ;;
        host <- getP isHost ;;
        pid <- getP peerId ;;
        when (negb host)
          (fork (await (Sleep 100) ;;
                 bc' <- getP broadcastChannel ;;
                 match bc' with
                 | Some _ => emit (BroadcastPost (mkBroadcast MsgStateRequest (Some pid) None))
                 | None => ret tt
                 end)) ;;
        modP (set_docUpdateListener true) ;;
        updateConnectionStatus
    end.

Definition handleBroadcastMessage (msg : BroadcastMsg) : Co unit :=
  match bm_body msg with
  | MsgStateRequest =>
      host <- getP isHost ;;
      state <- getP initialGameState ;;
      bc <- getP broadcastChannel ;;
      pid <- getP peerId ;;
      if host && truthy state then
        match bc with
        | Some _ => emit (BroadcastPost (mkBroadcast (MsgStateSync state) (Some pid) None))
        | None => ret tt
        end
      else ret tt
  | MsgStateSync data =>
      o <- getP options ;;
      when (onStateReceived o) (emit (CallOnStateReceived data))
  | MsgSync data | MsgUpdate data =>
      match data with
      | Some u => transact true u
      | None => ret tt
      end
  | MsgAwareness _ | MsgOther => ret tt
  end.

Definition opt_str_eqb (a : option string) (b : string) : bool :=
  match a with
  | Some x => String.eqb x b
  | None => false
  end.

(** [msg.from || msg.peerId], as a truthy string if there is one *)
Definition from_or_peerId (msg : BroadcastMsg) : option string :=
  match bm_from msg with
  | Some f => if str_truthy f then Some f else
                match bm_peerId msg with
                | Some q => if str_truthy q then Some q else None
                | None => None
                end
  | None => match bm_peerId msg with
            | Some q => if str_truthy q then Some q else None
            | None => None
            end
  end.

Definition is_awareness (m : DataChannelMessage) : bool :=
  match m with
  | MsgAwareness _ => true
  | _ => false
  end.

Definition is_state_msg (m : DataChannelMessage) : bool :=
  match m with
  | MsgStateSync _ | MsgStateRequest => true
  | _ => false
  end.

(** [broadcastChannel.onmessage], installed by [setupLocalFallback] *)
Definition broadcastOnMessage (msg : BroadcastMsg) : Co unit :=
  pid <- getP peerId ;;
  if opt_str_eqb (bm_from msg) pid || opt_str_eqb (bm_peerId msg) pid then ret tt
  else
    when (is_awareness (bm_body msg))
      (match from_or_peerId msg with
       | Some remotePeerId =>
           peers <- getP connectedPeers ;;
           if bool_decide (remotePeerId ∈ peers) then ret tt
           else
             modP (set_connectedPeers ({[remotePeerId]} ∪ peers)) ;;
             updateConnectionStatus ;;
             fallback <- getP useLocalFallback ;;
             bc <- getP broadcastChannel ;;
             msg' <- getP announceMsg ;;
             match bc with
             | Some _ => when fallback (emit (BroadcastPost msg'))
             | None => ret tt
             end
       | None => ret tt
       end) ;;
    fallback <- getP useLocalFallback ;;
    when (is_state_msg (bm_body msg) || fallback) (handleBroadcastMessage msg).

Definition sendSignal (type : SignalType) (payload : Payload) (to : option string)
  : Co unit :=
  try_catch
    (room <- getP roomCode ;;
     pid <- getP peerId ;;
     r <- await (PostSignal room type pid to payload) ;;
     match r with
     | RespReject => throw
     | RespHttp false _ => await_ok ResponseText
     | _ => ret tt
     end)
    (ret tt).

Definition announcePresence : Co unit :=
  try_catch
    (room <- getP roomCode ;;
     pid <- getP peerId ;;
     me <- getP player ;;
     await_ok (PostSignal room SigOffer pid None (PayAnnounce pid (p_name me))))
    (ret tt).

Definition freshRef : Co nat :=
  id <- getR rt_nextRef ;;
  modR (set_rt_nextRef (S id)) ;;
  ret id.

(** [new RTCPeerConnection(...)]; the handlers installed on it close over
    [remotePeerId]. *)
Definition newPeerConnection (remotePeerId : string) : Co nat :=
  pc <- freshRef ;;
  modR (fun r => set_rt_pcs (<[pc := mkPc remotePeerId CsNew GsNew None false]> (rt_pcs r)) r) ;;
  emit (NewPeerConnection pc remotePeerId) ;;
  ret pc.

Definition createDataChannel (pc : nat) : Co nat :=
  ch <- freshRef ;;
  modR (fun r => set_rt_chans (<[ch := mkChan None RsConnecting]> (rt_chans r)) r) ;;
  emit (CreateDataChannel pc ch) ;;
  ret ch.

Definition setupDataChannel (channel : nat) (remotePeerId : string) : Co unit :=
  modP (fun p => set_dataChannels (<[remotePeerId := channel]> (dataChannels p)) p) ;;
  modR (fun r => set_rt_chans
    (alter (fun c => mkChan (Some remotePeerId) (ch_readyState c)) channel (rt_chans r)) r).

Definition syncDocument (remotePeerId : string) : Co unit :=
  state <- encodeStateAsUpdate ;;
  chans <- getP dataChannels ;;
  match chans !! remotePeerId with
  | None => ret tt
  | Some channel =>
      s <- readyStateOf channel ;;
      when (is_open s) (emit (ChannelSend channel (MsgSync (Some state)))) ;;
      awarenessState <- getP awarenessLocal ;;
      match awarenessState with
      | Some a =>
          s' <- readyStateOf channel ;;
          when (is_open s') (emit (ChannelSend channel (MsgAwareness (Some a))))
      | None => ret tt
      end
  end.

Definition handleDataChannelMessage (data : Frame) (remotePeerId : string) : Co unit :=
  try_catch
    (match data with
     | FrameInvalid => throw
     | FrameJson message =>
         match message with
         | MsgSync d | MsgUpdate d =>
             match d with
             | Some u => transact false u
             | None => throw
             end
         | MsgAwareness _ => notifyPlayersChange
         | MsgStateRequest =>
             host <- getP isHost ;;
             state <- getP initialGameState ;;
             if host && truthy state then
               chans <- getP dataChannels ;;
               match chans !! remotePeerId with
               | Some channel =>
                   s <- readyStateOf channel ;;
                   when (is_open s) (emit (ChannelSend channel (MsgStateSync state)))
               | None => ret tt
               end
             else ret tt
         | MsgStateSync d =>
             o <- getP options ;;
             when (onStateReceived o && truthy d) (emit (CallOnStateReceived d))
         | MsgOther => ret tt
         end
     end)
    (ret tt).

Definition setLocalDescription (pc : nat) (d : SessionDescription) : Co unit :=
  await_ok (SetLocalDescription pc d) ;;
  modR (fun r => set_rt_pcs
    (alter (fun o => mkPc (pc_remote o) (pc_connectionState o) (pc_iceGatheringState o)
                       (Some d) (pc_closed o)) pc (rt_pcs r)) r).

(** [pc.localDescription!.toJSON()] *)
Definition localDescription (pc : nat) : Co SessionDescription :=
  pcs <- getR rt_pcs ;;
  match pcs !! pc with
  | Some o => match pc_localDescription o with
              | Some d => ret d
              | None => throw
              end
  | None => throw
  end.

Definition gathering_complete (r : Runtime) (pc : nat) : bool :=
  match rt_pcs r !! pc with
  | Some o => match pc_iceGatheringState o with
              | GsComplete => true
              | _ => false
              end
  | None => false
  end.

(** The promise that resolves at once when gathering is complete, and otherwise
    on the first of: an [icegatheringstatechange] to [complete], the 3000 ms
    timer. *)
Definition waitForIceGathering (pc : nat) : Co unit :=
  complete <- getR (fun r => gathering_complete r pc) ;;
  if complete then ret tt
  else _ <- await (GatherOrTimeout pc 3000) ;; ret tt.

Definition createPeerConnection (remotePeerId : string) (createOffer : bool) : Co nat :=
  existing <- getP (fun p => peerConnections p !! remotePeerId) ;;
  match existing with
  | Some pc => ret pc
  | None =>
      pc <- newPeerConnection remotePeerId ;;
      modP (fun p => set_peerConnections (<[remotePeerId := pc]> (peerConnections p)) p) ;;
      (if createOffer then
         channel <- createDataChannel pc ;;
         setupDataChannel channel remotePeerId ;;
         offer <- await_desc (CreateOffer pc) ;;
         setLocalDescription pc offer ;;
         waitForIceGathering pc ;;
         out <- getP outgoingIceCandidates ;;
         let candidates := default [] (out !! remotePeerId) in
         sdp <- localDescription pc ;;
         sendSignal SigOffer (PayBundle (Some sdp) (Some candidates)) (Some remotePeerId) ;;
         modP (fun p => set_outgoingIceCandidates
                          (delete remotePeerId (outgoingIceCandidates p)) p)
       else ret tt) ;;
      ret pc
  end.

(** [try { await pc.addIceCandidate(new RTCIceCandidate(c)) } catch { log }] *)
Definition tryAddIceCandidate (pc : nat) (c : Candidate) : Co unit :=
  try_catch (await_ok (AddIceCandidate pc c)) (ret tt).

(** The part of [handleOffer] that applies the candidates buffered for the
    sender; the loop runs over the array as found when it starts. *)
Definition applyBufferedCandidates (signal : SignalMessage) (pc : nat) : Co unit :=
  pending <- getP pendingIceCandidates ;;
  let bufferedCandidates := default [] (pending !! sig_from signal) in
  if 0 <? length bufferedCandidates then
    foreach bufferedCandidates (tryAddIceCandidate pc) ;;
    modP (fun p => set_pendingIceCandidates
                     (delete (sig_from signal) (pendingIceCandidates p)) p)
  else ret tt.

(** The part of [handleOffer] that creates the answer and sends it with the
    candidates gathered. *)
Definition sendAnswer (signal : SignalMessage) (pc : nat) : Co unit :=
  answer <- await_desc (CreateAnswer pc) ;;
  setLocalDescription pc answer ;;
  waitForIceGathering pc ;;
  out <- getP outgoingIceCandidates ;;
  let candidates := default [] (out !! sig_from signal) in
  sdp <- localDescription pc ;;
  sendSignal SigAnswer (PayBundle (Some sdp) (Some candidates)) (Some (sig_from signal)) ;;
  modP (fun p => set_outgoingIceCandidates
                   (delete (sig_from signal) (outgoingIceCandidates p)) p).

Definition handleOffer (signal : SignalMessage) : Co unit :=
  try_catch
    (let offerSdp := sdp_or_payload (sig_payload signal) in
     let offerCandidates := candidates_or_empty (sig_payload signal) in
     pc <- createPeerConnection (sig_from signal) false ;;
     await_ok (SetRemoteDescription pc offerSdp) ;;
     foreach offerCandidates (tryAddIceCandidate pc) ;;
     applyBufferedCandidates signal pc ;;
     sendAnswer signal pc)
    (ret tt).

Definition handleAnswer (signal : SignalMessage) : Co unit :=
  pcs <- getP peerConnections ;;
  match pcs !! sig_from signal with
  | Some pc =>
      let answerSdp := sdp_or_payload (sig_payload signal) in
      let answerCandidates := candidates_or_empty (sig_payload signal) in
      await_ok (SetRemoteDescription pc answerSdp) ;;
      foreach answerCandidates (tryAddIceCandidate pc)
  | None => ret tt
  end.

Definition handleLegacyIceCandidate (signal : SignalMessage) : Co unit :=
  let candidates := legacy_candidates (sig_payload signal) in
  pcs <- getP peerConnections ;;
  match pcs !! sig_from signal with
  | Some pc => foreach candidates (tryAddIceCandidate pc)
  | None =>
      modP (fun p =>
        let pending := default [] (pendingIceCandidates p !! sig_from signal) in
        set_pendingIceCandidates
          (<[sig_from signal := (pending ++ candidates)%list]> (pendingIceCandidates p)) p)
  end.

Definition is_offer (t : SignalType) : bool :=
  match t with
  | SigOffer => true
  | _ => false
  end.

Definition payload_type_is (p : Payload) (s : string) : bool :=
  match payloadType p with
  | Some t => String.eqb t s
  | None => false
  end.

Definition handleSignal (signal : SignalMessage) : Co unit :=
  if is_offer (sig_type signal) && payload_type_is (sig_payload signal) "announce" then
    host <- getP isHost ;;
    if host then _ <- createPeerConnection (sig_from signal) true ;; ret tt
    else ret tt
  else
    match sig_type signal with
    | SigOffer =>
        if payload_type_is (sig_payload signal) "offer" || hasSdpPayload (sig_payload signal)
        then handleOffer signal
        else ret tt
    | SigAnswer => handleAnswer signal
    | SigIceCandidate => handleLegacyIceCandidate signal
    end.

Definition pollSignals : Co unit :=
  d <- getP destroyed ;;
  if d then ret tt
  else
    try_catch
      (room <- getP roomCode ;;
       pid <- getP peerId ;;
       seen <- getP lastSeenSignals ;;
       response <- await (FetchSignals room pid seen) ;;
       match response with
       | RespReject => throw
       | RespPoll signals lastSeen =>
           modP (set_lastSeenSignals lastSeen) ;;
           foreach signals handleSignal
       | _ => ret tt
       end)
      (ret tt).

(** The host's loop [for (let i = 0; i < 6; i++)] with [n] rounds left. *)
Fixpoint waitForRoom (n : nat) : Co unit :=
  match n with
  | 0 => ret tt
  | S n' =>
      room <- getP roomCode ;;
      check <- await (FetchRoom room) ;;
      match check with
      | RespReject => throw
      | RespHttp true _ => ret tt
      | _ => _ <- await (Sleep 500) ;; waitForRoom n'
      end
  end.

Definition setInterval (ms : nat) : Co nat :=
  id <- freshRef ;;
  modR (fun r => set_rt_intervals ({[id]} ∪ rt_intervals r) r) ;;
  emit (SetInterval id ms) ;;
  ret id.

Definition startPolling : Co unit :=
  host <- getP isHost ;;
  when host (waitForRoom 6) ;;
  id <- setInterval 2000 ;;
  modP (set_pollingInterval (Some id)) ;;
  fork pollSignals.

Definition startSignalPolling : Co unit :=
  interval <- getP pollingInterval ;;
  match interval with
  | Some _ => ret tt
  | None => fork startPolling
  end.

Definition connect : Co unit :=
  d <- getP destroyed ;;
  if d then ret tt
  else
    o <- getP options ;;
    when (onConnectionChange o) (emit (CallOnConnectionChange true 1)) ;;
    notifyPlayersChange ;;
    localhost <- getR rt_localhost ;;
    if localhost then enableLocalFallback
    else
      startSignalPolling ;;
      host <- getP isHost ;;
      if negb host then announcePresence else ret tt.

(** ** Handlers installed on runtime objects *)

(** [pc.onicecandidate] *)
Definition onIceCandidate (remotePeerId : string) (candidate : option Candidate) : Co unit :=
  match candidate with
  | Some c =>
      modP (fun p =>
        let pending := default [] (outgoingIceCandidates p !! remotePeerId) in
        set_outgoingIceCandidates
          (<[remotePeerId := (pending ++ [c])%list]> (outgoingIceCandidates p)) p)
  | None => ret tt
  end.

Definition connectionStateOf (r : Runtime) (pc : nat) : ConnectionState :=
  match rt_pcs r !! pc with
  | Some o => pc_connectionState o
  | None => CsClosed
  end.

(** [pc.onconnectionstatechange] *)
Definition onConnectionStateChange (pc : nat) (remotePeerId : string) : Co unit :=
  s <- getR (fun r => connectionStateOf r pc) ;;
  match s with
  | CsConnected =>
      modP (fun p => set_connectedPeers ({[remotePeerId]} ∪ connectedPeers p) p) ;;
      updateConnectionStatus ;;
      stopPollingIfConnected
  | CsDisconnected | CsFailed =>
      modP (fun p => set_connectedPeers (connectedPeers p ∖ {[remotePeerId]}) p) ;;
      modP (fun p => set_peerConnections (delete remotePeerId (peerConnections p)) p) ;;
      modP (fun p => set_dataChannels (delete remotePeerId (dataChannels p)) p) ;;
      updateConnectionStatus ;;
      bc <- getP broadcastChannel ;;
      fallback <- getP useLocalFallback ;;
      match bc with
      | Some _ => if negb fallback then enableLocalFallback else ret tt
      | None => ret tt
      end
  | _ => ret tt
  end.

(** [channel.onopen] *)
Definition channelOnOpen (channel : nat) (remotePeerId : string) : Co unit :=
  syncDocument remotePeerId ;;
  host <- getP isHost ;;
  when (negb host) (emit (ChannelSend channel MsgStateRequest)).

(** [channel.onclose] *)
Definition channelOnClose (remotePeerId : string) : Co unit :=
  modP (fun p => set_dataChannels (delete remotePeerId (dataChannels p)) p).

(** ** The constructor *)

Definition hostMeta (pid : string) (now : Z) (o : MultiplayerProviderOptions)
  : gmap string JsValue :=
  <["roomCode" := JStr (opt_roomCode o)]>
    (<["cityName" := JStr (opt_cityName o)]>
      (<["createdAt" := JNum now]>
        (<["hostId" := JStr pid]> ∅))).

(** [new MultiplayerProvider(options)]: [generatedId] is what
    [generatePlayerId()] returned, [r] the runtime the provider is created in. *)
Definition construct (o : MultiplayerProviderOptions) (generatedId : string) (r : Runtime)
  : State :=
  let me := mkPlayer generatedId (opt_playerName o)
              (rt_generatePlayerColor r (rt_colorCalls r)) (rt_now r) (opt_isHost o) in
  mkState
    {| roomCode := opt_roomCode o;
       peerId := generatedId;
       isHost := opt_isHost o;
       player := me;
       options := o;
       operationsArray := [];
       metaMap := if opt_isHost o then hostMeta generatedId (rt_now r) o else ∅;
       docUpdateListener := false;
       awarenessLocal := Some (mkAwareness me ∅);
       lastAppliedIndex := 0;
       destroyed := false;
       peerConnections := ∅;
       dataChannels := ∅;
       pollingInterval := None;
       lastSeenSignals := "";
       connectedPeers := ∅;
       initialGameState := if opt_isHost o then opt_initialGameState o else JNull;
       pendingIceCandidates := ∅;
       outgoingIceCandidates := ∅;
       broadcastChannel :=
         if rt_localhost r then Some ("coop-" +:+ opt_roomCode o) else None;
       useLocalFallback := false |}
    (set_rt_colorCalls (S (rt_colorCalls r)) r).

(** ** The event loop *)

(** A provider in its environment: the state and the suspended asynchronous
    calls, each under the number the environment settles it by. *)
Record World := mkWorld {
  w_state : State;
  w_tasks : list (nat * Task);
  w_nextTask : nat
}.

Inductive Event :=
| CallConnect
| CallDispatchAction (action : GameActionInput)
| CallUpdateAwareness (update : gmap string JsValue)
| CallSetMeta (key : string) (value : JsValue)
| CallUpdateGameState (state : JsValue)
| CallDestroy
| Clock (now : Z)
| Settle (task : nat) (resp : Response)
| IntervalTick (id : nat)
| IceCandidateEvent (pc : nat) (candidate : option Candidate)
| IceGatheringStateChange (pc : nat) (s : GatheringState)
| ConnectionStateChange (pc : nat) (s : ConnectionState)
| DataChannelEvent (pc : nat)
| ChannelOpen (ch : nat)
| ChannelMessage (ch : nat) (data : Frame)
| ChannelClose (ch : nat)
| BroadcastMessage (msg : BroadcastMsg)
| AwarenessChange.

(** Put the calls that are still waiting into the pool; a call that ended by
    throwing is an uncaught error. *)
Fixpoint register (ts : list Task) (pool : list (nat * Task)) (next : nat)
  : list (nat * Task) * nat * list Effect :=
  match ts with
  | [] => (pool, next, [])
  | t :: ts' =>
      match t with
      | Ret _ => register ts' pool next
      | Throw =>
          let '(pool', next', e) := register ts' pool next in
          (pool', next', Uncaught :: e)
      | Await _ _ => register ts' (pool ++ [(next, t)]) (S next)
      end
  end.

Definition finish (r : Run Task Task) (w : World) : World * list Effect :=
  let '(pool, next, e) := register (r_forks r ++ [r_next r]) (w_tasks w) (w_nextTask w) in
  (mkWorld (r_st r) pool next, (r_eff r ++ e)%list).

(** Run a handler to its end or to its first suspension. *)
Definition run (c : Co unit) (w : World) : World * list Effect :=
  finish (c (w_state w)) w.

(** Resume a suspended call with what its promise settled to. *)
Definition resume (t : Task) (resp : Response) (w : World) : World * list Effect :=
  match t with
  | Await _ k => finish (k resp (w_state w)) w
  | _ => (w, [])
  end.

Fixpoint take_task (id : nat) (pool : list (nat * Task))
  : option (Task * list (nat * Task)) :=
  match pool with
  | [] => None
  | (i, t) :: pool' =>
      if Nat.eqb i id then Some (t, pool')
      else match take_task id pool' with
           | Some (t', rest) => Some (t', (i, t) :: rest)
           | None => None
           end
  end.

Definition waits_for_gathering (pc : nat) (t : Task) : bool :=
  match t with
  | Await (GatherOrTimeout pc' _) _ => Nat.eqb pc' pc
  | _ => false
  end.

Fixpoint resume_all (ts : list (nat * Task)) (resp : Response) (w : World)
  : World * list Effect :=
  match ts with
  | [] => (w, [])
  | (_, t) :: ts' =>
      let '(w1, e1) := resume t resp w in
      let '(w2, e2) := resume_all ts' resp w1 in
      (w2, (e1 ++ e2)%list)
  end.

Definition with_state (st : State) (w : World) : World :=
  mkWorld st (w_tasks w) (w_nextTask w).

Definition with_rt (f : Runtime -> Runtime) (w : World) : World :=
  with_state (mkState (prov (w_state w)) (f (rt (w_state w)))) w.

Definition set_pc (pc : nat) (f : PcObj -> PcObj) (r : Runtime) : Runtime :=
  set_rt_pcs (alter f pc (rt_pcs r)) r.

Definition set_chan (ch : nat) (f : ChanObj -> ChanObj) (r : Runtime) : Runtime :=
  set_rt_chans (alter f ch (rt_chans r)) r.

(** What the event loop does with an event: nothing, run a handler, or resume
    suspended calls.  The world carried along has the runtime object already
    updated (its new state, a fresh channel) and the resumed calls taken out of
    the pool. *)
Inductive Action :=
| ActNone
| ActRun (w : World) (c : Co unit)
| ActResume (w : World) (ts : list (nat * Task)) (resp : Response).

(** Events on objects that do not exist, ticks of cleared intervals and
    settlements of calls that are not waiting do not happen. *)
Definition dispatch (ev : Event) (w : World) : Action :=
  let st := w_state w in
  match ev with
  | CallConnect => ActRun w connect
  | CallDispatchAction a => ActRun w (dispatchAction a)
  | CallUpdateAwareness u => ActRun w (updateAwareness u)
  | CallSetMeta k v => ActRun w (setMeta k v)
  | CallUpdateGameState s => ActRun w (updateGameState s)
  | CallDestroy => ActRun w destroy
  | Clock now => ActRun (with_rt (set_rt_now now) w) (ret tt)
  | Settle id resp =>
      match take_task id (w_tasks w) with
      | Some (t, rest) => ActResume (mkWorld st rest (w_nextTask w)) [(id, t)] resp
      | None => ActNone
      end
  | IntervalTick id =>
      if bool_decide (id ∈ rt_intervals (rt st)) then ActRun w pollSignals else ActNone
  | IceCandidateEvent pc c =>
      match rt_pcs (rt st) !! pc with
      | Some o => ActRun w (onIceCandidate (pc_remote o) c)
      | None => ActNone
      end
  | IceGatheringStateChange pc s =>
      match rt_pcs (rt st) !! pc with
      | Some _ =>
          let w1 := with_rt (set_pc pc (fun o => mkPc (pc_remote o) (pc_connectionState o) s
                                                   (pc_localDescription o) (pc_closed o))) w in
          match s with
          | GsComplete =>
              let waiting := filter (fun e => waits_for_gathering pc e.2 = true) (w_tasks w1) in
              let others := filter (fun e => waits_for_gathering pc e.2 <> true) (w_tasks w1) in
              ActResume (mkWorld (w_state w1) others (w_nextTask w1)) waiting RespVoid
          | _ => ActRun w1 (ret tt)
          end
      | None => ActNone
      end
  | ConnectionStateChange pc s =>
      match rt_pcs (rt st) !! pc with
      | Some o =>
          let w1 := with_rt (set_pc pc (fun o => mkPc (pc_remote o) s (pc_iceGatheringState o)
                                                   (pc_localDescription o) (pc_closed o))) w in
          ActRun w1 (onConnectionStateChange pc (pc_remote o))
      | None => ActNone
      end
  | DataChannelEvent pc =>
      match rt_pcs (rt st) !! pc with
      | Some o =>
          let ch := rt_nextRef (rt st) in
          let w1 := with_rt (fun r => set_rt_nextRef (S ch)
                      (set_rt_chans (<[ch := mkChan None RsConnecting]> (rt_chans r)) r)) w in
          ActRun w1 (setupDataChannel ch (pc_remote o))
      | None => ActNone
      end
  | ChannelOpen ch =>
      match rt_chans (rt st) !! ch with
      | Some c =>
          let w1 := with_rt (set_chan ch (fun c => mkChan (ch_peer c) RsOpen)) w in
          match ch_peer c with
          | Some remote => ActRun w1 (channelOnOpen ch remote)
          | None => ActRun w1 (ret tt)
          end
      | None => ActNone
      end
  | ChannelMessage ch data =>
      match rt_chans (rt st) !! ch with
      | Some c =>
          match ch_peer c with
          | Some remote => ActRun w (handleDataChannelMessage data remote)
          | None => ActNone
          end
      | None => ActNone
      end
  | ChannelClose ch =>
      match rt_chans (rt st) !! ch with
      | Some c =>
          let w1 := with_rt (set_chan ch (fun c => mkChan (ch_peer c) RsClosed)) w in
          match ch_peer c with
          | Some remote => ActRun w1 (channelOnClose remote)
          | None => ActRun w1 (ret tt)
          end
      | None => ActNone
      end
  | BroadcastMessage msg =>
      match broadcastChannel (prov st) with
      | Some _ => ActRun w (broadcastOnMessage msg)
      | None => ActNone
      end
  | AwarenessChange => ActRun w notifyPlayersChange
  end.

(** One turn of the event loop. *)
Definition step (ev : Event) (w : World) : World * list Effect :=
  match dispatch ev w with
  | ActNone => (w, [])
  | ActRun w1 c => run c w1
  | ActResume w1 ts resp => resume_all ts resp w1
  end.

(** Deliver a list of events in order. *)
Fixpoint steps (evs : list Event) (w : World) : World * list Effect :=
  match evs with
  | [] => (w, [])
  | ev :: evs' =>
      let '(w1, e1) := step ev w in
      let '(w2, e2) := steps evs' w1 in
      (w2, (e1 ++ e2)%list)
  end.

Definition newProvider (o : MultiplayerProviderOptions) (generatedId : string) (r : Runtime)
  : World :=
  mkWorld (construct o generatedId r) [] 0.

(** Methods are unfolded by name in proofs, not by simplification. *)
Arguments await_ok : simpl never.
Arguments await_desc : simpl never.
Arguments nextColor : simpl never.
Arguments placeholderPlayer : simpl never.
Arguments getPlayers : simpl never.
Arguments getHost : simpl never.
Arguments amIHost : simpl never.
Arguments getOperationsSince : simpl never.
Arguments getAllOperations : simpl never.
Arguments getMeta : simpl never.
Arguments notifyPlayersChange : simpl never.
Arguments updateConnectionStatus : simpl never.
Arguments operationsObserver : simpl never.
Arguments docUpdateHandler : simpl never.
Arguments transact : simpl never.
Arguments encodeStateAsUpdate : simpl never.
Arguments readyStateOf : simpl never.
Arguments dispatchAction : simpl never.
Arguments updateAwareness : simpl never.
Arguments setMeta : simpl never.
Arguments updateGameState : simpl never.
Arguments clearInterval : simpl never.
Arguments closePeerConnection : simpl never.
Arguments destroy : simpl never.
Arguments stopPollingIfConnected : simpl never.
Arguments enableLocalFallback : simpl never.
Arguments handleBroadcastMessage : simpl never.
Arguments broadcastOnMessage : simpl never.
Arguments sendSignal : simpl never.
Arguments announcePresence : simpl never.
Arguments freshRef : simpl never.
Arguments newPeerConnection : simpl never.
Arguments createDataChannel : simpl never.
Arguments setupDataChannel : simpl never.
Arguments syncDocument : simpl never.
Arguments handleDataChannelMessage : simpl never.
Arguments setLocalDescription : simpl never.
Arguments localDescription : simpl never.
Arguments waitForIceGathering : simpl never.
Arguments createPeerConnection : simpl never.
Arguments tryAddIceCandidate : simpl never.
Arguments handleOffer : simpl never.
Arguments handleAnswer : simpl never.
Arguments handleLegacyIceCandidate : simpl never.
Arguments handleSignal : simpl never.
Arguments pollSignals : simpl never.
Arguments waitForRoom : simpl never.
Arguments setInterval : simpl never.
Arguments startPolling : simpl never.
Arguments startSignalPolling : simpl never.
Arguments connect : simpl never.
Arguments onIceCandidate : simpl never.
Arguments onConnectionStateChange : simpl never.
Arguments channelOnOpen : simpl never.
Arguments channelOnClose : simpl never.
Arguments applyBufferedCandidates : simpl never.
Arguments sendAnswer : simpl never.

(** ** Properties that every step of a computation keeps

    [R st e st'] relates a state, the effects performed from it and the state
    reached.  A suspended call satisfies [sat R] when, whatever it is resumed
    with and in whatever state, each of its runs is in [R], and so are the runs
    of the calls it starts. *)

Section SatDefs.

Variable R : State -> list Effect -> State -> Prop.

Inductive sat : forall A : Type, Susp A -> Prop :=
| sat_ret : forall A (a : A), sat A (Ret a)
| sat_throw : forall A, sat A Throw
| sat_await : forall A req k,
    (forall resp st, R st (r_eff (k resp st)) (r_st (k resp st))) ->
    (forall resp st, Forall (sat unit) (r_forks (k resp st))) ->
    (forall resp st, sat A (r_next (k resp st))) ->
    sat A (Await req k).

Definition run_sat {A} (st : State) (r : Run Task (Susp A)) : Prop :=
  R st (r_eff r) (r_st r) /\ Forall (sat unit) (r_forks r) /\ sat A (r_next r).

Definition co_sat {A} (c : Co A) : Prop := forall st, run_sat st (c st).

(** Every call waiting in the pool satisfies [sat R]. *)
Definition pool_sat (w : World) : Prop :=
  Forall (fun it => sat unit it.2) (w_tasks w).

End SatDefs.

(** What [sat R] asks of the action chosen for an event. *)
Definition action_sat (R : State -> list Effect -> State -> Prop) (w : World) (a : Action)
  : Prop :=
  match a with
  | ActNone => True
  | ActRun w1 c =>
      R (w_state w) [] (w_state w1) /\ pool_sat R w1 /\ co_sat R c
  | ActResume w1 ts _ =>
      R (w_state w) [] (w_state w1) /\ pool_sat R w1 /\ Forall (fun it => sat R unit it.2) ts
  end.

(** A relation on runs that can be chained. *)
Class StepRel (R : State -> list Effect -> State -> Prop) : Prop := {
  rel_refl : forall st, R st [] st;
  rel_trans : forall a e1 b e2 c, R a e1 b -> R b e2 c -> R a (e1 ++ e2)%list c;
  rel_uncaught : forall st, R st [Uncaught] st
}.

(** ** Notions used in the statements *)

(** The operations handed to [onAction], in order. *)
Definition deliveries (e : list Effect) : list GameAction :=
  flat_map (fun x => match x with
                     | CallOnAction op => [op]
                     | _ => []
                     end) e.

(** [op.playerId !== this.peerId] *)
Definition is_remote (pid : string) (op : GameAction) : bool :=
  negb (String.eqb (playerId op) pid).

(** The watermark stands at the end of the log. *)
Definition log_delivered (p : Provider) : Prop :=
  lastAppliedIndex p = length (operationsArray p).

Definition expected_deliveries (p : Provider) (new : list GameAction) : list GameAction :=
  if onAction (options p) then List.filter (is_remote (peerId p)) new else [].

(** What a run does to the log: from a state whose log is delivered it appends
    operations, hands exactly the remote ones among them to [onAction], and
    leaves the log delivered. *)
Definition LogRel (a : State) (e : list Effect) (b : State) : Prop :=
  peerId (prov b) = peerId (prov a) /\
  options (prov b) = options (prov a) /\
  (log_delivered (prov a) ->
   log_delivered (prov b) /\
   exists new, operationsArray (prov b) = operationsArray (prov a) ++ new /\
               deliveries e = expected_deliveries (prov a) new).

(** The rosters handed to [onPlayersChange]. *)
Definition rosters (e : list Effect) : list (list Player) :=
  flat_map (fun x => match x with
                     | CallOnPlayersChange ps => [ps]
                     | _ => []
                     end) e.

Definition not_host (p : Player) : Prop := p_isHost p = false.

(** A roster is the self player followed by placeholders that are not hosts. *)
Definition roster_of (me : Player) (ps : list Player) : Prop :=
  exists others, ps = me :: others /\ Forall not_host others.

(** What a run does to the identity of the provider: nothing, and every roster
    it reports is made of the self player and placeholders. *)
Definition RosterRel (a : State) (e : list Effect) (b : State) : Prop :=
  player (prov b) = player (prov a) /\
  isHost (prov b) = isHost (prov a) /\
  Forall (roster_of (player (prov a))) (rosters e).

(** The data channel registered for [remote], when it is open: the channel
    [handleDataChannelMessage] and [syncDocument] would send on. *)
Definition channel_open (st : State) (remote : string) : option nat :=
  match dataChannels (prov st) !! remote with
  | Some ch =>
      match rt_chans (rt st) !! ch with
      | Some c => if is_open (ch_readyState c) then Some ch else None
      | None => None
      end
  | None => None
  end.

(** The effect [e] sends a [state-sync] on a data channel. *)
Definition sends_state_sync (e : Effect) : Prop :=
  match e with
  | ChannelSend _ (MsgStateSync _) => True
  | _ => False
  end.

(** A computation that ran to its end without suspending, throwing or starting
    another call, and returned [a]. *)
Definition returns {A} (r : Run Task (Susp A)) (a : A) : Prop :=
  r_forks r = [] /\ r_next r = Ret a.

(** A read accessor: it returns, performs no effect and leaves the provider as
    it found it. *)
Definition pure_read {A} (c : Co A) (st : State) : Prop :=
  exists a, returns (c st) a /\ r_eff (c st) = [] /\ prov (r_st (c st)) = prov st.

(** ** Example providers *)

Definition exampleRuntime (localhost : bool) : Runtime :=
  mkRuntime 1000%Z localhost (fun _ => "#4ade80") 0 ∅ ∅ 0 ∅.

Definition hostOptions : MultiplayerProviderOptions :=
  mkOptions "ABCDE" "Springfield" "Ada" true (JObj 7) true true true true.

Definition guestOptions : MultiplayerProviderOptions :=
  mkOptions "ABCDE" "Springfield" "Bob" false JUndefined true true true true.

Definition hostWorld : World := newProvider hostOptions "host-1" (exampleRuntime false).
Definition guestWorld : World := newProvider guestOptions "guest-1" (exampleRuntime false).
Definition localHostWorld : World := newProvider hostOptions "host-1" (exampleRuntime true).
Definition localGuestWorld : World := newProvider guestOptions "guest-1" (exampleRuntime true).

Definition announceFromGuest : SignalMessage :=
  mkSignal SigOffer "guest-1" None (PayAnnounce "guest-1" "Bob") 1001%Z.

Definition exampleOffer : SessionDescription := mkDesc "offer" "v=0 host".

(** The host connects, finds its room, learns of the guest from the first poll
    and negotiates: connection 1, data channel 2 for ["guest-1"], which opens. *)
Definition hostAfterConnect : list Event :=
  [ Settle 0 (RespHttp true 200);
    Settle 1 (RespPoll [announceFromGuest] "1001");
    Settle 2 (RespDesc exampleOffer);
    Settle 3 RespVoid;
    IceGatheringStateChange 1 GsComplete;
    Settle 5 (RespHttp true 200);
    ChannelOpen 2 ].

Definition hostNegotiates : list Event := CallConnect :: hostAfterConnect.

(** Then the connection is reported [disconnected]. *)
Definition hostLosesGuest : list Event :=
  hostNegotiates ++ [ConnectionStateChange 1 CsDisconnected].

(** The provider after the three deletions of the failure branch. *)
Definition without_peer (remote : string) (p : Provider) : Provider :=
  set_dataChannels (delete remote (dataChannels p))
    (set_peerConnections (delete remote (peerConnections p))
      (set_connectedPeers (connectedPeers p ∖ {[remote]}) p)).


Definition hostOp : GameAction :=
  mkAction (mkInput "setTaxRate" [JNum 9]) 1002%Z "host-1".

(** The guest on localhost connects, receives the host's operation over the
    BroadcastChannel and dispatches one of its own. *)
Definition guestSession : list Event :=
  [ CallConnect;
    BroadcastMessage (mkBroadcast (MsgUpdate (Some (mkUpdate [hostOp] []))) (Some "host-1") None);
    CallDispatchAction (mkInput "place" [JNum 3; JNum 4]) ].

(** A state that has a BroadcastChannel, an inactive fallback and a live
    connection 1 to ["guest-1"]. *)
Definition fallbackReadyWorld : World :=
  with_state
    (mkState
       (set_connectedPeers {["guest-1"]}
          (set_peerConnections {["guest-1" := 1]} (prov (w_state localHostWorld))))
       (set_rt_pcs {[1 := mkPc "guest-1" CsConnected GsComplete None false]}
          (rt (w_state localHostWorld))))
    localHostWorld.

(** ** Following one asynchronous call *)

(** [r] followed by the run [r']. *)
Definition run_app {A} (r r' : Run Task (Susp A)) : Run Task (Susp A) :=
  mkRun (r_st r') (r_eff r ++ r_eff r') (r_forks r ++ r_forks r') (r_next r').

(** The run [r] with the effects [e] in front. *)
Definition run_prefix {A} (e : list Effect) (r : Run Task (Susp A)) : Run Task (Susp A) :=
  mkRun (r_st r) (e ++ r_eff r) (r_forks r) (r_next r).

(** Resume a call with the given answers, one after the other, nothing else
    happening in between; answers left over when the call has ended are not
    used. *)
Fixpoint feed {A} (answers : list Response) (r : Run Task (Susp A)) : Run Task (Susp A) :=
  match answers with
  | [] => r
  | resp :: rest =>
      match r_next r with
      | Await _ k => feed rest (run_app r (k resp (r_st r)))
      | _ => r
      end
  end.

(** The call has ended without throwing. *)
Definition finished {A} (r : Run Task (Susp A)) : Prop :=
  match r_next r with
  | Ret _ => True
  | _ => False
  end.

(** The call waits for [req]. *)
Definition waits_for {A} (r : Run Task (Susp A)) (req : Request) : Prop :=
  match r_next r with
  | Await req' _ => req' = req
  | _ => False
  end.

(** One round of the host's wait for its room: the lookup answered with a
    status that is not OK, then the 500 ms timer. *)
Definition roomNotReady (status : nat) : list Response :=
  [RespHttp false status; RespVoid].

Definition roomRetryEffects (room : string) : list Effect :=
  [Issue (FetchRoom room); Issue (Sleep 500)].

Fixpoint repeat_list {A} (n : nat) (l : list A) : list A :=
  match n with
  | 0 => []
  | S n' => l ++ repeat_list n' l
  end.

(** The first poll, which [pollSignals] issues unless the provider is
    destroyed. *)
Definition firstPoll (p : Provider) : list Effect :=
  if destroyed p then []
  else [Issue (FetchSignals (roomCode p) (peerId p) (lastSeenSignals p))].

(** The room lookups among the effects. *)
Definition room_lookups (e : list Effect) : nat :=
  length (List.filter (fun x => match x with
                                | Issue (FetchRoom _) => true
                                | _ => false
                                end) e).

Definition not_rejected (resp : Response) : Prop := resp <> RespReject.

(** ** Negotiation *)

(** [signal] is the announcement of [remote]. *)
Definition announce_signal (remote : string) (s : SignalMessage) : Prop :=
  sig_type s = SigOffer /\ sig_from s = remote /\ exists a b, sig_payload s = PayAnnounce a b.

(** [pc.localDescription] *)
Definition local_description (st : State) (pc : nat) : option SessionDescription :=
  match rt_pcs (rt st) !! pc with
  | Some o => pc_localDescription o
  | None => None
  end.

(** The bundled offer posted to the relay. *)
Definition offer_signal (p : Provider) (remote : string) (offer : SessionDescription)
    (cs : list Candidate) : Request :=
  PostSignal (roomCode p) SigOffer (peerId p) (Some remote) (PayBundle (Some offer) (Some cs)).

(** The calls in the pool have numbers below [t]. *)
Definition pool_below (t : nat) (pool : list (nat * Task)) : Prop :=
  Forall (fun it => it.1 < t) pool.

(** No call in the pool waits for the gathering of [pc]. *)
Definition no_gather_waiter (pc : nat) (pool : list (nat * Task)) : Prop :=
  Forall (fun it => waits_for_gathering pc it.2 = false) pool.

(** The provider after [onicecandidate] pushed [c] for [remote]. *)
Definition add_candidate (remote : string) (p : Provider) (c : Candidate) : Provider :=
  set_outgoingIceCandidates
    (<[remote := default [] (outgoingIceCandidates p !! remote) ++ [c]]>
       (outgoingIceCandidates p)) p.

(** The connection [pc] reports the candidates [cs], one event each. *)
Definition candidateEvents (pc : nat) (cs : list Candidate) : list Event :=
  map (fun c => IceCandidateEvent pc (Some c)) cs.

Definition exampleCandidates : list Candidate := [CandInit "c1"; CandInit "c2"].

(** ** Legacy candidate messages *)

(** [signal] is a legacy [ice-candidate] message of [remote]. *)
Definition legacy_signal (remote : string) (s : SignalMessage) : Prop :=
  sig_type s = SigIceCandidate /\ sig_from s = remote.

(** The candidates buffered for [remote]: [pendingIceCandidates.get(remote) || []]. *)
Definition buffered (st : State) (remote : string) : list Candidate :=
  default [] (pendingIceCandidates (prov st) !! remote).

(** The candidates the messages carry, in the order of arrival. *)
Definition carried (sigs : list SignalMessage) : list Candidate :=
  flat_map (fun s => legacy_candidates (sig_payload s)) sigs.

(** One [addIceCandidate] on [pc] for each candidate, in order. *)
Definition applications (pc : nat) (cs : list Candidate) : list Effect :=
  map (fun c => Issue (AddIceCandidate pc c)) cs.

Definition is_application (e : Effect) : bool :=
  match e with
  | Issue (AddIceCandidate _ _) => true
  | _ => false
  end.

(** [signal] is the bundled offer of [remote]. *)
Definition offer_from (remote : string) (sdp : SessionDescription) (cs : list Candidate)
    (s : SignalMessage) : Prop :=
  sig_type s = SigOffer /\ sig_from s = remote /\ sig_payload s = PayBundle (Some sdp) (Some cs).

(** The state once [createPeerConnection] has made the connection of
    [remote]: a new object, entered in the table. *)
Definition with_connection (remote : string) (st : State) : State :=
  let pc := rt_nextRef (rt st) in
  mkState (set_peerConnections (<[remote := pc]> (peerConnections (prov st))) (prov st))
          (set_rt_pcs (<[pc := mkPc remote CsNew GsNew None false]> (rt_pcs (rt st)))
             (set_rt_nextRef (S pc) (rt st))).

(** The state once the buffer of [remote] has been deleted. *)
Definition without_buffer (remote : string) (st : State) : State :=
  mkState (set_pendingIceCandidates (delete remote (pendingIceCandidates (prov st))) (prov st))
          (rt st).

Definition legacyFrom (remote : string) (c : Candidate) : SignalMessage :=
  mkSignal SigIceCandidate remote None (PayCandidate c) 1002%Z.

Definition offerFromHost : SignalMessage :=
  mkSignal SigOffer "host-1" (Some "guest-1")
    (PayBundle (Some exampleOffer) (Some [CandInit "c0"])) 1003%Z.

Definition exampleAnswer : SessionDescription := mkDesc "answer" "v=0 guest".

Definition answerFromGuest : SignalMessage :=
  mkSignal SigAnswer "guest-1" (Some "host-1") (PayBundle (Some exampleAnswer) (Some [])) 1004%Z.

(** The provider that received the two example candidates from [remote] as
    legacy messages before any connection. *)
Definition afterLegacy (remote : string) (w : World) : State :=
  r_st (foreach (map (legacyFrom remote) exampleCandidates) handleSignal (w_state w)).

(** The host, holding two legacy candidates of the guest, learns of the guest
    and sends its offer. *)
Definition hostOffersAfterLegacy : Run Task Task :=
  feed [RespDesc exampleOffer; RespVoid; RespVoid; RespHttp true 200]
    (handleSignal announceFromGuest (afterLegacy "guest-1" hostWorld)).

(** Then the guest's answer arrives. *)
Definition hostGetsAnswer : Run Task Task :=
  feed [RespVoid] (handleSignal answerFromGuest (r_st hostOffersAfterLegacy)).


(** ** Polling *)

(** The effects of polling: a poll request, a new interval. *)
Definition is_poll (e : Effect) : bool :=
  match e with
  | Issue (FetchSignals _ _ _) | SetInterval _ _ => true
  | _ => false
  end.

Definition no_poll (e : list Effect) : Prop := Forall (fun x => is_poll x = false) e.

(** No interval is recorded and none is active. *)
Definition stopped (st : State) : Prop :=
  pollingInterval (prov st) = None /\ rt_intervals (rt st) = ∅.

(** An active interval is the one recorded in [pollingInterval]. *)
Definition linked (st : State) : Prop :=
  forall id, id ∈ rt_intervals (rt st) -> pollingInterval (prov st) = Some id.

(** What a run that does not poll does: no poll request, no new interval;
    intervals are only cleared, and [pollingInterval] is only reset. *)
Definition Quiet (a : State) (e : list Effect) (b : State) : Prop :=
  no_poll e /\
  rt_intervals (rt b) ⊆ rt_intervals (rt a) /\
  (pollingInterval (prov a) = None -> pollingInterval (prov b) = None) /\
  (linked a -> linked b).

Definition not_connect (ev : Event) : Prop := ev <> CallConnect.

Definition is_tick (ev : Event) : bool :=
  match ev with
  | IntervalTick _ => true
  | _ => false
  end.

(** A request that only the wait for the room makes. *)
Definition room_request (req : Request) : Prop :=
  match req with
  | FetchRoom _ | Sleep _ => True
  | _ => False
  end.

(** The call of [startPolling] that still waits for the room: resumed while
    polling is stopped, it either goes on waiting or starts polling, and then
    the interval it sets is the one it records. *)
Inductive starter : Task -> Prop :=
| starter_wait : forall req k,
    room_request req ->
    (forall resp st, stopped st ->
       Forall (sat Quiet unit) (r_forks (k resp st)) /\
       ((sat Quiet unit (r_next (k resp st)) /\ linked (r_st (k resp st))) \/
        (starter (r_next (k resp st)) /\ stopped (r_st (k resp st))))) ->
    starter (Await req k).

Definition quiet_pool (pool : list (nat * Task)) : Prop :=
  Forall (fun it => sat Quiet unit it.2) pool.

(** One call in the pool waits for the room, the others do not poll. *)
Definition one_starter (pool : list (nat * Task)) : Prop :=
  exists l1 x l2, pool = l1 ++ x :: l2 /\ starter x.2 /\ quiet_pool l1 /\ quiet_pool l2.

(** Polling has not started, or every active interval is the recorded one;
    no call in flight will start it (again). *)
Definition settled (w : World) : Prop :=
  linked (w_state w) /\ quiet_pool (w_tasks w).

(** Polling is about to start: one call waits for the room. *)
Definition starting (w : World) : Prop :=
  stopped (w_state w) /\ one_starter (w_tasks w).

(** Polling is stopped and no call in flight will start it. *)
Definition at_rest (w : World) : Prop :=
  stopped (w_state w) /\ quiet_pool (w_tasks w).


(** What the host of the example sees after the connection reached
    [connected]. *)
Definition hostConnected : World :=
  (steps (hostNegotiates ++ [ConnectionStateChange 1 CsConnected]) hostWorld).1.

(** ** Further notions *)

(** *** After [destroy()]; the reports to [onConnectionChange] *)

Definition is_fetch (e : Effect) : bool :=
  match e with
  | Issue (FetchSignals _ _ _) => true
  | _ => false
  end.

(** No poll request among the effects. *)
Definition no_fetch (e : list Effect) : Prop := Forall (fun x => is_fetch x = false) e.

(** What a run does on a destroyed provider: it stays destroyed and no poll
    request is issued. *)
Definition Dead (a : State) (e : list Effect) (b : State) : Prop :=
  destroyed (prov a) = true -> destroyed (prov b) = true /\ no_fetch e.

(** The reports made to [onConnectionChange]. *)
Definition connection_reports (e : list Effect) : list (bool * nat) :=
  flat_map (fun x => match x with
                     | CallOnConnectionChange c n => [(c, n)]
                     | _ => []
                     end) e.

(** A report says [connected] and counts at least the provider itself. *)
Definition report_ok (rep : bool * nat) : Prop := rep.1 = true /\ 1 <= rep.2.

Definition Reports (a : State) (e : list Effect) (b : State) : Prop :=
  Forall report_ok (connection_reports e).

(** *** On localhost *)

(** The effects of signalling: a request to the relay or to the room
    endpoint, a polling interval, a peer connection. *)
Definition is_signalling (e : Effect) : bool :=
  match e with
  | Issue (FetchRoom _) | Issue (FetchSignals _ _ _) | Issue (PostSignal _ _ _ _ _) => true
  | SetInterval _ _ | NewPeerConnection _ _ => true
  | _ => false
  end.

Definition no_signalling (e : list Effect) : Prop :=
  Forall (fun x => is_signalling x = false) e.

(** What a run that does not signal does; it starts no interval and leaves
    the host name of the page alone. *)
Definition Offline (a : State) (e : list Effect) (b : State) : Prop :=
  no_signalling e /\
  rt_intervals (rt b) ⊆ rt_intervals (rt a) /\
  rt_localhost (rt b) = rt_localhost (rt a).

(** The page runs on localhost and no interval is active. *)
Definition on_localhost (st : State) : Prop :=
  rt_localhost (rt st) = true /\ rt_intervals (rt st) = ∅.

(** *** What is sent *)

(** The frames sent on data channels, in order. *)
Definition channel_sends (e : list Effect) : list (nat * DataChannelMessage) :=
  flat_map (fun x => match x with
                     | ChannelSend ch m => [(ch, m)]
                     | _ => []
                     end) e.

(** The messages posted on the BroadcastChannel, in order. *)
Definition broadcast_posts (e : list Effect) : list BroadcastMsg :=
  flat_map (fun x => match x with
                     | BroadcastPost m => [m]
                     | _ => []
                     end) e.

(** [channel.readyState === 'open'] for the channel object [ch]. *)
Definition chan_is_open (r : Runtime) (ch : nat) : bool :=
  match rt_chans r !! ch with
  | Some c => is_open (ch_readyState c)
  | None => false
  end.

(** The peer connections closed, in order. *)
Definition closed_connections (e : list Effect) : list nat :=
  flat_map (fun x => match x with
                     | ClosePeerConnection pc => [pc]
                     | _ => []
                     end) e.

(** The full action [dispatchAction] makes of [action]. *)
Definition fullAction (action : GameActionInput) (st : State) : GameAction :=
  mkAction action (rt_now (rt st)) (peerId (prov st)).

(** [p'] is [p] but for the document: the operations, the metadata and the
    watermark. *)
Definition doc_only (p p' : Provider) : Prop :=
  p' = set_lastAppliedIndex (lastAppliedIndex p')
         (set_meta (metaMap p') (set_ops (operationsArray p') p)).

(** The ['update'] listener is registered, the fallback active and the
    channel there: a local change of the document is posted. *)
Definition relays_updates (p : Provider) : bool :=
  docUpdateListener p && useLocalFallback p &&
  match broadcastChannel p with
  | Some _ => true
  | None => false
  end.

(** The message does not carry the provider's own id. *)
Definition from_other (p : Provider) (msg : BroadcastMsg) : Prop :=
  opt_str_eqb (bm_from msg) (peerId p) || opt_str_eqb (bm_peerId msg) (peerId p) = false.

(** What [syncDocument] sends on [channel]: the whole document, then the
    awareness state if there is one. *)
Definition sync_frames (p : Provider) (channel : nat) : list Effect :=
  ChannelSend channel
    (MsgSync (Some (mkUpdate (operationsArray p) (map_to_list (metaMap p))))) ::
  match awarenessLocal p with
  | Some a => [ChannelSend channel (MsgAwareness (Some a))]
  | None => []
  end.

(** The [state-request] a guest posts on the BroadcastChannel. *)
Definition stateRequestMsg (p : Provider) : BroadcastMsg :=
  mkBroadcast MsgStateRequest (Some (peerId p)) None.

(** *** Polling and signals *)

(** The state with the cursor of the relay moved to [c]. *)
Definition with_cursor (c : string) (st : State) : State :=
  mkState (set_lastSeenSignals c (prov st)) (rt st).

(** The poll request a provider issues from [st]. *)
Definition poll_request (st : State) : Effect :=
  Issue (FetchSignals (roomCode (prov st)) (peerId (prov st)) (lastSeenSignals (prov st))).

(** [signal] is the bundled answer of [remote]. *)
Definition answer_from (remote : string) (sdp : SessionDescription) (cs : list Candidate)
    (s : SignalMessage) : Prop :=
  sig_type s = SigAnswer /\ sig_from s = remote /\ sig_payload s = PayBundle (Some sdp) (Some cs).

(** The relay did not answer the poll with signals: the request failed, or the
    status is not OK. *)
Definition poll_failed (resp : Response) : Prop :=
  resp = RespReject \/ exists status, resp = RespHttp false status.

(** What a suspended call waits for. *)
Definition awaits (t : Task) : option Request :=
  match t with
  | Await req _ => Some req
  | _ => None
  end.

(** The run of a suspended call resumed with [resp] in the state [st]. *)
Definition resumed (t : Task) (resp : Response) (st : State) : Run Task Task :=
  match t with
  | Await _ k => k resp st
  | _ => mkRun st [] [] t
  end.

(** The callbacks of the options. *)
Definition is_callback (e : Effect) : bool :=
  match e with
  | CallOnConnectionChange _ _ | CallOnPlayersChange _ => true
  | _ => false
  end.

(** The announcement a guest posts. *)
Definition announce_request (p : Provider) : Request :=
  PostSignal (roomCode p) SigOffer (peerId p) None (PayAnnounce (peerId p) (p_name (player p))).

(** *** Connections that come back *)


(** What a run that leaves the connection and channel objects alone does. *)
Definition SameObjects (a : State) (e : list Effect) (b : State) : Prop :=
  rt_pcs (rt b) = rt_pcs (rt a) /\ rt_chans (rt b) = rt_chans (rt a).

(** *** Further examples *)

(** The host of the example after the negotiation: connection 1 and the open
    data channel 2 for ["guest-1"]. *)
Definition hostWithChannel : World := (steps hostNegotiates hostWorld).1.

(** The guest on localhost after [connect()]: the fallback is active. *)
Definition localGuestConnected : World := (steps [CallConnect] localGuestWorld).1.

Definition awarenessFromHost : BroadcastMsg :=
  mkBroadcast (MsgAwareness None) (Some "host-1") None.

Definition updateFromHost : BroadcastMsg :=
  mkBroadcast (MsgUpdate (Some (mkUpdate [hostOp] []))) (Some "host-1") None.

Definition placeInput : GameActionInput := mkInput "place" [JNum 3; JNum 4].

(** The host of the example just before the data channel opens. *)
Definition hostBeforeOpen : World := (steps (removelast hostNegotiates) hostWorld).1.

(** * The callers of the provider *)

(** ** The synchronisation hook: [broadcastAction] *)

(** What [broadcastAction] does besides keeping [lastActionRef]: it arms a
    timer and hands the action to the context's [dispatchAction]. *)
Inductive SyncEffect :=
| SetTimeout (actionKey : string) (ms : nat)
| DispatchAction (action : GameActionInput).

(** What happens to the hook: [broadcastAction(action)] is called, while the
    context reports the connection state [connected] or another one; the
    timer armed for [actionKey] fires. *)
Inductive SyncEvent :=
| BroadcastAction (connected : bool) (action : GameActionInput)
| TimeoutFires (actionKey : string).

Section Sync.

(** [JSON.stringify] on the actions. *)
Variable stringify : GameActionInput -> string.

(** [broadcastAction]; the state is [lastActionRef.current]. *)
Definition broadcastAction (connected : bool) (action : GameActionInput)
    (lastActionRef : option string) : option string * list SyncEffect :=
  if negb connected then (lastActionRef, [])
  else
    let actionKey := stringify action in
    if bool_decide (lastActionRef = Some actionKey) then (lastActionRef, [])
    else (Some actionKey, [SetTimeout actionKey 100; DispatchAction action]).

(** The callback given to [setTimeout]. *)
Definition timeoutCallback (actionKey : string) (lastActionRef : option string)
  : option string :=
  if bool_decide (lastActionRef = Some actionKey) then None else lastActionRef.

Definition sync_step (ev : SyncEvent) (lastActionRef : option string)
  : option string * list SyncEffect :=
  match ev with
  | BroadcastAction connected action => broadcastAction connected action lastActionRef
  | TimeoutFires actionKey => (timeoutCallback actionKey lastActionRef, [])
  end.

Fixpoint sync_steps (evs : list SyncEvent) (lastActionRef : option string)
  : option string * list SyncEffect :=
  match evs with
  | [] => (lastActionRef, [])
  | ev :: rest =>
      let '(ref1, e1) := sync_step ev lastActionRef in
      let '(ref2, e2) := sync_steps rest ref1 in
      (ref2, e1 ++ e2)
  end.

(** [lastActionRef] holds nothing, or the key of the action dispatched last. *)
Definition ref_is_last (lastActionRef : option string) (sent : list GameActionInput) : Prop :=
  match lastActionRef with
  | None => True
  | Some key => exists a, last sent = Some a /\ stringify a = key
  end.

End Sync.

(** The actions handed to [dispatchAction], in order. *)
Definition dispatched (e : list SyncEffect) : list GameActionInput :=
  flat_map (fun x => match x with
                     | DispatchAction a => [a]
                     | SetTimeout _ _ => []
                     end) e.

Definition is_timeout (ev : SyncEvent) : bool :=
  match ev with
  | TimeoutFires _ => true
  | BroadcastAction _ _ => false
  end.

(** ** The React context: [joinRoom] looks the room up *)

(** [data.room] *)
Record RoomRecord := mkRoomRecord {
  room_hostId : option string;
  room_cityName : option string;
  room_createdAt : option Z
}.

(** What [checkResponse.json()] gives: it throws, or it is an object, of
    which [joinRoom] reads [room] and [error]. *)
Inductive ResponseBody :=
| BodyThrows (message : string)
| BodyJson (room : option RoomRecord) (error : option string).

(** What [fetch('/api/room?code=...')] settles to: it rejects, or it resolves
    to a response. *)
Inductive RoomCheck :=
| CheckRejected (message : string)
| CheckResponse (ok : bool) (status : nat) (body : ResponseBody).

(** How the lookup ends: with the room, with an [Error] that is thrown, or
    not yet (a request is still under way). *)
Inductive JoinLookup :=
| RoomFound (room : RoomRecord)
| LookupThrows (message : string)
| LookupPending.

(** [error || fallback] on a string that may be missing. *)
Definition or_else (s : option string) (fallback : string) : string :=
  match s with
  | Some x => if String.eqb x "" then fallback else x
  | None => fallback
  end.

(** The loop [for (let attempt = 0; attempt < 3; attempt++)] of [joinRoom]
    with [rounds] iterations left, and the test of [roomData] that follows
    it: the requests made, in order, and how the lookup ends. *)
Fixpoint lookupRoom (rounds attempt : nat) (code : string) (answers : list RoomCheck)
  : list Request * JoinLookup :=
  match rounds with
  | 0 => ([], LookupThrows "Room not found after retries")
  | S rounds' =>
      match answers with
      | [] => ([FetchRoom code], LookupPending)
      | CheckRejected message :: _ => ([FetchRoom code], LookupThrows message)
      | CheckResponse true _ body :: _ =>
          ([FetchRoom code],
           match body with
           | BodyThrows message => LookupThrows message
           | BodyJson (Some room) _ => RoomFound room
           | BodyJson None _ => LookupThrows "Room not found after retries"
           end)
      | CheckResponse false status body :: rest =>
          if (status =? 404) && (attempt <? 2) then
            let '(requests, result) := lookupRoom rounds' (S attempt) code rest in
            (FetchRoom code :: Sleep 500 :: requests, result)
          else
            ([FetchRoom code],
             match body with
             | BodyThrows message => LookupThrows message
             | BodyJson _ error => LookupThrows (or_else error "Room not found")
             end)
      end
  end.

(** The lookup of [joinRoom]. *)
Definition joinLookup (code : string) (answers : list RoomCheck) : list Request * JoinLookup :=
  lookupRoom 3 0 code answers.

(** The room was not found: status 404. *)
Definition not_found (c : RoomCheck) : Prop :=
  exists body, c = CheckResponse false 404 body.

Definition room_fetches (requests : list Request) : nat :=
  length (List.filter (fun r => match r with FetchRoom _ => true | _ => false end) requests).

Definition room_waits (requests : list Request) : nat :=
  length (List.filter (fun r => match r with Sleep _ => true | _ => false end) requests).

Definition bulldozeInput : GameActionInput := mkInput "bulldoze" [JNum 3; JNum 4].

(** The room is not found. *)
Definition notFound404 : RoomCheck :=
  CheckResponse false 404 (BodyJson None (Some "Room not found")).

(** * Proofs *)

(** ** Rules for [sat] *)

Section SatRules.

Context (R : State -> list Effect -> State -> Prop) `{!StepRel R}.

Let R_refl : forall st, R st [] st := rel_refl.
Let R_trans : forall a e1 b e2 c, R a e1 b -> R b e2 c -> R a (e1 ++ e2) c := rel_trans.

Lemma sat_await_inv A req k :
  sat R A (Await req k) ->
  (forall resp st, R st (r_eff (k resp st)) (r_st (k resp st))) /\
  (forall resp st, Forall (sat R unit) (r_forks (k resp st))) /\
  (forall resp st, sat R A (r_next (k resp st))).
Proof.
  intros H.
  change (match Await req k with
          | Await _ k' =>
              (forall resp st, R st (r_eff (k' resp st)) (r_st (k' resp st))) /\
              (forall resp st, Forall (sat R unit) (r_forks (k' resp st))) /\
              (forall resp st, sat R A (r_next (k' resp st)))
          | _ => True
          end).
  destruct H; auto.
Qed.

Lemma run_sat_then {A B} st (r : Run Task (Susp A)) (g : Susp A -> Co B) :
  R st (r_eff r) (r_st r) ->
  Forall (sat R unit) (r_forks r) ->
  run_sat R (r_st r) (g (r_next r) (r_st r)) ->
  run_sat R st (then_run r g).
Proof.
  intros HR HF (HR2 & HF2 & HN2). unfold run_sat; cbn. split; [|split].
  - eapply R_trans; eauto.
  - apply Forall_app; auto.
  - exact HN2.
Qed.

Lemma susp_bind_sat A (s : Susp A) :
  sat R A s ->
  forall B (f : A -> Co B), (forall a, co_sat R (f a)) ->
  forall st, run_sat R st (susp_bind s f st).
Proof.
  induction 1 as [A a|A|A req k HR HF HN IH]; intros B f Hf st; cbn.
  - apply Hf.
  - repeat split; auto. constructor.
  - repeat split; auto.
    apply sat_await; intros resp st'.
    + specialize (IH resp st' B f Hf (r_st (k resp st'))). destruct IH as (IH1 & _ & _).
      specialize (HR resp st'). destruct (k resp st') as [s1 e1 f1 n1]; cbn in *.
      eapply R_trans; eauto.
    + specialize (IH resp st' B f Hf (r_st (k resp st'))). destruct IH as (_ & IH2 & _).
      specialize (HF resp st'). destruct (k resp st') as [s1 e1 f1 n1]; cbn in *.
      apply Forall_app; auto.
    + specialize (IH resp st' B f Hf (r_st (k resp st'))). destruct IH as (_ & _ & IH3).
      destruct (k resp st') as [s1 e1 f1 n1]; cbn in *. exact IH3.
Qed.

Lemma susp_try_sat A (s : Susp A) :
  sat R A s ->
  forall (h : Co A), co_sat R h ->
  forall st, run_sat R st (susp_try s h st).
Proof.
  induction 1 as [A a|A|A req k HR HF HN IH]; intros h Hh st; cbn.
  - repeat split; auto. constructor.
  - apply Hh.
  - repeat split; auto.
    apply sat_await; intros resp st'.
    + specialize (IH resp st' h Hh (r_st (k resp st'))). destruct IH as (IH1 & _ & _).
      specialize (HR resp st'). destruct (k resp st') as [s1 e1 f1 n1]; cbn in *.
      eapply R_trans; eauto.
    + specialize (IH resp st' h Hh (r_st (k resp st'))). destruct IH as (_ & IH2 & _).
      specialize (HF resp st'). destruct (k resp st') as [s1 e1 f1 n1]; cbn in *.
      apply Forall_app; auto.
    + specialize (IH resp st' h Hh (r_st (k resp st'))). destruct IH as (_ & _ & IH3).
      destruct (k resp st') as [s1 e1 f1 n1]; cbn in *. exact IH3.
Qed.

Lemma co_sat_ret {A} (a : A) : co_sat R (ret a).
Proof. intros st. repeat split; cbn; auto. constructor. Qed.

Lemma co_sat_throw {A} : co_sat R (@throw A).
Proof. intros st. repeat split; cbn; auto. constructor. Qed.

Lemma co_sat_bind {A B} (c : Co A) (f : A -> Co B) :
  co_sat R c -> (forall a, co_sat R (f a)) -> co_sat R (bind c f).
Proof.
  intros Hc Hf st. destruct (Hc st) as (H1 & H2 & H3).
  unfold bind. apply run_sat_then; auto. apply susp_bind_sat; auto.
Qed.

Lemma co_sat_try {A} (c h : Co A) :
  co_sat R c -> co_sat R h -> co_sat R (try_catch c h).
Proof.
  intros Hc Hh st. destruct (Hc st) as (H1 & H2 & H3).
  unfold try_catch. apply run_sat_then; auto. apply susp_try_sat; auto.
Qed.

Lemma co_sat_fork (c : Co unit) : co_sat R c -> co_sat R (fork c).
Proof.
  intros Hc st. destruct (Hc st) as (H1 & H2 & H3).
  repeat split; cbn; auto.
  - apply Forall_app; split; auto.
  - constructor.
Qed.

Lemma co_sat_emit e : (forall st, R st [e] st) -> co_sat R (emit e).
Proof. intros H st. repeat split; cbn; auto. constructor. Qed.

Lemma co_sat_await req : (forall st, R st [Issue req] st) -> co_sat R (await req).
Proof.
  intros H st. repeat split; cbn; auto.
  apply sat_await; intros; cbn; auto. constructor.
Qed.

Lemma co_sat_getP {A} (f : Provider -> A) : co_sat R (getP f).
Proof. intros st. repeat split; cbn; auto. constructor. Qed.

Lemma co_sat_getR {A} (f : Runtime -> A) : co_sat R (getR f).
Proof. intros st. repeat split; cbn; auto. constructor. Qed.

Lemma co_sat_modP f :
  (forall st, R st [] (mkState (f (prov st)) (rt st))) -> co_sat R (modP f).
Proof. intros H st. repeat split; cbn; auto. constructor. Qed.

Lemma co_sat_modR f :
  (forall st, R st [] (mkState (prov st) (f (rt st)))) -> co_sat R (modR f).
Proof. intros H st. repeat split; cbn; auto. constructor. Qed.

Lemma co_sat_when b c : co_sat R c -> co_sat R (when b c).
Proof. destruct b; cbn; auto using co_sat_ret. Qed.

Lemma co_sat_foreach {A} (l : list A) (f : A -> Co unit) :
  (forall x, co_sat R (f x)) -> co_sat R (foreach l f).
Proof.
  intros Hf. induction l as [|x l IH]; cbn [foreach].
  - apply co_sat_ret.
  - apply co_sat_bind; auto.
Qed.

Lemma co_sat_mapM {A B} (f : A -> Co B) (l : list A) :
  (forall x, co_sat R (f x)) -> co_sat R (mapM f l).
Proof.
  intros Hf. induction l as [|x l IH]; cbn [mapM].
  - apply co_sat_ret.
  - apply co_sat_bind; auto. intros y. apply co_sat_bind; auto. intros ys. apply co_sat_ret.
Qed.

End SatRules.

(** ** [sat] along the event loop *)

Section SatWorld.

Context (R : State -> list Effect -> State -> Prop) `{!StepRel R}.

Lemma register_sat ts : forall pool next,
  Forall (sat R unit) ts ->
  Forall (fun it => sat R unit it.2) pool ->
  Forall (fun it => sat R unit it.2) (register ts pool next).1.1 /\
  forall st, R st (register ts pool next).2 st.
Proof.
  induction ts as [|t ts IH]; intros pool next Hts Hpool; cbn [register].
  - split; [exact Hpool | intros; apply rel_refl].
  - inversion Hts as [|? ? Ht Hts']; subst. destruct t as [a| |req k].
    + apply IH; auto.
    + specialize (IH pool next Hts' Hpool).
      destruct (register ts pool next) as [[pool' next'] e]; cbn in *.
      destruct IH as [IH1 IH2]. split; auto.
      intros st. change (Uncaught :: e) with ([Uncaught] ++ e).
      eapply rel_trans; [apply rel_uncaught | apply IH2].
    + apply IH; auto. apply Forall_app; split; auto.
Qed.

Lemma finish_sat (r : Run Task Task) w :
  run_sat R (w_state w) r -> pool_sat R w ->
  pool_sat R (finish r w).1 /\ R (w_state w) (finish r w).2 (w_state (finish r w).1).
Proof.
  intros (H1 & H2 & H3) Hp. unfold finish.
  assert (Hts : Forall (sat R unit) (r_forks r ++ [r_next r])).
  { apply Forall_app; split; auto. }
  pose proof (register_sat _ (w_tasks w) (w_nextTask w) Hts Hp) as [Ha Hb].
  destruct (register (r_forks r ++ [r_next r]) (w_tasks w) (w_nextTask w)) as [[pool next] e].
  cbn in *. split; [exact Ha|]. eapply rel_trans; eauto.
Qed.

Lemma run_world_sat (c : Co unit) w :
  co_sat R c -> pool_sat R w ->
  pool_sat R (run c w).1 /\ R (w_state w) (run c w).2 (w_state (run c w).1).
Proof. intros Hc Hp. apply finish_sat; auto. Qed.

Lemma resume_sat t resp w :
  sat R unit t -> pool_sat R w ->
  pool_sat R (resume t resp w).1 /\
  R (w_state w) (resume t resp w).2 (w_state (resume t resp w).1).
Proof.
  intros Ht Hp. destruct t as [a| |req k]; cbn [resume].
  - split; [exact Hp | apply rel_refl].
  - split; [exact Hp | apply rel_refl].
  - apply finish_sat; auto.
    destruct (sat_await_inv R _ _ _ Ht) as (HR & HF & HN).
    split; [|split]; auto.
Qed.

Lemma resume_all_sat ts resp : forall w,
  Forall (fun it => sat R unit it.2) ts -> pool_sat R w ->
  pool_sat R (resume_all ts resp w).1 /\
  R (w_state w) (resume_all ts resp w).2 (w_state (resume_all ts resp w).1).
Proof.
  induction ts as [|[i t] ts IH]; intros w Hts Hp; cbn [resume_all].
  - split; [exact Hp | apply rel_refl].
  - inversion Hts as [|? ? Ht Hts']; subst. cbn in Ht.
    pose proof (resume_sat t resp w Ht Hp) as [Ha Hb].
    destruct (resume t resp w) as [w1 e1]; cbn in *.
    specialize (IH w1 Hts' Ha). destruct (resume_all ts resp w1) as [w2 e2]; cbn in *.
    destruct IH as [IHa IHb]. split; auto. eapply rel_trans; eauto.
Qed.

Lemma step_sat ev w :
  pool_sat R w -> action_sat R w (dispatch ev w) ->
  pool_sat R (step ev w).1 /\ R (w_state w) (step ev w).2 (w_state (step ev w).1).
Proof.
  intros Hp Ha. unfold step. destruct (dispatch ev w) as [|w1 c|w1 ts resp]; cbn in Ha.
  - split; [exact Hp | apply rel_refl].
  - destruct Ha as (H1 & H2 & H3).
    pose proof (run_world_sat c w1 H3 H2) as [Hb Hc]. split; auto.
    change (run c w1).2 with ([] ++ (run c w1).2). eapply rel_trans; eauto.
  - destruct Ha as (H1 & H2 & H3).
    pose proof (resume_all_sat ts resp w1 H3 H2) as [Hb Hc]. split; auto.
    change (resume_all ts resp w1).2 with ([] ++ (resume_all ts resp w1).2).
    eapply rel_trans; eauto.
Qed.

Lemma steps_sat (ok : Event -> Prop) :
  (forall ev w, ok ev -> pool_sat R w -> action_sat R w (dispatch ev w)) ->
  forall evs w, Forall ok evs -> pool_sat R w ->
  pool_sat R (steps evs w).1 /\ R (w_state w) (steps evs w).2 (w_state (steps evs w).1).
Proof.
  intros Hd. induction evs as [|ev evs IH]; intros w Hok Hp; cbn [steps].
  - split; [exact Hp | apply rel_refl].
  - inversion Hok as [|? ? Hev Hok']; subst.
    pose proof (step_sat ev w Hp (Hd ev w Hev Hp)) as [Ha Hb].
    destruct (step ev w) as [w1 e1]; cbn in *.
    specialize (IH w1 Hok' Ha). destruct (steps evs w1) as [w2 e2]; cbn in *.
    destruct IH as [IHa IHb]. split; auto. eapply rel_trans; eauto.
Qed.

Lemma take_task_sat id pool t rest :
  take_task id pool = Some (t, rest) ->
  Forall (fun it => sat R unit it.2) pool ->
  sat R unit t /\ Forall (fun it => sat R unit it.2) rest.
Proof.
  revert t rest. induction pool as [|[i u] pool IH]; intros t rest H Hp; cbn in H.
  - discriminate.
  - inversion Hp as [|? ? Hu Hp']; subst. destruct (Nat.eqb i id).
    + inversion H; subst. auto.
    + destruct (take_task id pool) as [[t' rest']|]; [|discriminate].
      inversion H; subst. destruct (IH _ _ eq_refl Hp') as [Ha Hb]. split; auto.
Qed.

End SatWorld.

(** ** Automation for [co_sat] *)

Create HintDb sat_db.

Ltac rule l := apply l; try (solve [typeclasses eauto]).

Ltac head_of t :=
  lazymatch t with
  | ?f _ => head_of f
  | _ => t
  end.

(** Follow the structure of a method; [leaf] settles the primitive steps. *)
Ltac sat_go leaf :=
  cbv beta zeta;
  lazymatch goal with
  | |- co_sat _ (bind _ _) => rule co_sat_bind; [sat_go leaf | intro; sat_go leaf]
  | |- co_sat _ (try_catch _ _) => rule co_sat_try; [sat_go leaf | sat_go leaf]
  | |- co_sat _ (ret _) => rule co_sat_ret
  | |- co_sat _ throw => rule co_sat_throw
  | |- co_sat _ (fork _) => rule co_sat_fork; sat_go leaf
  | |- co_sat _ (when _ _) => rule co_sat_when; sat_go leaf
  | |- co_sat _ (foreach _ _) => rule co_sat_foreach; intro; sat_go leaf
  | |- co_sat _ (mapM _ _) => rule co_sat_mapM; intro; sat_go leaf
  | |- co_sat _ (getP _) => rule co_sat_getP
  | |- co_sat _ (getR _) => rule co_sat_getR
  | |- co_sat _ (emit _) => rule co_sat_emit; leaf
  | |- co_sat _ (await _) => rule co_sat_await; leaf
  | |- co_sat _ (modP _) => rule co_sat_modP; leaf
  | |- co_sat _ (modR _) => rule co_sat_modR; leaf
  | |- co_sat _ (match ?x with _ => _ end) => destruct x; sat_go leaf
  | |- co_sat _ ?c =>
      first [ solve [auto with sat_db]
            | let h := head_of c in progress (unfold h); sat_go leaf
            | idtac ]
  end.

Lemma run_sat_sync R {A} st st' e (a : A) :
  R st e st' -> run_sat R st (mkRun st' e [] (Ret a)).
Proof. intros H. split; [exact H|]. split; constructor. Qed.

(** The pool after taking out the calls that wait for gathering. *)
Lemma pool_filter_sat R (P : nat * Task -> Prop) `{!forall x, Decision (P x)} pool :
  Forall (fun it => sat R unit it.2) pool ->
  Forall (fun it => sat R unit it.2) (filter P pool).
Proof.
  intros Hpool. induction Hpool as [|x l Hx Hl IH]; [constructor|].
  rewrite filter_cons. destruct (decide (P x)); [constructor|]; auto.
Qed.

(** The action chosen for an event satisfies [sat R] as soon as the methods do
    and [R] does not look at what the environment changes. *)
Lemma dispatch_sat R `{!StepRel R} (ok : Event -> Prop) :
  (forall st r', rt_intervals r' = rt_intervals (rt st) ->
                 rt_localhost r' = rt_localhost (rt st) ->
                 R st [] (mkState (prov st) r')) ->
  (forall ev w w1 c, ok ev -> dispatch ev w = ActRun w1 c -> co_sat R c) ->
  forall ev w, ok ev -> pool_sat R w -> action_sat R w (dispatch ev w).
Proof.
  intros Henv Hh ev w Hok Hp.
  assert (Hw : forall f, (forall r, rt_intervals (f r) = rt_intervals r) ->
                         (forall r, rt_localhost (f r) = rt_localhost r) ->
             R (w_state w) [] (w_state (with_rt f w)) /\ pool_sat R (with_rt f w)).
  { intros f Hf Hg. split; [apply Henv; cbn; auto | exact Hp]. }
  pose proof (Hh ev w) as Hc.
  destruct (dispatch ev w) as [|w1 c|w1 ts resp] eqn:Hd; cbn [action_sat]; [exact I| |].
  - assert (Hc' : co_sat R c) by (eapply Hc; eauto). clear Hc Hh.
    destruct ev; cbn [dispatch] in Hd;
    repeat match type of Hd with
           | context [match ?x with _ => _ end] =>
               lazymatch x with
               | context [match _ with _ => _ end] => fail
               | _ => destruct x eqn:?
               end
           end; try discriminate; inversion Hd; subst; clear Hd;
    try (split; [apply rel_refl | split; [exact Hp | exact Hc']]).
    all: match goal with
    | |- _ /\ _ /\ _ =>
        split; [apply Hw; reflexivity | split; [apply Hw; reflexivity | exact Hc']]
    end.
  - clear Hc Hh.
    destruct ev; cbn [dispatch] in Hd;
    repeat match type of Hd with
           | context [match ?x with _ => _ end] =>
               lazymatch x with
               | context [match _ with _ => _ end] => fail
               | _ => destruct x eqn:?
               end
           end; try discriminate; inversion Hd; subst; clear Hd.
    + match goal with
      | H : take_task _ _ = Some _ |- _ =>
        destruct (take_task_sat R _ _ _ _ H Hp) as [? ?]
      end.
      split; [apply rel_refl | split; [assumption | repeat constructor; assumption]].
    + split; [apply Hw; reflexivity | split; apply pool_filter_sat; exact Hp].
Qed.

(** Case analysis on the event, down to the handler that [dispatch] runs. *)
Ltac dispatch_cases Hd :=
  cbn [dispatch] in Hd;
  repeat match type of Hd with
         | context [match ?x with _ => _ end] =>
             lazymatch x with
             | context [match _ with _ => _ end] => fail
             | _ => destruct x eqn:?
             end
         end;
  try discriminate; inversion Hd; subst; clear Hd.

(** ** C1: the delivery watermark and exactly-once delivery *)

Lemma deliveries_app e1 e2 : deliveries (e1 ++ e2) = deliveries e1 ++ deliveries e2.
Proof. unfold deliveries. apply flat_map_app. Qed.

Lemma deliveries_map_action l : deliveries (map CallOnAction l) = l.
Proof. unfold deliveries. induction l as [|x l IH]; cbn; [reflexivity|]. now rewrite IH. Qed.

Lemma LogRel_same st e st' :
  peerId (prov st') = peerId (prov st) ->
  options (prov st') = options (prov st) ->
  operationsArray (prov st') = operationsArray (prov st) ->
  lastAppliedIndex (prov st') = lastAppliedIndex (prov st) ->
  deliveries e = [] ->
  LogRel st e st'.
Proof.
  intros H1 H2 H3 H4 H5. split; [exact H1|]. split; [exact H2|].
  unfold log_delivered. intros H. split; [congruence|]. exists []. rewrite app_nil_r.
  split; [exact H3|]. rewrite H5. unfold expected_deliveries. destruct (onAction _); reflexivity.
Qed.

#[local] Instance LogRel_rel : StepRel LogRel.
Proof.
  split.
  - intros st. apply LogRel_same; reflexivity.
  - intros a e1 b e2 c (P1 & O1 & H1) (P2 & O2 & H2). split; [congruence|]. split; [congruence|].
    intros Ha. destruct (H1 Ha) as (Hb & n1 & E1 & D1). destruct (H2 Hb) as (Hc & n2 & E2 & D2).
    split; auto. exists (n1 ++ n2). split.
    + rewrite E2, E1. now rewrite app_assoc.
    + rewrite deliveries_app, D1, D2. unfold expected_deliveries. rewrite P1, O1.
      destruct (onAction _); auto. now rewrite List.filter_app.
  - intros st. apply LogRel_same; reflexivity.
Qed.

Ltac log_leaf :=
  let p := fresh "p" in
  let r := fresh "r" in
  intros [p r]; apply LogRel_same; reflexivity.

(** The loop of the observer hands over exactly the entries its test selects. *)
Lemma foreach_deliver (c : GameAction -> bool) l st :
  foreach l (fun op => if c op then emit (CallOnAction op) else ret tt) st =
  mkRun st (map CallOnAction (List.filter c l)) [] (Ret tt).
Proof.
  revert st. induction l as [|op l IH]; intros st; cbn [foreach List.filter].
  - reflexivity.
  - cbn. destruct (c op); cbn; rewrite IH; reflexivity.
Qed.

Lemma docUpdateHandler_run o u st :
  exists e, docUpdateHandler o u st = mkRun st e [] (Ret tt) /\ deliveries e = [].
Proof.
  destruct st as [p r]. unfold docUpdateHandler. cbn.
  destruct (docUpdateListener p); cbn; [|eexists; split; reflexivity].
  destruct o; cbn; [eexists; split; reflexivity|].
  destruct (useLocalFallback p); cbn; [|eexists; split; reflexivity].
  destruct (broadcastChannel p); cbn; eexists; split; reflexivity.
Qed.

(** A transaction appends, then the observer delivers what was appended. *)
Lemma transact_log o u : co_sat LogRel (transact o u).
Proof.
  intros [p r]. unfold transact. destruct (update_is_empty u) eqn:E.
  { apply run_sat_sync. apply LogRel_same; reflexivity. }
  unfold operationsObserver.
  destruct (u_ops u) as [|op ops] eqn:Eo.
  - cbn. rewrite app_nil_r.
    match goal with
    | |- context [docUpdateHandler o u ?s] =>
        destruct (docUpdateHandler_run o u s) as (e & He & Hd); rewrite He
    end.
    cbn. apply run_sat_sync. apply LogRel_same; auto.
  - cbn.
    rewrite (foreach_deliver
               (fun op => negb (String.eqb (playerId op) (peerId p)) && onAction (options p))).
    cbn.
    match goal with
    | |- context [docUpdateHandler o u ?s] =>
        destruct (docUpdateHandler_run o u s) as (e & He & Hd); rewrite He
    end.
    cbn. apply run_sat_sync. split; [reflexivity|]. split; [reflexivity|].
    unfold log_delivered; cbn. intros H. split; [reflexivity|].
    exists (op :: ops). split; [reflexivity|].
    rewrite !deliveries_app, Hd, ?app_nil_r, deliveries_map_action.
    rewrite H, drop_app_length.
    unfold expected_deliveries, is_remote. cbn [prov peerId options].
    generalize (op :: ops) as l. intros l.
    destruct (onAction (options p)).
    + apply List.filter_ext. intros; apply andb_true_r.
    + induction l as [|x l IH]; cbn; [reflexivity|].
      rewrite andb_false_r. exact IH.
Qed.

#[local] Hint Resolve transact_log : sat_db.

Lemma waitForRoom_log n : co_sat LogRel (waitForRoom n).
Proof. induction n; cbn [waitForRoom]; sat_go log_leaf. Qed.

#[local] Hint Resolve waitForRoom_log : sat_db.

(** Every handler the event loop can run keeps the log delivered. *)
Lemma handlers_log ev w w1 c : dispatch ev w = ActRun w1 c -> co_sat LogRel c.
Proof.
  intros Hd. destruct ev; dispatch_cases Hd; sat_go log_leaf.
Qed.

Lemma dispatch_log ev w : pool_sat LogRel w -> action_sat LogRel w (dispatch ev w).
Proof.
  apply (dispatch_sat LogRel (fun _ => True)); auto.
  - intros st r' _ _. apply LogRel_same; reflexivity.
  - intros ev' w' w1 c _. apply handlers_log.
Qed.

Lemma steps_log evs w :
  pool_sat LogRel w ->
  pool_sat LogRel (steps evs w).1 /\
  LogRel (w_state w) (steps evs w).2 (w_state (steps evs w).1).
Proof.
  intros Hp. apply (steps_sat LogRel (fun _ => True)); auto.
  - intros ev w' _. apply dispatch_log.
  - clear. induction evs; constructor; auto.
Qed.



(** ** C10: the only host in a roster is the self player *)

Lemma rosters_app e1 e2 : rosters (e1 ++ e2) = rosters e1 ++ rosters e2.
Proof. unfold rosters. apply flat_map_app. Qed.

Lemma RosterRel_same st e st' :
  player (prov st') = player (prov st) ->
  isHost (prov st') = isHost (prov st) ->
  rosters e = [] ->
  RosterRel st e st'.
Proof. intros H1 H2 H3. split; [exact H1|]. split; [exact H2|]. rewrite H3. constructor. Qed.

#[local] Instance RosterRel_rel : StepRel RosterRel.
Proof.
  split.
  - intros st. apply RosterRel_same; reflexivity.
  - intros a e1 b e2 c (P1 & H1 & F1) (P2 & H2 & F2).
    split; [congruence|]. split; [congruence|].
    rewrite rosters_app. apply Forall_app. split; [exact F1|]. now rewrite <- P1.
  - intros st. apply RosterRel_same; reflexivity.
Qed.

Ltac roster_leaf :=
  let p := fresh "p" in
  let r := fresh "r" in
  intros [p r]; apply RosterRel_same; reflexivity.

(** The placeholders built for the connected peers are never hosts. *)
Lemma mapM_placeholder_run l : forall st, exists r' others,
  mapM placeholderPlayer l st = mkRun (mkState (prov st) r') [] [] (Ret others) /\
  Forall not_host others /\ map p_id others = l.
Proof.
  induction l as [|x l IH]; intros [p r]; cbn [mapM].
  - exists r, []. cbn. repeat split; constructor.
  - unfold placeholderPlayer at 1. unfold nextColor. cbn.
    match goal with
    | |- context [mapM placeholderPlayer l ?s] =>
        destruct (IH s) as (r' & others & Hrun & Hnh & Hid); rewrite Hrun
    end.
    cbn. eexists _, (_ :: others). split; [reflexivity|]. split.
    + constructor; [reflexivity | exact Hnh].
    + cbn. now rewrite Hid.
Qed.

Lemma getPlayers_run st : exists r' others,
  getPlayers st = mkRun (mkState (prov st) r') [] [] (Ret (player (prov st) :: others)) /\
  Forall not_host others /\ map p_id others = elements (connectedPeers (prov st)).
Proof.
  destruct st as [p r]. unfold getPlayers. cbn.
  destruct (mapM_placeholder_run (elements (connectedPeers p)) (mkState p r))
    as (r' & others & Hrun & Hnh & Hid).
  rewrite Hrun. cbn. exists r', others. auto.
Qed.

Lemma find_host_roster me others :
  Forall not_host others ->
  List.find p_isHost (me :: others) = if p_isHost me then Some me else None.
Proof.
  intros H. cbn. destruct (p_isHost me); [reflexivity|].
  induction H as [|x l Hx Hl IH]; cbn; [reflexivity|]. unfold not_host in Hx. now rewrite Hx.
Qed.

Lemma getHost_run st : exists r',
  getHost st = mkRun (mkState (prov st) r') [] []
                 (Ret (if p_isHost (player (prov st)) then Some (player (prov st)) else None)).
Proof.
  unfold getHost. destruct (getPlayers_run st) as (r' & others & Hrun & Hnh & _).
  cbn. rewrite Hrun. cbn -[List.find]. rewrite (find_host_roster _ _ Hnh). exists r'. reflexivity.
Qed.

Lemma notifyPlayersChange_roster : co_sat RosterRel notifyPlayersChange.
Proof.
  intros [p r]. unfold notifyPlayersChange. cbn.
  destruct (onPlayersChange (options p)); cbn.
  - destruct (mapM_placeholder_run (elements (connectedPeers p)) (mkState p r))
      as (r' & others & Hrun & Hnh & _).
    rewrite Hrun. cbn. apply run_sat_sync.
    split; [reflexivity|]. split; [reflexivity|]. cbn.
    constructor; [|constructor]. exists others. auto.
  - apply run_sat_sync. apply RosterRel_same; reflexivity.
Qed.

#[local] Hint Resolve notifyPlayersChange_roster : sat_db.

Lemma waitForRoom_roster n : co_sat RosterRel (waitForRoom n).
Proof. induction n; cbn [waitForRoom]; sat_go roster_leaf. Qed.

#[local] Hint Resolve waitForRoom_roster : sat_db.

Lemma handlers_roster ev w w1 c : dispatch ev w = ActRun w1 c -> co_sat RosterRel c.
Proof.
  intros Hd. destruct ev; dispatch_cases Hd; sat_go roster_leaf.
Qed.

Lemma dispatch_roster ev w : pool_sat RosterRel w -> action_sat RosterRel w (dispatch ev w).
Proof.
  apply (dispatch_sat RosterRel (fun _ => True)); auto.
  - intros st r' _ _. apply RosterRel_same; reflexivity.
  - intros ev' w' w1 c _. apply handlers_roster.
Qed.

Lemma steps_roster evs w :
  pool_sat RosterRel w ->
  pool_sat RosterRel (steps evs w).1 /\
  RosterRel (w_state w) (steps evs w).2 (w_state (steps evs w).1).
Proof.
  intros Hp. apply (steps_sat RosterRel (fun _ => True)); auto.
  - intros ev w' _. apply dispatch_roster.
  - clear. induction evs; constructor; auto.
Qed.

(** C10. On every provider, whatever events reach it: [getHost()] returns the
    self player when the provider is the host and [undefined] when it is not;
    every roster given to [onPlayersChange] is the self player followed by
    placeholders whose [isHost] is false, so on a provider that is not the host
    no roster has a host entry. *)
Theorem C10_getHost_is_self_or_undefined o pid r evs :
  let w := (steps evs (newProvider o pid r)).1 in
  let e := (steps evs (newProvider o pid r)).2 in
  let me := player (prov (w_state w)) in
  p_id me = pid /\ p_isHost me = opt_isHost o /\
  r_next (getHost (w_state w)) = Ret (if opt_isHost o then Some me else None) /\
  Forall (roster_of me) (rosters e) /\
  (opt_isHost o = false -> Forall (Forall not_host) (rosters e)).
Proof.
  intros w e me.
  assert (Hp0 : pool_sat RosterRel (newProvider o pid r)) by constructor.
  destruct (steps_roster evs _ Hp0) as [_ (P & H & F)]. fold w e in P, H, F.
  cbn in P, H, F. fold me in P.
  assert (Hme : p_isHost me = opt_isHost o) by (rewrite P; reflexivity).
  split; [rewrite P; reflexivity|]. split; [exact Hme|].
  split; [|split].
  - destruct (getHost_run (w_state w)) as (r' & Hrun). rewrite Hrun. cbn.
    fold me. rewrite Hme. reflexivity.
  - rewrite P. exact F.
  - intros Hnot. eapply Forall_impl; [exact F|].
    intros ps (others & -> & Hnh). constructor; [|exact Hnh].
    unfold not_host. cbn. exact Hnot.
Qed.

(** C10, witness: the rosters reported in the guest's session hold no host. *)
Lemma C10_witness :
  Forall (Forall not_host) (rosters (steps guestSession localGuestWorld).2).
Proof.
  apply (C10_getHost_is_self_or_undefined guestOptions "guest-1" (exampleRuntime true)
           guestSession).
  reflexivity.
Defined.

(** ** C3 and C8: the cached snapshot *)

(** What a [state-request] on a data channel does, in every state. *)
Lemma state_request_run st remote :
  handleDataChannelMessage (FrameJson MsgStateRequest) remote st =
  mkRun st
    (if isHost (prov st) && truthy (initialGameState (prov st)) then
       match channel_open st remote with
       | Some ch => [ChannelSend ch (MsgStateSync (initialGameState (prov st)))]
       | None => []
       end
     else [])
    [] (Ret tt).
Proof.
  destruct st as [p r]. unfold handleDataChannelMessage, channel_open, readyStateOf. cbn.
  destruct (isHost p); cbn; [|reflexivity].
  destruct (truthy (initialGameState p)); cbn; [|reflexivity].
  destruct (dataChannels p !! remote) as [ch|]; cbn; [|reflexivity].
  destruct (rt_chans r !! ch) as [c|]; cbn; [|reflexivity].
  destruct (ch_readyState c); cbn; reflexivity.
Qed.

(** The same request on the BroadcastChannel. *)
Lemma broadcast_state_request_run st from pid :
  handleBroadcastMessage (mkBroadcast MsgStateRequest from pid) st =
  mkRun st
    (if isHost (prov st) && truthy (initialGameState (prov st)) then
       match broadcastChannel (prov st) with
       | Some _ => [BroadcastPost (mkBroadcast (MsgStateSync (initialGameState (prov st)))
                                     (Some (peerId (prov st))) None)]
       | None => []
       end
     else [])
    [] (Ret tt).
Proof.
  destruct st as [p r]. unfold handleBroadcastMessage. cbn.
  destruct (isHost p); cbn; [|reflexivity].
  destruct (truthy (initialGameState p)); cbn; [|reflexivity].
  destruct (broadcastChannel p); reflexivity.
Qed.

Lemma updateGameState_run s st :
  updateGameState s st = mkRun (mkState (set_initialGameState s (prov st)) (rt st)) [] [] (Ret tt).
Proof. reflexivity. Qed.

(** C3, counterexample.  The host holds the snapshot [JObj 7] and has
    negotiated with the guest; the connection is then reported [disconnected],
    which drops the guest's entry from [dataChannels], and a [state-request]
    arrives on the still open channel: nothing is sent.  And with the channel
    registered and open, after [updateGameState(0)] a [state-request] gets no
    answer either. *)
Lemma C3_counterexample :
  isHost (prov (w_state (steps hostLosesGuest hostWorld).1)) = true /\
  initialGameState (prov (w_state (steps hostLosesGuest hostWorld).1)) = JObj 7 /\
  (step (ChannelMessage 2 (FrameJson MsgStateRequest))
        (steps hostLosesGuest hostWorld).1).2 = [] /\
  (steps [CallUpdateGameState (JNum 0); ChannelMessage 2 (FrameJson MsgStateRequest)]
         (steps hostNegotiates hostWorld).1).2 = [].
Proof. vm_compute. repeat split; reflexivity. Qed.

(** C3, amended.  A [state-request] on a data channel changes no state, never
    throws, and sends at most one message: a [state-sync] carrying the cached
    snapshot, exactly when the provider is the host, the snapshot is truthy and
    the data channel registered for the sender is open.  So a request that
    finds no (truthy) snapshot is not answered, and once the host has called
    [updateGameState(S)] with a truthy [S], a request from a peer whose channel
    is registered and open is answered with a [state-sync] carrying [S]. *)
Theorem C3_state_request_answer st remote :
  let r := handleDataChannelMessage (FrameJson MsgStateRequest) remote st in
  r_st r = st /\ returns r tt /\
  ((exists e, In e (r_eff r) /\ sends_state_sync e) <->
   isHost (prov st) = true /\ truthy (initialGameState (prov st)) = true /\
   exists ch, channel_open st remote = Some ch) /\
  (forall ch, isHost (prov st) = true -> truthy (initialGameState (prov st)) = true ->
     channel_open st remote = Some ch ->
     r_eff r = [ChannelSend ch (MsgStateSync (initialGameState (prov st)))]) /\
  (truthy (initialGameState (prov st)) = false -> r_eff r = []) /\
  (forall S ch, isHost (prov st) = true -> truthy S = true ->
     channel_open st remote = Some ch ->
     r_eff (handleDataChannelMessage (FrameJson MsgStateRequest) remote
              (r_st (updateGameState S st))) = [ChannelSend ch (MsgStateSync S)]).
Proof.
  intros r. subst r. rewrite state_request_run. cbn [r_st r_eff r_forks r_next].
  split; [reflexivity|]. split; [split; reflexivity|].
  split; [|split; [|split]].
  - destruct (isHost (prov st)); cbn.
    + destruct (truthy (initialGameState (prov st))); cbn.
      * destruct (channel_open st remote) as [ch|]; cbn.
        -- split; [eauto|]. intros _. eexists; split; [left; reflexivity | exact I].
        -- split; [intros (e & [] & _) | intros (_ & _ & ch & Hch); discriminate].
      * split; [intros (e & [] & _) | intros (_ & Hf & _); discriminate].
    + split; [intros (e & [] & _) | intros (Hf & _); discriminate].
  - intros ch Hh Ht Hc. rewrite Hh, Ht, Hc. reflexivity.
  - intros Ht. rewrite Ht, andb_false_r. reflexivity.
  - intros S ch Hh Ht Hc. rewrite updateGameState_run, state_request_run.
    destruct st as [p r]. unfold channel_open in *. cbn in *. rewrite Hh, Ht, Hc. reflexivity.
Qed.

(** C3, witness: the host of the example, after negotiation, answers the
    guest's request with its snapshot [JObj 7]; having stored [JObj 8] it
    answers with that; and the guest of the example, which holds no snapshot,
    answers nothing. *)
Lemma C3_witness :
  r_eff (handleDataChannelMessage (FrameJson MsgStateRequest) "guest-1"
           (w_state (steps hostNegotiates hostWorld).1))
  = [ChannelSend 2 (MsgStateSync (JObj 7))] /\
  r_eff (handleDataChannelMessage (FrameJson MsgStateRequest) "guest-1"
           (r_st (updateGameState (JObj 8) (w_state (steps hostNegotiates hostWorld).1))))
  = [ChannelSend 2 (MsgStateSync (JObj 8))] /\
  r_eff (handleDataChannelMessage (FrameJson MsgStateRequest) "host-1" (w_state guestWorld))
  = [].
Proof.
  pose proof (C3_state_request_answer (w_state (steps hostNegotiates hostWorld).1) "guest-1")
    as H.
  cbv zeta in H. destruct H as (_ & _ & _ & H1 & _ & H3).
  pose proof (C3_state_request_answer (w_state guestWorld) "host-1") as G.
  cbv zeta in G. destruct G as (_ & _ & _ & _ & G2 & _).
  split; [|split].
  - refine (eq_trans (H1 2 _ _ _) _); vm_compute; reflexivity.
  - refine (eq_trans (H3 (JObj 8) 2 _ _ _) _); vm_compute; reflexivity.
  - apply G2. vm_compute. reflexivity.
Defined.

(** C8, counterexample.  On the guest of the example, [updateGameState] does
    replace the cached blob: the field goes from [null] to the new value. *)
Lemma C8_counterexample :
  isHost (prov (w_state guestWorld)) = false /\
  initialGameState (prov (w_state guestWorld)) = JNull /\
  initialGameState (prov (w_state (step (CallUpdateGameState (JObj 9)) guestWorld).1)) = JObj 9.
Proof. vm_compute. repeat split; reflexivity. Qed.

(** C8, amended.  [updateGameState(state)] stores [state] as the cached blob on
    every provider, host or not, performs no effect and changes nothing else in
    the provider or the runtime.  The host-only part is at the reader: on a
    provider that is not the host a [state-request] is never answered, on either
    transport, whatever was stored; on the host the next answer over an open
    registered channel carries the stored blob when it is truthy. *)
Theorem C8_updateGameState_frame s st :
  updateGameState s st =
    mkRun (mkState (set_initialGameState s (prov st)) (rt st)) [] [] (Ret tt) /\
  (isHost (prov st) = false ->
   forall remote from pid,
     r_eff (handleDataChannelMessage (FrameJson MsgStateRequest) remote
              (r_st (updateGameState s st))) = [] /\
     r_eff (handleBroadcastMessage (mkBroadcast MsgStateRequest from pid)
              (r_st (updateGameState s st))) = []) /\
  (isHost (prov st) = true -> truthy s = true ->
   forall remote ch, channel_open st remote = Some ch ->
     r_eff (handleDataChannelMessage (FrameJson MsgStateRequest) remote
              (r_st (updateGameState s st))) = [ChannelSend ch (MsgStateSync s)]).
Proof.
  split; [reflexivity|]. split.
  - intros Hh remote from pid. rewrite updateGameState_run, state_request_run,
      broadcast_state_request_run. cbn. rewrite Hh. split; reflexivity.
  - intros Hh Ht remote ch Hc. rewrite updateGameState_run, state_request_run.
    destruct st as [p r]. unfold channel_open in *. cbn in *. rewrite Hh, Ht, Hc. reflexivity.
Qed.

(** C8, witness: the guest of the example stores a blob and still answers no
    request; the host of the example, after negotiation, stores [JObj 8] and
    answers the guest with it. *)
Lemma C8_witness :
  (r_eff (handleDataChannelMessage (FrameJson MsgStateRequest) "host-1"
            (r_st (updateGameState (JObj 9) (w_state guestWorld)))) = [] /\
   r_eff (handleBroadcastMessage (mkBroadcast MsgStateRequest (Some "host-1") None)
            (r_st (updateGameState (JObj 9) (w_state guestWorld)))) = []) /\
  r_eff (handleDataChannelMessage (FrameJson MsgStateRequest) "guest-1"
           (r_st (updateGameState (JObj 8) (w_state (steps hostNegotiates hostWorld).1))))
  = [ChannelSend 2 (MsgStateSync (JObj 8))].
Proof.
  pose proof (C8_updateGameState_frame (JObj 9) (w_state guestWorld)) as (_ & G & _).
  pose proof (C8_updateGameState_frame (JObj 8) (w_state (steps hostNegotiates hostWorld).1))
    as (_ & _ & H).
  split.
  - refine (G _ "host-1" (Some "host-1") None). vm_compute. reflexivity.
  - refine (H _ _ "guest-1" 2 _); vm_compute; reflexivity.
Defined.

(** ** C2: teardown *)

Lemma foreach_close_run l : forall st, exists r' e,
  foreach l (fun entry : string * nat => closePeerConnection entry.2) st =
  mkRun (mkState (prov st) r') e [] (Ret tt).
Proof.
  induction l as [|x l IH]; intros [p r]; cbn [foreach].
  - exists r, []. reflexivity.
  - unfold closePeerConnection at 1. cbn.
    match goal with
    | |- context [foreach l _ ?s] => destruct (IH s) as (r' & e & Hrun); rewrite Hrun
    end.
    cbn. eexists _, _. reflexivity.
Qed.

(** [destroy()] on a live provider runs to its end and leaves it destroyed. *)
Lemma destroy_run st :
  destroyed (prov st) = false ->
  exists p' r' e,
    destroy st = mkRun (mkState p' r') e [] (Ret tt) /\ destroyed p' = true.
Proof.
  destruct st as [p r]. cbn. intros Hd. unfold destroy, clearInterval. cbn. rewrite Hd. cbn.
  destruct (pollingInterval p) as [id|]; cbn.
  - match goal with
    | |- context [foreach ?l _ ?s] =>
        destruct (foreach_close_run l s) as (r' & e & Hrun); rewrite Hrun
    end.
    cbn. destruct (broadcastChannel p); cbn; eexists _, _, _; split; reflexivity.
  - match goal with
    | |- context [foreach ?l _ ?s] =>
        destruct (foreach_close_run l s) as (r' & e & Hrun); rewrite Hrun
    end.
    cbn. destruct (broadcastChannel p); cbn; eexists _, _, _; split; reflexivity.
Qed.

Lemma destroy_destroyed st :
  destroyed (prov st) = true -> destroy st = mkRun st [] [] (Ret tt).
Proof. destruct st as [p r]. cbn. intros Hd. unfold destroy. cbn. rewrite Hd. reflexivity. Qed.

(** A handler that returns at once without doing anything leaves the world as
    it is. *)
Lemma run_noop c w :
  c (w_state w) = mkRun (w_state w) [] [] (Ret tt) -> run c w = (w, []).
Proof. intros H. unfold run, finish. rewrite H. cbn. destruct w; reflexivity. Qed.

Lemma run_sync c w st' e :
  c (w_state w) = mkRun st' e [] (Ret tt) ->
  run c w = (mkWorld st' (w_tasks w) (w_nextTask w), e).
Proof. intros H. unfold run, finish. rewrite H. cbn. now rewrite app_nil_r. Qed.

Lemma pure_read_getP {A} (f : Provider -> A) st : pure_read (getP f) st.
Proof. exists (f (prov st)). repeat split; reflexivity. Qed.

Lemma pure_read_getPlayers st : pure_read getPlayers st.
Proof.
  destruct (getPlayers_run st) as (r' & others & Hrun & _).
  eexists. rewrite Hrun. repeat split; reflexivity.
Qed.

Lemma pure_read_getHost st : pure_read getHost st.
Proof.
  destruct (getHost_run st) as (r' & Hrun).
  eexists. rewrite Hrun. repeat split; reflexivity.
Qed.

Lemma setMeta_run k v st : exists e,
  setMeta k v st =
  mkRun (mkState (set_meta (<[k := v]> (metaMap (prov st)))
                    (set_ops (operationsArray (prov st) ++ []) (prov st))) (rt st))
        e [] (Ret tt).
Proof.
  destruct st as [p r]. unfold setMeta, transact, operationsObserver. cbn.
  match goal with
  | |- context [docUpdateHandler ?o ?u ?s] =>
      destruct (docUpdateHandler_run o u s) as (e & He & _); rewrite He
  end.
  cbn. eexists. reflexivity.
Qed.




(** ** C7: a connection that fails or disconnects *)

Lemma notifyPlayersChange_run st : exists r' e,
  notifyPlayersChange st = mkRun (mkState (prov st) r') e [] (Ret tt) /\
  (onPlayersChange (options (prov st)) = true ->
   exists others, e = [CallOnPlayersChange (player (prov st) :: others)] /\
                  Forall not_host others /\
                  map p_id others = elements (connectedPeers (prov st))) /\
  (onPlayersChange (options (prov st)) = false -> e = []).
Proof.
  destruct st as [p r]. unfold notifyPlayersChange. cbn.
  destruct (onPlayersChange (options p)); cbn.
  - destruct (mapM_placeholder_run (elements (connectedPeers p)) (mkState p r))
      as (r' & others & Hrun & Hnh & Hid).
    rewrite Hrun. cbn. eexists _, _. split; [reflexivity|]. split; [|discriminate].
    intros _. exists others. auto.
  - eexists _, _. split; [reflexivity|]. split; [discriminate | reflexivity].
Qed.

Lemma updateConnectionStatus_run st : exists r' e,
  updateConnectionStatus st = mkRun (mkState (prov st) r') e [] (Ret tt) /\
  (onPlayersChange (options (prov st)) = true ->
   exists others, In (CallOnPlayersChange (player (prov st) :: others)) e /\
                  Forall not_host others /\
                  map p_id others = elements (connectedPeers (prov st))).
Proof.
  destruct st as [p r]. unfold updateConnectionStatus. cbn.
  destruct (notifyPlayersChange_run (mkState p r)) as (r' & e & Hrun & Hyes & _).
  destruct (onConnectionChange (options p)); cbn; rewrite Hrun; cbn;
    eexists _, _; (split; [reflexivity|]); intros Hon;
    destruct (Hyes Hon) as (others & -> & Hnh & Hid); exists others; cbn; auto.
Qed.

(** Activating the fallback when a channel is there and it is not active yet. *)
Lemma enableLocalFallback_run st name :
  broadcastChannel (prov st) = Some name ->
  useLocalFallback (prov st) = false ->
  exists r' e forks,
    enableLocalFallback st =
      mkRun (mkState (set_docUpdateListener true (set_useLocalFallback true (prov st))) r')
            (BroadcastPost (announceMsg (prov st)) :: e) forks (Ret tt).
Proof.
  destruct st as [p r]. cbn. intros Hbc Hf. unfold enableLocalFallback. cbn. rewrite Hf. cbn. rewrite Hbc. cbn.
  destruct (isHost p); cbn.
  - match goal with
    | |- context [updateConnectionStatus ?s] =>
        destruct (updateConnectionStatus_run s) as (r' & e & Hrun & _); rewrite Hrun
    end.
    cbn. eexists _, _, _. reflexivity.
  - match goal with
    | |- context [updateConnectionStatus ?s] =>
        destruct (updateConnectionStatus_run s) as (r' & e & Hrun & _); rewrite Hrun
    end.
    cbn. eexists _, _, _. reflexivity.
Qed.

Lemma run_state c w : w_state (run c w).1 = r_st (c (w_state w)).
Proof.
  unfold run, finish.
  destruct (register _ _ _) as [[pool next] e]. reflexivity.
Qed.

Lemma run_effects c w : exists u, (run c w).2 = r_eff (c (w_state w)) ++ u.
Proof.
  unfold run, finish.
  destruct (register _ _ _) as [[pool next] e]. cbn. eauto.
Qed.

(** What the handler does when the connection state it reads is [failed] or
    [disconnected]. *)
Lemma onConnectionStateChange_lost pc remote st :
  connectionStateOf (rt st) pc = CsFailed \/ connectionStateOf (rt st) pc = CsDisconnected ->
  exists p' e,
    prov (r_st (onConnectionStateChange pc remote st)) = p' /\
    r_eff (onConnectionStateChange pc remote st) = e /\
    (onPlayersChange (options (prov st)) = true ->
     exists others, In (CallOnPlayersChange (player (prov st) :: others)) e /\
                    Forall not_host others /\
                    map p_id others = elements (connectedPeers (prov st) ∖ {[remote]})) /\
    match broadcastChannel (prov st), useLocalFallback (prov st) with
    | Some _, false =>
        p' = set_docUpdateListener true
               (set_useLocalFallback true (without_peer remote (prov st))) /\
        In (BroadcastPost (announceMsg (prov st))) e
    | _, _ => p' = without_peer remote (prov st)
    end.
Proof.
  destruct st as [p r]. cbn [rt prov]. intros Hs.
  unfold onConnectionStateChange. cbn.
  eexists _, _. split; [reflexivity|]. split; [reflexivity|].
  destruct Hs as [Hs | Hs]; rewrite Hs; cbn;
    match goal with
    | |- context [updateConnectionStatus ?s] =>
        destruct (updateConnectionStatus_run s) as (r1 & e1 & Hrun & Hroster); rewrite Hrun
    end; cbn;
    (destruct (broadcastChannel p) as [name|] eqn:Hbc; cbn;
     [ destruct (useLocalFallback p) eqn:Hf; cbn
     | ]);
    try (split; [intros Hon; destruct (Hroster Hon) as (others & Hin & Hnh & Hid);
                 exists others; rewrite ?app_nil_r; auto | rewrite ?Hf; reflexivity]).
  all: match goal with
       | |- context [enableLocalFallback ?s] =>
           destruct (enableLocalFallback_run s name Hbc Hf) as (r2 & e2 & f2 & Hrun2);
           rewrite Hrun2
       end; cbn.
  all: split; [intros Hon; destruct (Hroster Hon) as (others & Hin & Hnh & Hid);
               exists others; split; [apply in_or_app; left; exact Hin | auto]
              | split; [reflexivity | apply in_or_app; right; left; reflexivity]].
Qed.

(** C7.  When a peer connection that exists becomes [failed] or
    [disconnected], the provider takes its peer out of the connected set, out
    of the connection table and out of the data channel table, and leaves the
    other peers' entries alone; it reports to [onPlayersChange] (when given) a
    roster made of the self player and the remaining peers; and when a
    BroadcastChannel is there and the fallback is not active yet, it activates
    the fallback (the flag is set and the provider announces itself on the
    channel), while otherwise the flag keeps its value. *)
Theorem C7_connection_lost w pc o s :
  rt_pcs (rt (w_state w)) !! pc = Some o ->
  s = CsFailed \/ s = CsDisconnected ->
  let p := prov (w_state w) in
  let remote := pc_remote o in
  let p' := prov (w_state (step (ConnectionStateChange pc s) w).1) in
  let e := (step (ConnectionStateChange pc s) w).2 in
  (remote ∉ connectedPeers p') /\
  peerConnections p' !! remote = None /\
  dataChannels p' !! remote = None /\
  (forall q, q <> remote ->
     (q ∈ connectedPeers p' <-> q ∈ connectedPeers p) /\
     peerConnections p' !! q = peerConnections p !! q /\
     dataChannels p' !! q = dataChannels p !! q) /\
  (onPlayersChange (options p) = true ->
   exists others, In (CallOnPlayersChange (player p :: others)) e /\
                  map p_id others = elements (connectedPeers p ∖ {[remote]})) /\
  match broadcastChannel p, useLocalFallback p with
  | Some _, false => useLocalFallback p' = true /\ In (BroadcastPost (announceMsg p)) e
  | _, _ => useLocalFallback p' = useLocalFallback p
  end.
Proof.
  intros Hpc Hs. cbv zeta. unfold step. cbn [dispatch]. rewrite Hpc.
  set (remote := pc_remote o). set (p := prov (w_state w)).
  set (w1 := with_rt _ w).
  assert (Hcs : connectionStateOf (rt (w_state w1)) pc = s).
  { unfold connectionStateOf, w1. cbn. rewrite lookup_alter_eq, Hpc. reflexivity. }
  assert (Hs' : connectionStateOf (rt (w_state w1)) pc = CsFailed \/
                connectionStateOf (rt (w_state w1)) pc = CsDisconnected)
    by (rewrite Hcs; exact Hs).
  destruct (onConnectionStateChange_lost pc remote (w_state w1) Hs')
    as (p' & e & Hp' & He & Hroster & Hfb).
  rewrite run_state, Hp'.
  destruct (run_effects (onConnectionStateChange pc remote) w1) as (u & Hu).
  rewrite Hu, He. change (prov (w_state w1)) with p in *.
  assert (Hbase : forall x, (x = without_peer remote p \/
                             x = set_docUpdateListener true
                                   (set_useLocalFallback true (without_peer remote p))) ->
            (remote ∉ connectedPeers x) /\
            peerConnections x !! remote = None /\
            dataChannels x !! remote = None /\
            (forall q, q <> remote ->
               (q ∈ connectedPeers x <-> q ∈ connectedPeers p) /\
               peerConnections x !! q = peerConnections p !! q /\
               dataChannels x !! q = dataChannels p !! q)).
  { intros x Hx.
    assert (Hc : connectedPeers x = connectedPeers p ∖ {[remote]} /\
                 peerConnections x = delete remote (peerConnections p) /\
                 dataChannels x = delete remote (dataChannels p))
      by (destruct Hx as [-> | ->]; cbn; auto).
    destruct Hc as (E1 & E2 & E3). rewrite E1, E2, E3.
    split; [apply not_elem_of_difference; right; apply elem_of_singleton; reflexivity|].
    split; [apply lookup_delete_eq|]. split; [apply lookup_delete_eq|].
    intros q Hq. split.
    { rewrite elem_of_difference, elem_of_singleton. intuition. }
    split; apply lookup_delete_ne; congruence. }
  assert (Hx : p' = without_peer remote p \/
               p' = set_docUpdateListener true
                      (set_useLocalFallback true (without_peer remote p))).
  { destruct (broadcastChannel p); [destruct (useLocalFallback p)|]; intuition. }
  destruct (Hbase p' Hx) as (B1 & B2 & B3 & B4).
  split; [exact B1|]. split; [exact B2|]. split; [exact B3|]. split; [exact B4|].
  split.
  - intros Hon. destruct (Hroster Hon) as (others & Hin & _ & Hid).
    exists others. split; [apply in_or_app; left; exact Hin | exact Hid].
  - destruct (broadcastChannel p); [destruct (useLocalFallback p) eqn:Hf|].
    + rewrite Hfb. cbn. exact Hf.
    + destruct Hfb as [-> Hin]. split; [reflexivity | apply in_or_app; left; exact Hin].
    + rewrite Hfb. reflexivity.
Qed.

(** C7, witness: the host of the example loses the guest it negotiated with;
    and a provider with a BroadcastChannel and an inactive fallback activates
    the fallback when its connection fails. *)
Lemma C7_witness :
  ("guest-1" ∉ connectedPeers
     (prov (w_state (step (ConnectionStateChange 1 CsDisconnected)
                          (steps hostNegotiates hostWorld).1).1))) /\
  useLocalFallback
     (prov (w_state (step (ConnectionStateChange 1 CsFailed) fallbackReadyWorld).1)) = true.
Proof.
  pose proof (C7_connection_lost (steps hostNegotiates hostWorld).1 1
                (mkPc "guest-1" CsNew GsComplete (Some exampleOffer) false) CsDisconnected) as H.
  pose proof (C7_connection_lost fallbackReadyWorld 1
                (mkPc "guest-1" CsConnected GsComplete None false) CsFailed) as G.
  cbv zeta in H, G.
  assert (H1 : rt_pcs (rt (w_state (steps hostNegotiates hostWorld).1)) !! 1 =
               Some (mkPc "guest-1" CsNew GsComplete (Some exampleOffer) false))
    by (vm_compute; reflexivity).
  assert (G1 : rt_pcs (rt (w_state fallbackReadyWorld)) !! 1 =
               Some (mkPc "guest-1" CsConnected GsComplete None false))
    by (vm_compute; reflexivity).
  destruct (H H1 (or_intror eq_refl)) as (Hgone & _).
  destruct (G G1 (or_introl eq_refl)) as (_ & _ & _ & _ & _ & Gfb).
  split; [exact Hgone|].
  assert (Gbc : broadcastChannel (prov (w_state fallbackReadyWorld)) = Some "coop-ABCDE")
    by (vm_compute; reflexivity).
  assert (Gf : useLocalFallback (prov (w_state fallbackReadyWorld)) = false)
    by (vm_compute; reflexivity).
  rewrite Gbc, Gf in Gfb. exact (proj1 Gfb).
Defined.

(** ** C9: the host waits for its room, then polls *)

Lemma feed_ended {A} answers (r : Run Task (Susp A)) :
  finished r -> feed answers r = r.
Proof.
  unfold finished. destruct answers as [|a rest]; cbn; [reflexivity|].
  destruct (r_next r); intros H; [reflexivity | destruct H | destruct H].
Qed.

Lemma feed_prefix {A} answers : forall e (r : Run Task (Susp A)),
  feed answers (run_prefix e r) = run_prefix e (feed answers r).
Proof.
  induction answers as [|a rest IH]; intros e r; cbn [feed]; [reflexivity|].
  cbn [run_prefix r_next r_st]. destruct (r_next r) as [x| |req k]; [reflexivity..|].
  rewrite <- IH. f_equal. unfold run_app, run_prefix. cbn. now rewrite app_assoc.
Qed.

Lemma run_prefix_app {A} e1 e2 (r : Run Task (Susp A)) :
  run_prefix e1 (run_prefix e2 r) = run_prefix (e1 ++ e2) r.
Proof. unfold run_prefix. cbn. now rewrite app_assoc. Qed.

(** One round: the lookup is answered with a status that is not OK, the timer
    fires, and the loop is back at its head with one round less. *)
Lemma room_round n (f : unit -> Co unit) st status rest :
  feed (RespHttp false status :: RespVoid :: rest) (bind (waitForRoom (S n)) f st) =
  feed rest (run_prefix (roomRetryEffects (roomCode (prov st))) (bind (waitForRoom n) f st)).
Proof. destruct st as [p r]. reflexivity. Qed.

(** A lookup answered OK ends the wait at once. *)
Lemma room_ready n (f : unit -> Co unit) st status rest :
  feed (RespHttp true status :: rest) (bind (waitForRoom (S n)) f st) =
  feed rest (run_prefix [Issue (FetchRoom (roomCode (prov st)))] (f tt st)).
Proof. destruct st as [p r]. reflexivity. Qed.

Lemma room_rounds n : forall statuses (f : unit -> Co unit) st rest,
  length statuses = n ->
  feed (flat_map roomNotReady statuses ++ rest) (bind (waitForRoom n) f st) =
  feed rest (run_prefix (repeat_list n (roomRetryEffects (roomCode (prov st)))) (f tt st)).
Proof.
  induction n as [|n IH]; intros statuses f st rest Hlen.
  - destruct statuses; [|discriminate]. destruct st as [p r]. reflexivity.
  - destruct statuses as [|s ss]; [discriminate|]. injection Hlen as Hlen.
    cbn [flat_map roomNotReady app]. rewrite room_round, feed_prefix, (IH ss f st rest Hlen).
    rewrite <- feed_prefix, run_prefix_app. reflexivity.
Qed.

(** What [startPolling] does once the wait is over. *)
Lemma start_interval_run st : exists st' forks,
  (id <- setInterval 2000 ;; modP (set_pollingInterval (Some id)) ;; fork pollSignals)%co st =
    mkRun st' (SetInterval (rt_nextRef (rt st)) 2000 :: firstPoll (prov st)) forks (Ret tt) /\
  pollingInterval (prov st') = Some (rt_nextRef (rt st)) /\
  rt_nextRef (rt st) ∈ rt_intervals (rt st').
Proof.
  destruct st as [p r]. unfold setInterval, freshRef, pollSignals, firstPoll. cbn.
  destruct (destroyed p); cbn; eexists _, _; (split; [reflexivity|]);
    (split; [reflexivity | set_solver]).
Qed.

Lemma startPolling_host st :
  isHost (prov st) = true ->
  startPolling st =
  bind (waitForRoom 6)
       (fun _ => id <- setInterval 2000 ;; modP (set_pollingInterval (Some id)) ;;
                 fork pollSignals)%co st.
Proof. destruct st as [p r]. cbn. intros H. unfold startPolling. cbn. rewrite H. reflexivity. Qed.

(** Whatever the lookups answer, short of a network failure, the wait is over
    after at most [n] lookups. *)
Lemma room_wait_ends n : forall answers (f : unit -> Co unit) st,
  Forall not_rejected answers -> 2 * n <= length answers ->
  exists pre rest,
    feed answers (bind (waitForRoom n) f st) = feed rest (run_prefix pre (f tt st)) /\
    room_lookups pre <= n /\
    Forall (fun x => match x with
                     | Issue (FetchRoom _) | Issue (Sleep 500) => True
                     | _ => False
                     end) pre.
Proof.
  induction n as [|n IH]; intros answers f st Hok Hlen.
  - exists [], answers. destruct st as [p r]. split; [reflexivity|]. split; [cbn; lia | constructor].
  - destruct answers as [|a [|b rest]]; cbn in Hlen; try lia.
    inversion Hok as [|? ? Ha Hok']; subst. inversion Hok' as [|? ? Hb Hok'']; subst.
    assert (Hround : forall status,
              feed (RespHttp false status :: b :: rest) (bind (waitForRoom (S n)) f st) =
              feed rest (run_prefix (roomRetryEffects (roomCode (prov st)))
                           (bind (waitForRoom n) f st))).
    { intros status. destruct st as [p r]. reflexivity. }
    assert (Hstep : (exists status, a = RespHttp true status) \/
              feed (a :: b :: rest) (bind (waitForRoom (S n)) f st) =
              feed rest (run_prefix (roomRetryEffects (roomCode (prov st)))
                           (bind (waitForRoom n) f st))).
    { destruct a as [| |[|] status| |]; try (right; destruct st as [p r]; reflexivity).
      - exfalso. apply Ha. reflexivity.
      - left. eauto. }
    destruct Hstep as [(status & ->) | Hstep].
    + exists [Issue (FetchRoom (roomCode (prov st)))], (b :: rest).
      rewrite room_ready. split; [reflexivity|]. split; [cbn; lia|].
      repeat constructor.
    + rewrite Hstep, feed_prefix.
      destruct (IH rest f st Hok'') as (pre & rest' & Hfeed & Hcount & Hshape); [lia|].
      rewrite Hfeed, <- feed_prefix, run_prefix_app.
      exists (roomRetryEffects (roomCode (prov st)) ++ pre), rest'.
      split; [reflexivity|]. split; [cbn; unfold room_lookups in Hcount; lia|].
      repeat constructor. exact Hshape.
Qed.

(** C9.  On the host, [startPolling] whose six room lookups are each answered
    with a status that is not OK looks the room up six times, waits 500 ms
    after each lookup, then sets the 2000 ms polling interval, records it in
    [pollingInterval] and issues the first poll; it ends without throwing.
    More generally, whatever the lookups answer (short of a network failure of
    the lookup itself), polling has started after at most six lookups, with
    nothing but lookups and 500 ms waits before it. *)
Theorem C9_host_room_retry st :
  isHost (prov st) = true ->
  (forall statuses rest, length statuses = 6 ->
     let r := feed (flat_map roomNotReady statuses ++ rest) (startPolling st) in
     r_eff r = repeat_list 6 (roomRetryEffects (roomCode (prov st))) ++
               SetInterval (rt_nextRef (rt st)) 2000 :: firstPoll (prov st) /\
     finished r /\
     pollingInterval (prov (r_st r)) = Some (rt_nextRef (rt st)) /\
     rt_nextRef (rt st) ∈ rt_intervals (rt (r_st r))) /\
  (forall answers, Forall not_rejected answers -> 12 <= length answers ->
     let r := feed answers (startPolling st) in
     exists pre,
       r_eff r = pre ++ SetInterval (rt_nextRef (rt st)) 2000 :: firstPoll (prov st) /\
       room_lookups pre <= 6 /\
       Forall (fun x => match x with
                        | Issue (FetchRoom _) | Issue (Sleep 500) => True
                        | _ => False
                        end) pre /\
       finished r /\
       pollingInterval (prov (r_st r)) = Some (rt_nextRef (rt st))).
Proof.
  intros Hhost. rewrite (startPolling_host st Hhost).
  destruct (start_interval_run st) as (st' & forks & Hrun & Hpi & Hin).
  split.
  - intros statuses rest Hlen r. subst r.
    rewrite (room_rounds 6 statuses _ st rest Hlen), Hrun, feed_ended by exact I.
    cbn [run_prefix r_eff r_st r_next finished]. auto.
  - intros answers Hok Hlen r. subst r.
    destruct (room_wait_ends 6 answers
                (fun _ => id <- setInterval 2000 ;; modP (set_pollingInterval (Some id)) ;;
                          fork pollSignals)%co st Hok)
      as (pre & rest & Hfeed & Hcount & Hshape); [lia|].
    rewrite Hfeed, Hrun, feed_ended by exact I.
    exists pre. cbn [run_prefix r_eff r_st r_next finished]. auto.
Qed.

(** C9, witness: the host of the example, its room not found six times. *)
Lemma C9_witness :
  r_eff (feed (flat_map roomNotReady [404; 404; 404; 404; 404; 404])
           (startPolling (w_state hostWorld))) =
  repeat_list 6 (roomRetryEffects "ABCDE") ++
  [SetInterval 0 2000; Issue (FetchSignals "ABCDE" "host-1" "")].
Proof.
  pose proof (C9_host_room_retry (w_state hostWorld) eq_refl) as [H _].
  specialize (H [404; 404; 404; 404; 404; 404] [] eq_refl).
  rewrite app_nil_r in H. exact (proj1 H).
Defined.

(** ** C5: the offer is sent once, bundled with the candidates *)

Lemma gathering_complete_alter r pc f :
  (forall o, pc_iceGatheringState (f o) = pc_iceGatheringState o) ->
  gathering_complete (set_rt_pcs (alter f pc (rt_pcs r)) r) pc = gathering_complete r pc.
Proof.
  intros Hf. unfold gathering_complete. cbn. rewrite lookup_alter_eq.
  destruct (rt_pcs r !! pc) as [o|]; cbn; [rewrite Hf|]; reflexivity.
Qed.

Lemma offer_phases sig remote st :
  announce_signal remote sig ->
  isHost (prov st) = true ->
  peerConnections (prov st) !! remote = None ->
  let pc := rt_nextRef (rt st) in
  exists st1 K1,
    handleSignal sig st =
      mkRun st1 [NewPeerConnection pc remote; CreateDataChannel pc (S pc); Issue (CreateOffer pc)]
            [] (Await (CreateOffer pc) K1) /\
    rt_pcs (rt st1) !! pc = Some (mkPc remote CsNew GsNew None false) /\
    outgoingIceCandidates (prov st1) = outgoingIceCandidates (prov st) /\
    roomCode (prov st1) = roomCode (prov st) /\
    peerId (prov st1) = peerId (prov st) /\
    forall offer st2, exists K2,
      K1 (RespDesc offer) st2 =
        mkRun st2 [Issue (SetLocalDescription pc offer)] [] (Await (SetLocalDescription pc offer) K2) /\
      forall st3, gathering_complete (rt st3) pc = false -> exists K3,
        K2 RespVoid st3 =
          mkRun (mkState (prov st3) (set_pc pc (fun o => mkPc (pc_remote o) (pc_connectionState o) (pc_iceGatheringState o) (Some offer) (pc_closed o)) (rt st3)))
                [Issue (GatherOrTimeout pc 3000)] [] (Await (GatherOrTimeout pc 3000) K3) /\
        forall resp st4, local_description st4 pc = Some offer -> exists K4,
          K3 resp st4 =
            mkRun st4 [Issue (offer_signal (prov st4) remote offer (default [] (outgoingIceCandidates (prov st4) !! remote)))] []
                  (Await (offer_signal (prov st4) remote offer (default [] (outgoingIceCandidates (prov st4) !! remote))) K4) /\
          forall status st5,
            K4 (RespHttp true status) st5 =
              mkRun (mkState (set_outgoingIceCandidates (delete remote (outgoingIceCandidates (prov st5))) (prov st5)) (rt st5)) [] [] (Ret tt).
Proof.
  intros (Ht & Hf & a & b & Hp) Hhost Hnone pc. subst pc. destruct st as [p r]. cbn in *.
  destruct sig as [ty from to pay ts]. cbn in *. subst.
  unfold handleSignal. cbn. rewrite Hhost.
  unfold createPeerConnection, newPeerConnection, createDataChannel, setupDataChannel, freshRef, await_desc, setLocalDescription, await_ok, waitForIceGathering, localDescription, sendSignal.
  cbn. rewrite Hnone. cbn.
  eexists _, _. split; [reflexivity|]. split; [apply lookup_insert_eq|]. split; [reflexivity|].
  split; [reflexivity|]. split; [reflexivity|].
  intros offer st2. eexists. split; [reflexivity|].
  intros st3 Hg. cbn. rewrite gathering_complete_alter by reflexivity. rewrite Hg. cbn. eexists. split; [reflexivity|].
  intros resp st4 Hld. unfold local_description in Hld. cbn.
  destruct (rt_pcs (rt st4) !! rt_nextRef r) as [o|]; [|discriminate]. rewrite Hld. cbn.
  eexists. split; [reflexivity|].
  intros status st5. reflexivity.
Qed.

Lemma take_task_none t pool : pool_below t pool -> forall t', t <= t' -> take_task t' pool = None.
Proof.
  intros H t' Hle. induction H as [|[i x] l Hx Hl IH]; cbn; [reflexivity|].
  cbn in Hx. destruct (Nat.eqb_spec i t'); [lia|]. now rewrite IH.
Qed.

Lemma take_task_last t pool T :
  pool_below t pool -> take_task t (pool ++ [(t, T)]) = Some (T, pool).
Proof.
  intros H. induction H as [|[i x] l Hx Hl IH]; cbn.
  - now rewrite Nat.eqb_refl.
  - cbn in Hx. destruct (Nat.eqb_spec i t); [lia|]. now rewrite IH.
Qed.

Lemma take_task_last_none t t' pool T :
  pool_below t pool -> t < t' -> take_task t' (pool ++ [(t, T)]) = None.
Proof.
  intros H Hlt. induction H as [|[i x] l Hx Hl IH]; cbn.
  - destruct (Nat.eqb_spec t t'); [lia|]. reflexivity.
  - cbn in Hx. destruct (Nat.eqb_spec i t'); [lia|]. now rewrite IH.
Qed.

Lemma finish_await (r : Run Task Task) w req K :
  r_forks r = [] -> r_next r = Await req K ->
  finish r w = (mkWorld (r_st r) (w_tasks w ++ [(w_nextTask w, Await req K)]) (S (w_nextTask w)), r_eff r).
Proof. intros Hf Hn. unfold finish. rewrite Hf, Hn. cbn. now rewrite app_nil_r. Qed.

Lemma finish_ret (r : Run Task Task) w :
  r_forks r = [] -> r_next r = Ret tt ->
  finish r w = (mkWorld (r_st r) (w_tasks w) (w_nextTask w), r_eff r).
Proof. intros Hf Hn. unfold finish. rewrite Hf, Hn. cbn. now rewrite app_nil_r. Qed.

Lemma resume_all_single i T resp w : resume_all [(i, T)] resp w = resume T resp w.
Proof. cbn [resume_all]. destruct (resume T resp w) as [w1 e1]. now rewrite app_nil_r. Qed.

Lemma settle_last t pool st req K resp :
  pool_below t pool ->
  step (Settle t resp) (mkWorld st (pool ++ [(t, Await req K)]) (S t)) =
  finish (K resp st) (mkWorld st pool (S t)).
Proof.
  intros H. unfold step. cbn [dispatch w_tasks w_state w_nextTask].
  rewrite (take_task_last t pool _ H). apply resume_all_single.
Qed.

Lemma pool_below_mono t t' pool : pool_below t pool -> t <= t' -> pool_below t' pool.
Proof. intros H Hle. eapply Forall_impl; [exact H|]. cbn. intros; lia. Qed.

Lemma candidate_events pc remote o cs : forall p r pool next,
  rt_pcs r !! pc = Some o -> pc_remote o = remote ->
  steps (candidateEvents pc cs) (mkWorld (mkState p r) pool next) =
  (mkWorld (mkState (fold_left (add_candidate remote) cs p) r) pool next, []).
Proof.
  induction cs as [|c cs IH]; intros p r pool next Hpc Hrem; cbn [candidateEvents map steps fold_left].
  - reflexivity.
  - unfold step at 1. cbn [dispatch w_state rt]. rewrite Hpc, Hrem.
    unfold run, finish, onIceCandidate. cbn.
    fold (candidateEvents pc cs). rewrite (IH _ r pool next Hpc Hrem). reflexivity.
Qed.

Lemma add_candidates_lookup remote cs : forall p,
  default [] (outgoingIceCandidates (fold_left (add_candidate remote) cs p) !! remote) =
  default [] (outgoingIceCandidates p !! remote) ++ cs.
Proof.
  induction cs as [|c cs IH]; intros p; cbn [fold_left].
  - now rewrite app_nil_r.
  - rewrite IH. unfold add_candidate. cbn. rewrite lookup_insert_eq. cbn.
    now rewrite <- app_assoc.
Qed.

Lemma add_candidates_frame remote cs : forall p,
  roomCode (fold_left (add_candidate remote) cs p) = roomCode p /\
  peerId (fold_left (add_candidate remote) cs p) = peerId p.
Proof.
  induction cs as [|c cs IH]; intros p; cbn [fold_left]; [auto|].
  destruct (IH (add_candidate remote p c)) as [-> ->]. auto.
Qed.

Lemma filter_waiters_none pc pool :
  no_gather_waiter pc pool ->
  filter (fun e : nat * Task => waits_for_gathering pc e.2 = true) pool = [].
Proof.
  intros H. induction H as [|x l Hx Hl IH]; [reflexivity|]. cbn in Hx.
  rewrite filter_cons. destruct (decide _) as [Hd|Hd]; [congruence | exact IH].
Qed.

Lemma filter_others_all pc pool :
  no_gather_waiter pc pool ->
  filter (fun e : nat * Task => waits_for_gathering pc e.2 <> true) pool = pool.
Proof.
  intros H. induction H as [|x l Hx Hl IH]; [reflexivity|]. cbn in Hx.
  rewrite filter_cons. destruct (decide _) as [Hd|Hd]; [now rewrite IH|].
  exfalso. apply Hd. congruence.
Qed.

Lemma take_task_app_none t' pool i T :
  pool_below t' pool -> i <> t' -> take_task t' (pool ++ [(i, T)]) = None.
Proof.
  intros H Hne. induction H as [|[j x] l Hx Hl IH]; cbn.
  - destruct (Nat.eqb_spec i t'); [congruence | reflexivity].
  - cbn in Hx. destruct (Nat.eqb_spec j t'); [lia|]. now rewrite IH.
Qed.

(** C5.  The host answering an announcement from a peer it has no connection
    to creates the connection and its data channel, asks for an offer and sets
    it as local description, then waits: while the connection reports
    candidates nothing is sent, each candidate is kept in the outgoing buffer.
    The wait ends on the first of the two, the 3000 ms timer or the gathering
    state becoming [complete]; the provider then posts one offer signal that
    carries the local description and every candidate gathered so far, in
    order.  The later of the two does nothing, and when the post is answered the
    outgoing buffer of that peer is cleared. *)
Theorem C5_bundled_offer w sig remote offer cs status wake :
  announce_signal remote sig ->
  isHost (prov (w_state w)) = true ->
  peerConnections (prov (w_state w)) !! remote = None ->
  pool_below (w_nextTask w) (w_tasks w) ->
  no_gather_waiter (rt_nextRef (rt (w_state w))) (w_tasks w) ->
  let p := prov (w_state w) in
  let pc := rt_nextRef (rt (w_state w)) in
  let t := w_nextTask w in
  wake = Settle (S (S t)) RespVoid \/ wake = IceGatheringStateChange pc GsComplete ->
  let started := run (handleSignal sig) w in
  let described := steps [Settle t (RespDesc offer); Settle (S t) RespVoid] started.1 in
  let gathered := steps (candidateEvents pc cs) described.1 in
  let sent := step wake gathered.1 in
  let done := step (Settle (S (S (S t))) (RespHttp true status)) sent.1 in
  started.2 = [NewPeerConnection pc remote; CreateDataChannel pc (S pc); Issue (CreateOffer pc)] /\
  described.2 = [Issue (SetLocalDescription pc offer); Issue (GatherOrTimeout pc 3000)] /\
  gathered.2 = [] /\
  sent.2 = [Issue (offer_signal p remote offer
                     (default [] (outgoingIceCandidates p !! remote) ++ cs))] /\
  (step (Settle (S (S t)) RespVoid) sent.1).2 = [] /\
  (step (IceGatheringStateChange pc GsComplete) sent.1).2 = [] /\
  done.2 = [] /\
  outgoingIceCandidates (prov (w_state done.1)) !! remote = None.
Proof.
  intros Hsig Hhost Hnone Hbelow Hnow. cbv zeta. intros Hwake.
  destruct w as [[p0 r0] pool t0]. cbn [w_state w_tasks w_nextTask prov rt] in *.
  destruct (offer_phases sig remote (mkState p0 r0) Hsig Hhost Hnone)
    as (st1 & K1 & Hrun1 & Hpc1 & Hout1 & Hroom1 & Hpid1 & HK1).
  cbn [rt prov] in *.
  set (pc := rt_nextRef r0) in *.
  destruct (HK1 offer st1) as (K2 & HrunK1 & HK2).
  assert (Hg : gathering_complete (rt st1) pc = false).
  { unfold gathering_complete. now rewrite Hpc1. }
  destruct (HK2 st1 Hg) as (K3 & HrunK2 & HK3).
  (* started *)
  assert (Hstarted : run (handleSignal sig) (mkWorld (mkState p0 r0) pool t0) =
            (mkWorld st1 (pool ++ [(t0, Await (CreateOffer pc) K1)]) (S t0),
             [NewPeerConnection pc remote; CreateDataChannel pc (S pc); Issue (CreateOffer pc)])).
  { unfold run. cbn [w_state]. rewrite Hrun1. apply finish_await; reflexivity. }
  rewrite Hstarted. cbn [fst snd].
  (* described *)
  set (st2 := mkState (prov st1) (set_pc pc (fun o => mkPc (pc_remote o) (pc_connectionState o)
                 (pc_iceGatheringState o) (Some offer) (pc_closed o)) (rt st1))) in *.
  assert (Hdescribed :
    steps [Settle t0 (RespDesc offer); Settle (S t0) RespVoid]
      (mkWorld st1 (pool ++ [(t0, Await (CreateOffer pc) K1)]) (S t0)) =
    (mkWorld st2 (pool ++ [(S (S t0), Await (GatherOrTimeout pc 3000) K3)]) (S (S (S t0))),
     [Issue (SetLocalDescription pc offer); Issue (GatherOrTimeout pc 3000)])).
  { cbn [steps]. rewrite (settle_last t0 pool st1 _ K1 _ Hbelow), HrunK1.
    erewrite finish_await by reflexivity. cbn [w_tasks w_nextTask r_st r_eff].
    rewrite (settle_last (S t0) pool st1 _ K2 _ (pool_below_mono _ _ _ Hbelow (Nat.le_succ_diag_r _))).
    rewrite HrunK2. erewrite finish_await by reflexivity. reflexivity. }
  rewrite Hdescribed. cbn [fst snd].
  (* gathered *)
  assert (Hpc2 : rt_pcs (rt st2) !! pc = Some (mkPc remote CsNew GsNew (Some offer) false)).
  { unfold st2. cbn. rewrite lookup_alter_eq, Hpc1. reflexivity. }
  destruct st2 as [p2 r2] eqn:Est2.
  assert (Hp2 : p2 = prov st1) by (unfold st2 in Est2; congruence).
  cbn [rt] in Hpc2.
  rewrite (candidate_events pc remote _ cs p2 r2 _ _ Hpc2 eq_refl). cbn [fst snd].
  set (p3 := fold_left (add_candidate remote) cs p2).
  assert (Hcands : default [] (outgoingIceCandidates p3 !! remote) =
                   default [] (outgoingIceCandidates p0 !! remote) ++ cs).
  { unfold p3. rewrite add_candidates_lookup, Hp2, Hout1. reflexivity. }
  destruct (add_candidates_frame remote cs p2) as [Hroom3 Hpid3]. fold p3 in Hroom3, Hpid3.
  assert (Hsig3 : forall rr, offer_signal (prov (mkState p3 rr)) remote offer
                    (default [] (outgoingIceCandidates (prov (mkState p3 rr)) !! remote)) =
                  offer_signal p0 remote offer (default [] (outgoingIceCandidates p0 !! remote) ++ cs)).
  { intros rr. cbn [prov]. unfold offer_signal. rewrite Hcands, Hroom3, Hpid3, Hp2, Hroom1, Hpid1.
    reflexivity. }
  assert (Hbelow2 : pool_below (S (S t0)) pool) by (eapply pool_below_mono; [exact Hbelow | lia]).
  assert (Hbelow3 : pool_below (S (S (S t0))) pool) by (eapply pool_below_mono; [exact Hbelow | lia]).
  (* what happens once the wait is over, in a runtime [rr] *)
  assert (Hafter : forall rr o,
    rt_pcs rr !! pc = Some o -> pc_localDescription o = Some offer ->
    exists K4,
      finish (K3 RespVoid (mkState p3 rr)) (mkWorld (mkState p3 rr) pool (S (S (S t0)))) =
        (mkWorld (mkState p3 rr)
           (pool ++ [(S (S (S t0)),
                      Await (offer_signal p0 remote offer
                               (default [] (outgoingIceCandidates p0 !! remote) ++ cs)) K4)])
           (S (S (S (S t0)))),
         [Issue (offer_signal p0 remote offer
                   (default [] (outgoingIceCandidates p0 !! remote) ++ cs))]) /\
      forall Ws, Ws = mkWorld (mkState p3 rr)
           (pool ++ [(S (S (S t0)),
                      Await (offer_signal p0 remote offer
                               (default [] (outgoingIceCandidates p0 !! remote) ++ cs)) K4)])
           (S (S (S (S t0)))) ->
        (step (Settle (S (S t0)) RespVoid) Ws).2 = [] /\
        (step (IceGatheringStateChange pc GsComplete) Ws).2 = [] /\
        (step (Settle (S (S (S t0))) (RespHttp true status)) Ws).2 = [] /\
        outgoingIceCandidates
          (prov (w_state (step (Settle (S (S (S t0))) (RespHttp true status)) Ws).1)) !! remote
          = None).
  { intros rr o Hrr Hld.
    assert (Hl : local_description (mkState p3 rr) pc = Some offer).
    { unfold local_description. cbn. now rewrite Hrr. }
    destruct (HK3 RespVoid (mkState p3 rr) Hl) as (K4 & HrunK3 & HK4).
    rewrite Hsig3 in HrunK3. exists K4. split.
    - rewrite HrunK3. erewrite finish_await by reflexivity. reflexivity.
    - intros Ws ->. split; [|split; [|split]].
      + unfold step. cbn [dispatch w_tasks].
        rewrite take_task_app_none by (auto; lia). reflexivity.
      + unfold step. cbn [dispatch w_state rt w_tasks with_rt with_state]. rewrite Hrr.
        cbn [w_tasks with_rt with_state].
        rewrite !filter_app, filter_waiters_none by exact Hnow. reflexivity.
      + rewrite (settle_last _ pool _ _ K4 _ Hbelow3), HK4. reflexivity.
      + rewrite (settle_last _ pool _ _ K4 _ Hbelow3), HK4. cbn. apply lookup_delete_eq. }
  split; [reflexivity|]. split; [reflexivity|]. split; [reflexivity|].
  destruct Hwake as [-> | ->].
  - rewrite (settle_last _ pool _ _ K3 _ Hbelow2).
    destruct (Hafter r2 _ Hpc2 eq_refl) as (K4 & Hfin & Hrest).
    rewrite Hfin. cbn [fst snd]. split; [reflexivity|].
    apply (Hrest _ eq_refl).
  - set (rr := set_pc pc (fun o => mkPc (pc_remote o) (pc_connectionState o) GsComplete
                                    (pc_localDescription o) (pc_closed o)) r2).
    assert (Hrr : rt_pcs rr !! pc = Some (mkPc remote CsNew GsComplete (Some offer) false))
      by (unfold rr; cbn; rewrite lookup_alter_eq, Hpc2; reflexivity).
    destruct (Hafter rr _ Hrr eq_refl) as (K4 & Hfin & Hrest).
    assert (Hw : waits_for_gathering pc (Await (GatherOrTimeout pc 3000) K3) = true)
      by (cbn; apply Nat.eqb_refl).
    match goal with
    | |- context [step (IceGatheringStateChange pc GsComplete) ?W] =>
        assert (Hsent : step (IceGatheringStateChange pc GsComplete) W =
                  finish (K3 RespVoid (mkState p3 rr))
                         (mkWorld (mkState p3 rr) pool (S (S (S t0)))))
    end.
    { unfold step. cbn [dispatch w_state rt w_tasks with_rt with_state prov]. rewrite Hpc2.
      cbn [w_tasks with_rt with_state w_state w_nextTask prov rt].
      rewrite !filter_app, filter_waiters_none, filter_others_all by exact Hnow.
      rewrite filter_cons_True by exact Hw.
      rewrite filter_cons_False by (cbn [snd]; intros Hne; apply Hne; exact Hw).
      rewrite !filter_nil, app_nil_r. cbn [app]. rewrite resume_all_single. reflexivity. }
    rewrite Hsent, Hfin. cbn [fst snd]. split; [reflexivity|].
    apply (Hrest _ eq_refl).
Qed.

(** C5, witness: the host of the example answers the guest's announcement; two
    candidates are gathered, the timer ends the wait, and the one offer posted
    carries both. *)
Lemma C5_witness :
  (step (Settle 2 RespVoid)
     (steps (candidateEvents 0 exampleCandidates)
        (steps [Settle 0 (RespDesc exampleOffer); Settle 1 RespVoid]
           (run (handleSignal announceFromGuest) hostWorld).1).1).1).2 =
  [Issue (PostSignal "ABCDE" SigOffer "host-1" (Some "guest-1")
            (PayBundle (Some exampleOffer) (Some exampleCandidates)))].
Proof.
  assert (Hsig : announce_signal "guest-1" announceFromGuest)
    by (split; [reflexivity | split; [reflexivity | eexists _, _; reflexivity]]).
  pose proof (C5_bundled_offer hostWorld announceFromGuest "guest-1" exampleOffer
                exampleCandidates 200 (Settle 2 RespVoid) Hsig eq_refl eq_refl
                (List.Forall_nil _) (List.Forall_nil _) (or_introl eq_refl)) as H.
  cbv zeta in H. destruct H as (_ & _ & _ & Hsent & _).
  refine (eq_trans (eq_trans _ Hsent) _); vm_compute; reflexivity.
Defined.

(** ** C4: legacy candidate messages *)

(** One round of a candidate loop: the candidate is applied, and whatever
    [addIceCandidate] settles to, the loop goes on. *)
Lemma add_round_bind pc c cs (f : unit -> Co unit) st a rest :
  feed (a :: rest) (bind (foreach (c :: cs) (tryAddIceCandidate pc)) f st) =
  feed rest (run_prefix [Issue (AddIceCandidate pc c)]
               (bind (foreach cs (tryAddIceCandidate pc)) f st)).
Proof. destruct st as [p r]. destruct a; reflexivity. Qed.

Lemma add_round_try pc c cs (f : unit -> Co unit) h st a rest :
  feed (a :: rest) (try_catch (bind (foreach (c :: cs) (tryAddIceCandidate pc)) f) h st) =
  feed rest (run_prefix [Issue (AddIceCandidate pc c)]
               (try_catch (bind (foreach cs (tryAddIceCandidate pc)) f) h st)).
Proof. destruct st as [p r]. destruct a; reflexivity. Qed.

Lemma add_loop_bind pc cs : forall answers rest (f : unit -> Co unit) st,
  length answers = length cs ->
  feed (answers ++ rest) (bind (foreach cs (tryAddIceCandidate pc)) f st) =
  feed rest (run_prefix (applications pc cs) (f tt st)).
Proof.
  induction cs as [|c cs IH]; intros answers rest f st Hlen.
  - destruct answers; [|discriminate]. destruct st as [p r]. reflexivity.
  - destruct answers as [|a answers]; [discriminate|]. injection Hlen as Hlen.
    cbn [app]. rewrite add_round_bind, feed_prefix, (IH answers rest f st Hlen).
    rewrite <- feed_prefix, run_prefix_app. reflexivity.
Qed.

Lemma add_loop_try pc cs : forall answers rest (f : unit -> Co unit) h st,
  length answers = length cs ->
  feed (answers ++ rest) (try_catch (bind (foreach cs (tryAddIceCandidate pc)) f) h st) =
  feed rest (run_prefix (applications pc cs) (try_catch (f tt) h st)).
Proof.
  induction cs as [|c cs IH]; intros answers rest f h st Hlen.
  - destruct answers; [|discriminate]. destruct st as [p r]. reflexivity.
  - destruct answers as [|a answers]; [discriminate|]. injection Hlen as Hlen.
    cbn [app]. rewrite add_round_try, feed_prefix, (IH answers rest f h st Hlen).
    rewrite <- feed_prefix, run_prefix_app. reflexivity.
Qed.

(** A legacy message for a peer without a connection is put at the end of the
    peer's buffer. *)
Lemma legacy_buffer_run st sig remote :
  legacy_signal remote sig -> peerConnections (prov st) !! remote = None ->
  handleSignal sig st =
  mkRun (mkState (set_pendingIceCandidates
                    (<[remote := buffered st remote ++ legacy_candidates (sig_payload sig)]>
                       (pendingIceCandidates (prov st))) (prov st)) (rt st))
        [] [] (Ret tt).
Proof.
  intros [Ht Hf] Hpc. destruct st as [p r]. unfold handleSignal, handleLegacyIceCandidate.
  rewrite Ht, Hf. cbn in *. rewrite Hpc. reflexivity.
Qed.

Lemma legacy_apply_run st sig remote pc :
  legacy_signal remote sig -> peerConnections (prov st) !! remote = Some pc ->
  handleSignal sig st = foreach (legacy_candidates (sig_payload sig)) (tryAddIceCandidate pc) st.
Proof.
  intros [Ht Hf] Hpc. destruct st as [p r]. unfold handleSignal, handleLegacyIceCandidate.
  rewrite Ht, Hf. cbn in *. rewrite Hpc. cbn.
  now destruct (foreach _ _ _).
Qed.

Lemma buffered_insert st remote cs :
  buffered (mkState (set_pendingIceCandidates
                       (<[remote := cs]> (pendingIceCandidates (prov st))) (prov st)) (rt st))
           remote = cs.
Proof. unfold buffered. cbn. now rewrite lookup_insert_eq. Qed.

(** Messages for a peer without a connection: nothing is applied, the
    candidates are appended to the peer's buffer in the order of arrival. *)
Lemma legacy_buffer_all remote sigs : forall st,
  Forall (legacy_signal remote) sigs -> peerConnections (prov st) !! remote = None ->
  let r := foreach sigs handleSignal st in
  returns r tt /\ r_eff r = [] /\
  buffered (r_st r) remote = buffered st remote ++ carried sigs /\
  peerConnections (prov (r_st r)) = peerConnections (prov st) /\
  rt (r_st r) = rt st.
Proof.
  induction sigs as [|s sigs IH]; intros st Hall Hpc.
  - cbn. unfold returns. cbn. rewrite app_nil_r. auto.
  - inversion Hall as [|? ? Hs Hrest]; subst.
    cbn [foreach bind then_run]. rewrite (legacy_buffer_run st s remote Hs Hpc).
    cbn [r_st r_eff r_forks r_next susp_bind app].
    match goal with |- context [foreach sigs handleSignal ?st1] =>
      destruct (IH st1 Hrest) as ((Hf & Hn) & He & Hb & Hc & Hr); [exact Hpc|]
    end.
    cbv zeta. unfold returns. cbn [r_st r_eff r_forks r_next].
    rewrite Hb, Hc, Hr, buffered_insert. cbn [carried flat_map].
    rewrite <- app_assoc. auto.
Qed.

(** Messages for a peer with a connection: each candidate is applied at once,
    in order; nothing is buffered. *)
Lemma legacy_apply_all remote pc sigs : forall st answers,
  Forall (legacy_signal remote) sigs -> peerConnections (prov st) !! remote = Some pc ->
  length answers = length (carried sigs) ->
  let r := feed answers (foreach sigs handleSignal st) in
  r_eff r = applications pc (carried sigs) /\ finished r /\ r_st r = st.
Proof.
  induction sigs as [|s sigs IH]; intros st answers Hall Hpc Hlen.
  - destruct answers; [|discriminate]. cbn. auto.
  - inversion Hall as [|? ? Hs Hrest]; subst.
    cbn [carried flat_map] in Hlen. rewrite length_app in Hlen. fold (carried sigs) in Hlen.
    rewrite <- (firstn_skipn (length (legacy_candidates (sig_payload s))) answers).
    assert (H1 : length (firstn (length (legacy_candidates (sig_payload s))) answers) =
                 length (legacy_candidates (sig_payload s))) by (rewrite length_firstn; lia).
    assert (H2 : length (skipn (length (legacy_candidates (sig_payload s))) answers) =
                 length (carried sigs)) by (rewrite length_skipn; lia).
    cbn [foreach]. cbn [bind then_run]. rewrite (legacy_apply_run st s remote pc Hs Hpc).
    change (feed ?a _) with
      (feed a (bind (foreach (legacy_candidates (sig_payload s)) (tryAddIceCandidate pc))
                 (fun _ => foreach sigs handleSignal) st)).
    rewrite add_loop_bind by exact H1. rewrite feed_prefix.
    destruct (IH st _ Hrest Hpc H2) as (He & Hfin & Hst).
    cbv zeta. cbn [run_prefix r_eff r_st r_next finished]. rewrite He, Hst.
    split; [|split; [exact Hfin | reflexivity]].
    cbn [carried flat_map]. unfold applications. now rewrite map_app.
Qed.

Lemma add_round_try2 pc c cs (f1 f2 : unit -> Co unit) h st a rest :
  feed (a :: rest)
    (try_catch (bind (bind (foreach (c :: cs) (tryAddIceCandidate pc)) f1) f2) h st) =
  feed rest (run_prefix [Issue (AddIceCandidate pc c)]
               (try_catch (bind (bind (foreach cs (tryAddIceCandidate pc)) f1) f2) h st)).
Proof. destruct st as [p r]. destruct a; reflexivity. Qed.

Lemma add_loop_try2 pc cs : forall answers rest (f1 f2 : unit -> Co unit) h st,
  length answers = length cs ->
  feed (answers ++ rest)
    (try_catch (bind (bind (foreach cs (tryAddIceCandidate pc)) f1) f2) h st) =
  feed rest (run_prefix (applications pc cs) (try_catch (bind (f1 tt) f2) h st)).
Proof.
  induction cs as [|c cs IH]; intros answers rest f1 f2 h st Hlen.
  - destruct answers; [|discriminate]. destruct st as [p r]. reflexivity.
  - destruct answers as [|a answers]; [discriminate|]. injection Hlen as Hlen.
    cbn [app]. rewrite add_round_try2, feed_prefix, (IH answers rest f1 f2 h st Hlen).
    rewrite <- feed_prefix, run_prefix_app. reflexivity.
Qed.

(** The offer of a peer without a connection: the connection is made and the
    remote description set. *)
Lemma offer_opening st sig remote sdp bundled a rest :
  offer_from remote sdp bundled sig -> peerConnections (prov st) !! remote = None ->
  not_rejected a ->
  feed (a :: rest) (handleSignal sig st) =
  feed rest
    (run_prefix [NewPeerConnection (rt_nextRef (rt st)) remote;
                 Issue (SetRemoteDescription (rt_nextRef (rt st)) (ArgInit sdp))]
       (try_catch
          (bind (foreach bundled (tryAddIceCandidate (rt_nextRef (rt st))))
             (fun _ => applyBufferedCandidates sig (rt_nextRef (rt st)) ;;
                       sendAnswer sig (rt_nextRef (rt st))))
          (ret tt) (with_connection remote st))).
Proof.
  intros (Ht & Hf & Hp) Hpc Ha. destruct st as [p r].
  unfold handleSignal, handleOffer, createPeerConnection, newPeerConnection, freshRef.
  rewrite Ht, Hf, Hp. cbn in *. rewrite Hpc.
  destruct a; [exfalso; apply Ha; reflexivity | reflexivity..].
Qed.

(** The buffered candidates are applied in order, then the buffer is deleted;
    an empty buffer is left as it is. *)
Lemma buffered_flush st sig pc answers rest (f : unit -> Co unit) h :
  length answers = length (buffered st (sig_from sig)) ->
  exists st',
    feed (answers ++ rest) (try_catch (bind (applyBufferedCandidates sig pc) f) h st) =
    feed rest (run_prefix (applications pc (buffered st (sig_from sig)))
                 (try_catch (f tt) h st')) /\
    buffered st' (sig_from sig) = [] /\
    peerConnections (prov st') = peerConnections (prov st) /\ rt st' = rt st.
Proof.
  intros Hlen. unfold buffered in *.
  destruct (default [] (pendingIceCandidates (prov st) !! sig_from sig)) as [|c cs] eqn:Hbuf.
  - exists st. destruct answers; [|discriminate]. split; [|auto].
    destruct st as [p r]. unfold applyBufferedCandidates. cbn in *. rewrite Hbuf. reflexivity.
  - exists (without_buffer (sig_from sig) st). split.
    + transitivity
        (feed (answers ++ rest)
           (try_catch
              (bind (bind (foreach (c :: cs) (tryAddIceCandidate pc))
                       (fun _ => modP (fun p => set_pendingIceCandidates
                                   (delete (sig_from sig) (pendingIceCandidates p)) p)))
                 f) h st)).
      * destruct st as [p r]. unfold applyBufferedCandidates. cbn in *. rewrite Hbuf. reflexivity.
      * rewrite add_loop_try2 by exact Hlen. destruct st as [p r]. reflexivity.
    + unfold without_buffer. cbn. rewrite lookup_delete_eq. auto.
Qed.

Lemma sendAnswer_waits sig pc h st :
  try_catch (sendAnswer sig pc) h st =
  mkRun st [Issue (CreateAnswer pc)] [] (r_next (try_catch (sendAnswer sig pc) h st)) /\
  waits_for (try_catch (sendAnswer sig pc) h st) (CreateAnswer pc).
Proof. destruct st as [p r]. split; reflexivity. Qed.

(** C4 (amended).  Legacy [ice-candidate] messages of a peer without a
    connection are appended to the buffer kept under the peer's id, in the
    order of arrival, and nothing is applied.  The buffer is applied when an
    offer of that peer is handled: the connection is made, the remote
    description set, the candidates bundled with the offer applied, then the
    buffered ones in the order of arrival, and the buffer is deleted before
    the answer is created.  Messages of a peer that has a connection are
    applied at once, in order, and leave the state as it is. *)
Theorem C4_legacy_candidates st remote :
  (peerConnections (prov st) !! remote = None ->
   forall sigs, Forall (legacy_signal remote) sigs ->
     let r := foreach sigs handleSignal st in
     returns r tt /\ r_eff r = [] /\
     buffered (r_st r) remote = buffered st remote ++ carried sigs /\
     peerConnections (prov (r_st r)) = peerConnections (prov st) /\
     rt (r_st r) = rt st) /\
  (peerConnections (prov st) !! remote = None ->
   forall sig sdp bundled a answers_b answers_p,
     offer_from remote sdp bundled sig -> not_rejected a ->
     length answers_b = length bundled ->
     length answers_p = length (buffered st remote) ->
     let pc := rt_nextRef (rt st) in
     let r := feed (a :: answers_b ++ answers_p) (handleSignal sig st) in
     r_eff r = NewPeerConnection pc remote :: Issue (SetRemoteDescription pc (ArgInit sdp)) ::
               applications pc bundled ++ applications pc (buffered st remote) ++
               [Issue (CreateAnswer pc)] /\
     waits_for r (CreateAnswer pc) /\
     peerConnections (prov (r_st r)) !! remote = Some pc /\
     buffered (r_st r) remote = []) /\
  (forall pc, peerConnections (prov st) !! remote = Some pc ->
   forall sigs answers, Forall (legacy_signal remote) sigs ->
     length answers = length (carried sigs) ->
     let r := feed answers (foreach sigs handleSignal st) in
     r_eff r = applications pc (carried sigs) /\ finished r /\ r_st r = st).
Proof.
  split; [|split].
  - intros Hpc sigs Hall. exact (legacy_buffer_all remote sigs st Hall Hpc).
  - intros Hpc sig sdp bundled a answers_b answers_p Hoff Ha Hb Hp pc r. subst r.
    pose proof Hoff as (_ & Hfrom & _).
    rewrite (offer_opening st sig remote sdp bundled a _ Hoff Hpc Ha).
    rewrite feed_prefix, add_loop_try by exact Hb.
    assert (Hbuf : buffered (with_connection remote st) (sig_from sig) = buffered st remote)
      by (rewrite Hfrom; reflexivity).
    destruct (buffered_flush (with_connection remote st) sig pc answers_p []
                (fun _ => sendAnswer sig pc) (ret tt)) as (st' & Hfeed & Hempty & Hpcs & Hrt).
    { rewrite Hbuf. exact Hp. }
    rewrite <- (app_nil_r answers_p). fold pc. rewrite feed_prefix, Hfeed, Hbuf.
    destruct (sendAnswer_waits sig pc (ret tt) st') as [Hrun Hwait]. 
    cbn [feed run_prefix r_eff r_st r_next waits_for].
    rewrite Hrun. cbn [r_eff r_st r_next]. 
    split; [reflexivity|]. split; [exact Hwait|].
    rewrite Hpcs, <- Hfrom. split; [|exact Hempty].
    rewrite Hfrom. unfold with_connection. cbn. apply lookup_insert_eq.
  - intros pc Hpc sigs answers Hall Hlen. exact (legacy_apply_all remote pc sigs st answers Hall Hpc Hlen).
Qed.


(** C4, witness: the guest buffers two legacy candidates of the host, then
    handles the host's offer. *)
Lemma C4_witness :
  buffered (afterLegacy "host-1" guestWorld) "host-1" = exampleCandidates /\
  r_eff (feed [RespVoid; RespVoid; RespVoid; RespVoid]
           (handleSignal offerFromHost (afterLegacy "host-1" guestWorld))) =
  [NewPeerConnection 0 "host-1"; Issue (SetRemoteDescription 0 (ArgInit exampleOffer));
   Issue (AddIceCandidate 0 (CandInit "c0"));
   Issue (AddIceCandidate 0 (CandInit "c1")); Issue (AddIceCandidate 0 (CandInit "c2"));
   Issue (CreateAnswer 0)].
Proof.
  pose proof (C4_legacy_candidates (w_state guestWorld) "host-1") as (HA & _ & _).
  specialize (HA eq_refl (map (legacyFrom "host-1") exampleCandidates)).
  cbv zeta in HA. destruct HA as (_ & _ & Hbuf & _).
  { repeat constructor. }
  split; [exact Hbuf|].
  pose proof (C4_legacy_candidates (afterLegacy "host-1" guestWorld) "host-1") as (_ & HB & _).
  assert (Hpc : peerConnections (prov (afterLegacy "host-1" guestWorld)) !! "host-1" = None)
    by (vm_compute; reflexivity).
  assert (Hoff : offer_from "host-1" exampleOffer [CandInit "c0"] offerFromHost)
    by (repeat split).
  assert (Hok : not_rejected RespVoid) by discriminate.
  specialize (HB Hpc offerFromHost exampleOffer [CandInit "c0"] RespVoid [RespVoid]
                [RespVoid; RespVoid] Hoff Hok eq_refl).
  cbv zeta in HB. destruct HB as (Heff & _).
  { vm_compute; reflexivity. }
  refine (eq_trans Heff _). vm_compute. reflexivity.
Defined.

(** C4, counterexample: the host holds two legacy candidates of the guest when
    the guest's announcement makes it create the connection.  The offer is
    sent and the answer handled, no candidate is ever applied, and the buffer
    stays as it was. *)
Lemma C4_counterexample :
  buffered (afterLegacy "guest-1" hostWorld) "guest-1" = exampleCandidates /\
  peerConnections (prov (afterLegacy "guest-1" hostWorld)) !! "guest-1" = None /\
  peerConnections (prov (r_st hostOffersAfterLegacy)) !! "guest-1" = Some 0 /\
  finished hostOffersAfterLegacy /\ finished hostGetsAnswer /\
  List.filter is_application (r_eff hostOffersAfterLegacy ++ r_eff hostGetsAnswer) = [] /\
  r_eff hostGetsAnswer = [Issue (SetRemoteDescription 0 (ArgInit exampleAnswer))] /\
  buffered (r_st hostGetsAnswer) "guest-1" = exampleCandidates.
Proof. vm_compute. repeat split. Qed.

(** ** C6: polling stops with the first connection *)


Lemma Quiet_shrink a e b :
  no_poll e -> rt_intervals (rt b) ⊆ rt_intervals (rt a) ->
  pollingInterval (prov b) = pollingInterval (prov a) ->
  Quiet a e b.
Proof.
  intros He Hsub Hpi. split; [exact He|]. split; [exact Hsub|]. split; [congruence|].
  intros Hl id Hid. rewrite Hpi. apply Hl. apply Hsub. exact Hid.
Qed.

Lemma no_poll_app e1 e2 : no_poll e1 -> no_poll e2 -> no_poll (e1 ++ e2).
Proof. intros H1 H2. apply Forall_app. split; assumption. Qed.

#[local] Instance Quiet_rel : StepRel Quiet.
Proof.
  split.
  - intros st. apply Quiet_shrink; [constructor | reflexivity | reflexivity].
  - intros a e1 b e2 c (N1 & S1 & P1 & L1) (N2 & S2 & P2 & L2).
    split; [apply no_poll_app; assumption|]. split; [set_solver|]. split; auto.
  - intros st. apply Quiet_shrink; [repeat constructor | reflexivity | reflexivity].
Qed.

Lemma linked_cleared p r id :
  pollingInterval p = Some id -> linked (mkState p r) ->
  linked (mkState (set_pollingInterval None p) (set_rt_intervals (rt_intervals r ∖ {[id]}) r)).
Proof.
  intros Hpi Hl id' Hid'. exfalso. unfold linked in Hl. cbn in Hl, Hid'.
  apply elem_of_difference in Hid' as [Hin Hne]. specialize (Hl id' Hin).
  rewrite Hpi in Hl. injection Hl as ->. apply Hne. apply elem_of_singleton. reflexivity.
Qed.

Ltac quiet_leaf :=
  let p := fresh "p" in
  let r := fresh "r" in
  intros [p r]; apply Quiet_shrink; [repeat constructor | cbn; set_solver | reflexivity].

Lemma stopPollingIfConnected_quiet : co_sat Quiet stopPollingIfConnected.
Proof.
  intros [p r]. unfold stopPollingIfConnected, clearInterval. cbn -[Nat.ltb].
  destruct (pollingInterval p) as [id|] eqn:Hpi; cbn -[Nat.ltb].
  - destruct (0 <? size (connectedPeers p)); cbn; apply run_sat_sync.
    + split; [repeat constructor|]. cbn.
      split; [intros x Hx; apply elem_of_difference in Hx; apply Hx|]. split; [congruence|].
      apply linked_cleared; exact Hpi.
    + apply rel_refl.
  - apply run_sat_sync. apply rel_refl.
Qed.

#[local] Hint Resolve stopPollingIfConnected_quiet : sat_db.

(** The part of [destroy] that clears the interval, followed by the rest. *)
Lemma clear_polling_quiet (rest : Co unit) :
  co_sat Quiet rest ->
  co_sat Quiet (interval <- getP pollingInterval ;;
                match interval with
                | Some id => clearInterval id ;; modP (set_pollingInterval None)
                | None => ret tt
                end ;; rest).
Proof.
  intros Hrest [p r]. unfold clearInterval. cbn.
  destruct (pollingInterval p) as [id|] eqn:Hpi; cbn.
  - match goal with |- context [rest ?s] => destruct (Hrest s) as (HR & HF & HN) end.
    split; [|split; [exact HF | exact HN]]. cbn.
    change (ClearInterval id :: ?e) with ([ClearInterval id] ++ e).
    eapply rel_trans; [|exact HR].
    split; [repeat constructor|]. cbn.
      split; [intros x Hx; apply elem_of_difference in Hx; apply Hx|]. split; [congruence|].
    apply linked_cleared; exact Hpi.
  - destruct (Hrest (mkState p r)) as (HR & HF & HN). split; [exact HR|]. split; assumption.
Qed.

Lemma destroy_quiet : co_sat Quiet destroy.
Proof.
  unfold destroy. rule co_sat_bind; [rule co_sat_getP|]. intros d. destruct d; [rule co_sat_ret|].
  rule co_sat_bind; [rule co_sat_modP; quiet_leaf|]. intros _.
  apply clear_polling_quiet. sat_go quiet_leaf.
Qed.

#[local] Hint Resolve destroy_quiet : sat_db.

Lemma handlers_quiet ev w w1 c :
  not_connect ev -> is_tick ev = false -> dispatch ev w = ActRun w1 c -> co_sat Quiet c.
Proof.
  intros Hc Ht Hd. destruct ev; try discriminate; try (exfalso; apply Hc; reflexivity);
    dispatch_cases Hd; sat_go quiet_leaf.
Qed.

(** *** The pool along a step *)

Section PoolKeeps.

Context (R : State -> list Effect -> State -> Prop) `{!StepRel R}.
Variable P : list (nat * Task) -> Prop.
Hypothesis P_app : forall pool i t, P pool -> sat R unit t -> P (pool ++ [(i, t)]).

Lemma register_keeps ts : forall pool next,
  Forall (sat R unit) ts -> P pool ->
  P (register ts pool next).1.1 /\ forall st, R st (register ts pool next).2 st.
Proof.
  induction ts as [|t ts IH]; intros pool next Hts Hpool; cbn [register].
  - split; [exact Hpool | intros; apply rel_refl].
  - inversion Hts as [|? ? Ht Hts']; subst. destruct t as [a| |req k].
    + apply IH; auto.
    + specialize (IH pool next Hts' Hpool).
      destruct (register ts pool next) as [[pool' next'] e]; cbn in *.
      destruct IH as [IH1 IH2]. split; auto.
      intros st. change (Uncaught :: e) with ([Uncaught] ++ e).
      eapply rel_trans; [apply rel_uncaught | apply IH2].
    + apply IH; auto.
Qed.

Lemma finish_keeps (r : Run Task Task) w :
  run_sat R (w_state w) r -> P (w_tasks w) ->
  P (w_tasks (finish r w).1) /\ R (w_state w) (finish r w).2 (w_state (finish r w).1).
Proof.
  intros (H1 & H2 & H3) Hp. unfold finish.
  assert (Hts : Forall (sat R unit) (r_forks r ++ [r_next r])).
  { apply Forall_app; split; auto. }
  pose proof (register_keeps _ (w_tasks w) (w_nextTask w) Hts Hp) as [Ha Hb].
  destruct (register (r_forks r ++ [r_next r]) (w_tasks w) (w_nextTask w)) as [[pool next] e].
  cbn in *. split; [exact Ha|]. eapply rel_trans; eauto.
Qed.

Lemma resume_keeps t resp w :
  sat R unit t -> P (w_tasks w) ->
  P (w_tasks (resume t resp w).1) /\
  R (w_state w) (resume t resp w).2 (w_state (resume t resp w).1).
Proof.
  intros Ht Hp. destruct t as [a| |req k]; cbn [resume].
  - split; [exact Hp | apply rel_refl].
  - split; [exact Hp | apply rel_refl].
  - apply finish_keeps; auto.
    destruct (sat_await_inv R _ _ _ Ht) as (HR & HF & HN).
    split; [|split]; auto.
Qed.

Lemma resume_all_keeps ts resp : forall w,
  Forall (fun it => sat R unit it.2) ts -> P (w_tasks w) ->
  P (w_tasks (resume_all ts resp w).1) /\
  R (w_state w) (resume_all ts resp w).2 (w_state (resume_all ts resp w).1).
Proof.
  induction ts as [|[i t] ts IH]; intros w Hts Hp; cbn [resume_all].
  - split; [exact Hp | apply rel_refl].
  - inversion Hts as [|? ? Ht Hts']; subst. cbn in Ht.
    pose proof (resume_keeps t resp w Ht Hp) as [Ha Hb].
    destruct (resume t resp w) as [w1 e1]; cbn in *.
    specialize (IH w1 Hts' Ha). destruct (resume_all ts resp w1) as [w2 e2]; cbn in *.
    destruct IH as [IHa IHb]. split; auto. eapply rel_trans; eauto.
Qed.

End PoolKeeps.

Lemma quiet_pool_app pool i t :
  quiet_pool pool -> sat Quiet unit t -> quiet_pool (pool ++ [(i, t)]).
Proof. intros Hp Ht. apply Forall_app. split; [exact Hp | repeat constructor; exact Ht]. Qed.

Lemma one_starter_app pool i t :
  one_starter pool -> sat Quiet unit t -> one_starter (pool ++ [(i, t)]).
Proof.
  intros (l1 & x & l2 & -> & Hx & H1 & H2) Ht.
  exists l1, x, (l2 ++ [(i, t)]). rewrite <- app_assoc. split; [reflexivity|].
  split; [exact Hx|]. split; [exact H1 | apply quiet_pool_app; assumption].
Qed.

Lemma starter_not_gathering pc t : starter t -> waits_for_gathering pc t = false.
Proof. intros H. destruct H as [req k Hreq _]. destruct req; cbn in *; tauto. Qed.

Lemma take_task_quiet id pool t rest :
  take_task id pool = Some (t, rest) -> quiet_pool pool ->
  sat Quiet unit t /\ quiet_pool rest.
Proof. apply (take_task_sat Quiet). Qed.

Lemma take_task_one_starter id : forall pool t rest,
  take_task id pool = Some (t, rest) -> one_starter pool ->
  (starter t /\ quiet_pool rest) \/ (sat Quiet unit t /\ one_starter rest).
Proof.
  intros pool t rest Htake (l1 & x & l2 & -> & Hx & H1 & H2).
  revert t rest Htake. induction H1 as [|[i u] l1 Hu H1 IH]; intros t rest Htake; cbn in Htake.
  - destruct x as [i u]. cbn in *. destruct (Nat.eqb i id).
    + inversion Htake; subst. left. auto.
    + destruct (take_task id l2) as [[t' rest']|] eqn:E; [|discriminate].
      inversion Htake; subst. destruct (take_task_quiet _ _ _ _ E H2) as [Ht Hr].
      right. split; [exact Ht|]. exists [], (i, u), rest'.
      split; [reflexivity|]. split; [exact Hx|]. split; [constructor | exact Hr].
  - cbn in Hu. destruct (Nat.eqb i id).
    + inversion Htake; subst. right. split; [exact Hu|]. exists l1, x, l2.
      split; [reflexivity|]. split; [exact Hx|]. split; assumption.
    + match type of Htake with
      | context [take_task id ?l] => destruct (take_task id l) as [[t' rest']|] eqn:E
      end; [|discriminate].
      inversion Htake; subst. destruct (IH _ _ eq_refl) as [[Ha Hb] | [Ha Hb]].
      * left. split; [exact Ha|]. constructor; assumption.
      * right. split; [exact Ha|]. destruct Hb as (m1 & y & m2 & -> & Hy & M1 & M2).
        exists ((i, u) :: m1), y, m2.
        split; [reflexivity|]. split; [exact Hy|]. split; [constructor; assumption | exact M2].
Qed.

Lemma filter_one_starter pc pool :
  one_starter pool ->
  quiet_pool (filter (fun e => waits_for_gathering pc e.2 = true) pool) /\
  one_starter (filter (fun e => waits_for_gathering pc e.2 <> true) pool).
Proof.
  intros (l1 & x & l2 & -> & Hx & H1 & H2).
  pose proof (starter_not_gathering pc _ Hx) as Hno.
  rewrite !filter_app, !filter_cons.
  destruct (decide (waits_for_gathering pc x.2 = true)) as [Hy|Hn]; [congruence|].
  destruct (decide (waits_for_gathering pc x.2 <> true)) as [_|Hn']; [|contradiction].
  split.
  - apply Forall_app. split; apply pool_filter_sat; assumption.
  - eexists _, x, _. split; [reflexivity|]. split; [exact Hx|].
    split; apply pool_filter_sat; assumption.
Qed.

(** *** What [dispatch] hands to the handler *)

Lemma dispatch_run_inv ev w w1 c :
  dispatch ev w = ActRun w1 c ->
  w_tasks w1 = w_tasks w /\ prov (w_state w1) = prov (w_state w) /\
  rt_intervals (rt (w_state w1)) = rt_intervals (rt (w_state w)).
Proof. intros Hd. destruct ev; dispatch_cases Hd; repeat split; reflexivity. Qed.

Lemma dispatch_resume_inv ev w w1 ts resp :
  dispatch ev w = ActResume w1 ts resp ->
  w_state w1 = w_state w \/
  (prov (w_state w1) = prov (w_state w) /\
   rt_intervals (rt (w_state w1)) = rt_intervals (rt (w_state w))).
Proof. intros Hd. destruct ev; dispatch_cases Hd; auto. Qed.

Lemma dispatch_resume_pool ev w w1 ts resp :
  dispatch ev w = ActResume w1 ts resp ->
  (exists id t, take_task id (w_tasks w) = Some (t, w_tasks w1) /\ ts = [(id, t)]) \/
  (exists pc, ts = filter (fun e => waits_for_gathering pc e.2 = true) (w_tasks w) /\
              w_tasks w1 = filter (fun e => waits_for_gathering pc e.2 <> true) (w_tasks w)).
Proof.
  intros Hd. destruct ev; dispatch_cases Hd.
  - left. eauto.
  - right. eauto.
Qed.

Lemma dispatch_tick_stopped id w :
  rt_intervals (rt (w_state w)) = ∅ -> dispatch (IntervalTick id) w = ActNone.
Proof.
  intros H. cbn. rewrite H. reflexivity.
Qed.

(** *** The poll *)

Lemma handleSignal_quiet s : co_sat Quiet (handleSignal s).
Proof. sat_go quiet_leaf. Qed.

#[local] Hint Resolve handleSignal_quiet : sat_db.

(** A poll leaves the state as it is until the relay answers, and what it
    does with the answer is no polling. *)
Lemma pollSignals_head st :
  r_st (pollSignals st) = st /\ r_forks (pollSignals st) = [] /\
  sat Quiet unit (r_next (pollSignals st)).
Proof.
  destruct st as [p r]. unfold pollSignals. cbn.
  destruct (destroyed p); cbn; [repeat split; constructor|].
  split; [reflexivity|]. split; [reflexivity|].
  assert (H : forall resp,
             co_sat Quiet
               (try_catch
                  (match resp with
                   | RespReject => throw
                   | RespPoll signals lastSeen =>
                       modP (set_lastSeenSignals lastSeen) ;; foreach signals handleSignal
                   | _ => ret tt
                   end) (ret tt))).
  { intros resp. sat_go quiet_leaf. }
  apply sat_await; intros resp st'; destruct (H resp st') as (H1 & H2 & H3).
  - exact H1.
  - exact H2.
  - exact H3.
Qed.

(** *** The start of polling *)

Lemma stopped_linked st : stopped st -> linked st.
Proof. intros [_ H] id Hid. rewrite H in Hid. exfalso. exact (not_elem_of_empty _ Hid). Qed.

Lemma Quiet_stopped a e b : Quiet a e b -> stopped a -> stopped b.
Proof.
  intros (_ & Hsub & Hpi & _) [H1 H2]. split; [auto|].
  apply leibniz_equiv. apply elem_of_equiv_empty. intros x Hx.
  apply Hsub in Hx. rewrite H2 in Hx. exact (not_elem_of_empty _ Hx).
Qed.

(** Once the wait is over the interval is set and recorded, and the first
    poll is under way. *)
Lemma start_interval_linked st :
  stopped st ->
  let r := (id <- setInterval 2000 ;; modP (set_pollingInterval (Some id)) ;;
            fork pollSignals)%co st in
  Forall (sat Quiet unit) (r_forks r) /\ sat Quiet unit (r_next r) /\ linked (r_st r).
Proof.
  destruct st as [p r]. intros [_ Hint]. cbn in Hint. unfold setInterval, freshRef. cbn.
  match goal with
  | |- context [pollSignals ?s] => destruct (pollSignals_head s) as (Hst & Hf & Hn)
  end.
  rewrite Hst, Hf. cbn. split; [repeat constructor; exact Hn|]. split; [constructor|].
  intros id Hid. cbn in *. rewrite Hint in Hid.
  apply elem_of_union in Hid as [Hid | Hid].
  - apply elem_of_singleton in Hid. now subst.
  - exfalso. exact (not_elem_of_empty _ Hid).
Qed.

Lemma room_wait_starter n : forall st,
  stopped st ->
  let r := bind (waitForRoom n)
             (fun _ => id <- setInterval 2000 ;; modP (set_pollingInterval (Some id)) ;;
                       fork pollSignals)%co st in
  Forall (sat Quiet unit) (r_forks r) /\
  ((sat Quiet unit (r_next r) /\ linked (r_st r)) \/
   (starter (r_next r) /\ stopped (r_st r))).
Proof.
  induction n as [|n IH]; intros st Hst; cbv zeta.
  - destruct (start_interval_linked st Hst) as (H1 & H2 & H3).
    destruct st as [p r]. split; [exact H1|]. left. split; [exact H2 | exact H3].
  - destruct st as [p r]. split; [constructor|]. right. split; [|exact Hst].
    lazymatch goal with
    | |- starter ?t => let t' := eval hnf in t in change (starter t')
    end.
    apply starter_wait; [exact I|]. intros resp st' Hst'.
    assert (Hsleep : forall k,
              (forall resp' st'', stopped st'' ->
                 Forall (sat Quiet unit) (r_forks (k resp' st'')) /\
                 ((sat Quiet unit (r_next (k resp' st'')) /\ linked (r_st (k resp' st''))) \/
                  (starter (r_next (k resp' st'')) /\ stopped (r_st (k resp' st''))))) ->
              Forall (sat Quiet unit) (@nil Task) /\
              ((sat Quiet unit (Await (Sleep 500) k) /\ linked st') \/
               (starter (Await (Sleep 500) k) /\ stopped st'))).
    { intros k Hk. split; [constructor|]. right. split; [|exact Hst'].
      apply starter_wait; [exact I | exact Hk]. }
    destruct resp as [| |[|] status| |].
    + split; [constructor|]. left. split; [constructor | apply stopped_linked; exact Hst'].
    + refine (Hsleep _ _). intros resp' st'' Hst''. exact (IH st'' Hst'').
    + destruct (start_interval_linked st' Hst') as (H1 & H2 & H3).
      exact (conj H1 (or_introl (conj H2 H3))).
    + refine (Hsleep _ _). intros resp' st'' Hst''. exact (IH st'' Hst'').
    + refine (Hsleep _ _). intros resp' st'' Hst''. exact (IH st'' Hst'').
    + refine (Hsleep _ _). intros resp' st'' Hst''. exact (IH st'' Hst'').
Qed.

Lemma startPolling_run st :
  stopped st ->
  Forall (sat Quiet unit) (r_forks (startPolling st)) /\
  ((sat Quiet unit (r_next (startPolling st)) /\ linked (r_st (startPolling st))) \/
   (starter (r_next (startPolling st)) /\ stopped (r_st (startPolling st)))).
Proof.
  intros Hst. destruct (isHost (prov st)) eqn:Hh.
  - rewrite (startPolling_host st Hh). exact (room_wait_starter 6 st Hst).
  - destruct (start_interval_linked st Hst) as (H1 & H2 & H3).
    destruct st as [p r]. cbn in Hh. unfold startPolling. cbn. rewrite Hh.
    exact (conj H1 (or_introl (conj H2 H3))).
Qed.

Lemma startSignalPolling_run st :
  pollingInterval (prov st) = None ->
  startSignalPolling st =
  mkRun (r_st (startPolling st)) (r_eff (startPolling st))
        (r_forks (startPolling st) ++ [r_next (startPolling st)]) (Ret tt).
Proof. destruct st as [p r]. cbn. intros H. unfold startSignalPolling. cbn. rewrite H. reflexivity. Qed.

Lemma notifyPlayersChange_quiet : co_sat Quiet notifyPlayersChange.
Proof. sat_go quiet_leaf. Qed.

Lemma enableLocalFallback_quiet : co_sat Quiet enableLocalFallback.
Proof. sat_go quiet_leaf. Qed.

Lemma announce_tail_quiet :
  co_sat Quiet (host <- getP isHost ;; if negb host then announcePresence else ret tt).
Proof. sat_go quiet_leaf. Qed.

(** [connect()] while polling is stopped: afterwards polling runs, or is
    stopped for good (a destroyed provider, the loopback path), or one call
    waits for the room. *)
Lemma connect_run st :
  stopped st ->
  let r := connect st in
  sat Quiet unit (r_next r) /\
  ((linked (r_st r) /\ Forall (sat Quiet unit) (r_forks r)) \/
   (stopped (r_st r) /\
    exists l1 t l2, r_forks r = l1 ++ t :: l2 /\ starter t /\
                    Forall (sat Quiet unit) l1 /\ Forall (sat Quiet unit) l2)).
Proof.
  intros Hst. cbv zeta. destruct st as [p r]. unfold connect. cbn.
  destruct (destroyed p); cbn.
  { split; [constructor|]. left. split; [apply stopped_linked; exact Hst | constructor]. }
  assert (Hpre : exists r',
            r_st (notifyPlayersChange (mkState p r)) = mkState p r' /\
            r_forks (notifyPlayersChange (mkState p r)) = [] /\
            r_next (notifyPlayersChange (mkState p r)) = Ret tt /\
            stopped (mkState p r')).
  { destruct (notifyPlayersChange_run (mkState p r)) as (r' & e & Hrun & _).
    pose proof (notifyPlayersChange_quiet (mkState p r)) as (HQ & _ & _).
    rewrite Hrun in *. cbn in *. exists r'. repeat split; auto.
    - apply (Quiet_stopped _ _ _ HQ Hst).
    - apply (Quiet_stopped _ _ _ HQ Hst). }
  destruct Hpre as (r' & Hs & Hf & Hn & Hst1).
  destruct (onConnectionChange (options p)); cbn; rewrite Hs, Hf, Hn; cbn.
  all: destruct (rt_localhost r'); cbn.
  all: try (match goal with
            | |- context [enableLocalFallback ?s] =>
                destruct (enableLocalFallback_quiet s) as (H1 & H2 & H3)
            end;
            split; [exact H3|]; left; split; [|exact H2];
            apply stopped_linked; apply (Quiet_stopped _ _ _ H1 Hst1)).
  all: rewrite (startSignalPolling_run (mkState p r') (proj1 Hst1)); cbn.
  all: destruct (startPolling_run (mkState p r') Hst1) as (Hforks & Hnext).
  all: match goal with
       | |- context [announcePresence] =>
           pose proof (announce_tail_quiet (r_st (startPolling (mkState p r')))) as (T1 & T2 & T3)
       end.
  all: cbn in T1, T2, T3.
  all: split; [exact T3|].
  all: destruct Hnext as [[Hq Hl] | [Hs' Hstop]].
  all: try (left; split; [destruct T1 as (_ & _ & _ & T1); apply T1; exact Hl|];
            apply Forall_app; split; [|exact T2];
            apply Forall_app; split; [exact Hforks | repeat constructor; exact Hq]).
  all: right; split; [apply (Quiet_stopped _ _ _ T1 Hstop)|].
  all: eexists _, _, _; split; [rewrite <- app_assoc; reflexivity|].
  all: split; [exact Hs'|]; split; [exact Hforks | exact T2].
Qed.

(** *** The three phases along the event loop *)

Lemma finish_state (r : Run Task Task) w : w_state (finish r w).1 = r_st r.
Proof. unfold finish. destruct (register _ _ _) as [[pool next] e]. reflexivity. Qed.

Lemma finish_quiet_pool (r : Run Task Task) w :
  Forall (sat Quiet unit) (r_forks r) -> sat Quiet unit (r_next r) -> quiet_pool (w_tasks w) ->
  quiet_pool (w_tasks (finish r w).1).
Proof.
  intros Hf Hn Hp. unfold finish.
  assert (Hts : Forall (sat Quiet unit) (r_forks r ++ [r_next r])).
  { apply Forall_app; split; auto. }
  pose proof (register_sat Quiet _ (w_tasks w) (w_nextTask w) Hts Hp) as [Ha _].
  destruct (register _ _ _) as [[pool next] e]. exact Ha.
Qed.

Lemma register_starter l1 : forall pool next t l2,
  Forall (sat Quiet unit) l1 -> quiet_pool pool -> starter t -> Forall (sat Quiet unit) l2 ->
  one_starter (register (l1 ++ t :: l2) pool next).1.1.
Proof.
  induction l1 as [|a l1 IH]; intros pool next t l2 H1 Hp Ht H2.
  - cbn [app register]. destruct Ht as [req k Hreq Hk].
    apply (register_keeps Quiet one_starter one_starter_app); [exact H2|].
    exists pool, (next, Await req k), []. split; [reflexivity|].
    split; [constructor; assumption|]. split; [exact Hp | constructor].
  - inversion H1 as [|? ? Ha H1']; subst. cbn [app register]. destruct a as [x| |req k].
    + apply IH; auto.
    + specialize (IH pool next t l2 H1' Hp Ht H2).
      destruct (register (l1 ++ t :: l2) pool next) as [[pool' next'] e]. exact IH.
    + apply IH; auto. apply quiet_pool_app; assumption.
Qed.

Lemma finish_one_starter (r : Run Task Task) w l1 t l2 :
  r_forks r ++ [r_next r] = l1 ++ t :: l2 ->
  Forall (sat Quiet unit) l1 -> starter t -> Forall (sat Quiet unit) l2 ->
  quiet_pool (w_tasks w) ->
  one_starter (w_tasks (finish r w).1).
Proof.
  intros Heq H1 Ht H2 Hp. unfold finish. rewrite Heq.
  pose proof (register_starter l1 (w_tasks w) (w_nextTask w) t l2 H1 Hp Ht H2) as H.
  destruct (register _ _ _) as [[pool next] e]. exact H.
Qed.

Lemma dispatch_quiet ev w :
  not_connect ev -> is_tick ev = false -> pool_sat Quiet w ->
  action_sat Quiet w (dispatch ev w).
Proof.
  intros Hc Ht. 
  apply (dispatch_sat Quiet (fun ev => not_connect ev /\ is_tick ev = false)); auto.
  - intros st r' Hi _. apply Quiet_shrink; [constructor | cbn; rewrite Hi; reflexivity | reflexivity].
  - intros ev' w' w1 c [Hc' Ht']. apply handlers_quiet; assumption.
Qed.

Lemma step_quiet ev w :
  not_connect ev -> is_tick ev = false -> quiet_pool (w_tasks w) ->
  quiet_pool (w_tasks (step ev w).1) /\ Quiet (w_state w) (step ev w).2 (w_state (step ev w).1).
Proof.
  intros Hc Ht Hp. apply (step_sat Quiet); [exact Hp|]. apply dispatch_quiet; assumption.
Qed.

Lemma tick_inv ev : is_tick ev = true -> exists id, ev = IntervalTick id.
Proof. destruct ev; try discriminate. eauto. Qed.

(** While polling is stopped and no call waits for the room, nothing polls. *)
Lemma step_at_rest ev w :
  not_connect ev -> at_rest w -> at_rest (step ev w).1 /\ no_poll (step ev w).2.
Proof.
  intros Hc [Hst Hp]. destruct (is_tick ev) eqn:Ht.
  - destruct (tick_inv ev Ht) as [id ->]. unfold step.
    rewrite (dispatch_tick_stopped id w (proj2 Hst)). cbn. repeat split; try apply Hst; auto.
    constructor.
  - destruct (step_quiet ev w Hc Ht Hp) as [Hp' HQ].
    split; [split; [apply (Quiet_stopped _ _ _ HQ Hst) | exact Hp'] | apply HQ].
Qed.

Lemma steps_at_rest evs : forall w,
  Forall not_connect evs -> at_rest w ->
  at_rest (steps evs w).1 /\ no_poll (steps evs w).2.
Proof.
  induction evs as [|ev evs IH]; intros w Hok Hw; cbn [steps].
  - split; [exact Hw | constructor].
  - inversion Hok as [|? ? Hev Hok']; subst.
    destruct (step_at_rest ev w Hev Hw) as [Hw1 He1].
    destruct (step ev w) as [w1 e1]; cbn in *.
    destruct (IH w1 Hok' Hw1) as [Hw2 He2].
    destruct (steps evs w1) as [w2 e2]; cbn in *.
    split; [exact Hw2 | apply no_poll_app; assumption].
Qed.

Lemma step_settled ev w : not_connect ev -> settled w -> settled (step ev w).1.
Proof.
  intros Hc [Hl Hp]. destruct (is_tick ev) eqn:Ht.
  - destruct (tick_inv ev Ht) as [id ->]. unfold step. cbn [dispatch].
    destruct (bool_decide _); [|split; assumption].
    destruct (pollSignals_head (w_state w)) as (Hs & Hf & Hn).
    unfold run. split.
    + rewrite <- Hs in Hl. rewrite finish_state. exact Hl.
    + apply finish_quiet_pool; [|exact Hn | exact Hp].
      assert (Hnil : Forall (sat Quiet unit) (@nil Task)) by constructor.
      rewrite <- Hf in Hnil. exact Hnil.
  - destruct (step_quiet ev w Hc Ht Hp) as [Hp' HQ].
    split; [|exact Hp']. destruct HQ as (_ & _ & _ & HQ). apply HQ. exact Hl.
Qed.

Lemma stopped_env st st' :
  prov st' = prov st -> rt_intervals (rt st') = rt_intervals (rt st) ->
  stopped st -> stopped st'.
Proof. intros Hp Hi [H1 H2]. split; congruence. Qed.

Lemma step_starting ev w :
  not_connect ev -> starting w -> starting (step ev w).1 \/ settled (step ev w).1.
Proof.
  intros Hc [Hst Hp]. destruct (is_tick ev) eqn:Ht.
  { destruct (tick_inv ev Ht) as [id ->]. unfold step.
    rewrite (dispatch_tick_stopped id w (proj2 Hst)). left. split; assumption. }
  unfold step. destruct (dispatch ev w) as [|w1 c|w1 ts resp] eqn:Hd.
  - left. split; assumption.
  - destruct (dispatch_run_inv _ _ _ _ Hd) as (Ht1 & Hp1 & Hi1).
    pose proof (handlers_quiet ev w w1 c Hc Ht Hd) as Hcs.
    assert (Hst1 : stopped (w_state w1)) by (apply (stopped_env (w_state w)); assumption).
    destruct (finish_keeps Quiet one_starter one_starter_app (c (w_state w1)) w1 (Hcs _))
      as [Hp' HQ]; [rewrite Ht1; exact Hp|].
    left. split; [apply (Quiet_stopped _ _ _ HQ Hst1) | exact Hp'].
  - assert (Hst1 : stopped (w_state w1)).
    { destruct (dispatch_resume_inv _ _ _ _ _ Hd) as [-> | [Hp1 Hi1]]; [exact Hst|].
      apply (stopped_env (w_state w)); assumption. }
    destruct (dispatch_resume_pool _ _ _ _ _ Hd) as [(id & t & Htake & ->) | (pc & -> & Hrest)].
    + destruct (take_task_one_starter id _ _ _ Htake Hp) as [[Hs Hq] | [Hq Hs]].
      * rewrite resume_all_single. destruct Hs as [req k Hreq Hk]. cbn [resume].
        destruct (Hk resp (w_state w1) Hst1) as (Hforks & [[Hn Hl] | [Hn Hs]]).
        -- right. split; [rewrite finish_state; exact Hl|].
           apply finish_quiet_pool; assumption.
        -- left. split; [rewrite finish_state; exact Hs|].
           apply (finish_one_starter _ _ (r_forks (k resp (w_state w1)))
                    (r_next (k resp (w_state w1))) []); auto.
      * destruct (resume_all_keeps Quiet one_starter one_starter_app [(id, t)] resp w1)
          as [Hp' HQ]; [repeat constructor; exact Hq | exact Hs |].
        left. split; [apply (Quiet_stopped _ _ _ HQ Hst1) | exact Hp'].
    + destruct (filter_one_starter pc _ Hp) as [Hwait Hothers].
      destruct (resume_all_keeps Quiet one_starter one_starter_app _ resp w1 Hwait)
        as [Hp' HQ]; [rewrite Hrest; exact Hothers|].
      left. split; [apply (Quiet_stopped _ _ _ HQ Hst1) | exact Hp'].
Qed.

Lemma settled_of_rest w : at_rest w -> settled w.
Proof. intros [Hs Hp]. split; [apply stopped_linked; exact Hs | exact Hp]. Qed.

Lemma steps_starting evs : forall w,
  Forall not_connect evs -> starting w \/ settled w ->
  starting (steps evs w).1 \/ settled (steps evs w).1.
Proof.
  induction evs as [|ev evs IH]; intros w Hok Hw; cbn [steps]; [exact Hw|].
  inversion Hok as [|? ? Hev Hok']; subst.
  assert (Hw1 : starting (step ev w).1 \/ settled (step ev w).1).
  { destruct Hw as [Hw | Hw]; [apply step_starting; assumption|].
    right. apply step_settled; assumption. }
  destruct (step ev w) as [w1 e1]; cbn in *.
  specialize (IH w1 Hok' Hw1). destruct (steps evs w1) as [w2 e2]; exact IH.
Qed.

Lemma step_connect w :
  at_rest w -> starting (step CallConnect w).1 \/ settled (step CallConnect w).1.
Proof.
  intros [Hst Hp]. unfold step. cbn [dispatch]. unfold run.
  destruct (connect_run (w_state w) Hst) as (Hn & [[Hl Hf] | (Hs & l1 & t & l2 & Heq & Ht & H1 & H2)]).
  - right. split; [rewrite finish_state; exact Hl | apply finish_quiet_pool; assumption].
  - left. split; [rewrite finish_state; exact Hs|].
    apply (finish_one_starter _ _ l1 t (l2 ++ [r_next (connect (w_state w))])); auto.
    + transitivity ((l1 ++ t :: l2) ++ [r_next (connect (w_state w))]);
        [f_equal; exact Heq | rewrite <- app_assoc; reflexivity].
    + apply Forall_app. split; [exact H2 | repeat constructor; exact Hn].
Qed.

Lemma steps_app evs1 evs2 w :
  steps (evs1 ++ evs2) w =
  ((steps evs2 (steps evs1 w).1).1, (steps evs1 w).2 ++ (steps evs2 (steps evs1 w).1).2).
Proof.
  revert w. induction evs1 as [|ev evs1 IH]; intros w; cbn [app steps].
  - cbn. now destruct (steps evs2 w).
  - destruct (step ev w) as [w1 e1]. rewrite IH.
    destruct (steps evs1 w1) as [w2 e2]. cbn.
    destruct (steps evs2 w2) as [w3 e3]. cbn. now rewrite app_assoc.
Qed.

(** *** The connection that reaches [connected] *)

Lemma size_add_pos (x : string) (X : gset string) : (0 <? size ({[x]} ∪ X)) = true.
Proof.
  apply Nat.ltb_lt. assert (H : size ({[x]} ∪ X) <> 0); [|lia].
  apply size_non_empty_iff. intros Hempty.
  assert (Hx : x ∈ ({[x]} ∪ X : gset string)) by (apply elem_of_union; left; apply elem_of_singleton; reflexivity).
  rewrite Hempty in Hx. exact (not_elem_of_empty _ Hx).
Qed.

Lemma onConnectionStateChange_connected pc remote st id :
  connectionStateOf (rt st) pc = CsConnected ->
  pollingInterval (prov st) = Some id ->
  pollingInterval (prov (r_st (onConnectionStateChange pc remote st))) = None /\
  In (ClearInterval id) (r_eff (onConnectionStateChange pc remote st)).
Proof.
  destruct st as [p r]. cbn [rt prov]. intros Hs Hpi.
  unfold onConnectionStateChange. cbn. rewrite Hs. cbn.
  match goal with
  | |- context [updateConnectionStatus ?s] =>
      destruct (updateConnectionStatus_run s) as (r1 & e1 & Hrun & _); rewrite Hrun
  end.
  cbn. unfold stopPollingIfConnected, clearInterval. cbn -[Nat.ltb].
  rewrite Hpi. cbn -[Nat.ltb]. rewrite size_add_pos. cbn.
  split; [reflexivity|]. apply in_or_app. right. left. reflexivity.
Qed.

Lemma linked_none_stopped st :
  linked st -> pollingInterval (prov st) = None -> stopped st.
Proof.
  intros Hl Hpi. split; [exact Hpi|].
  apply leibniz_equiv. apply elem_of_equiv_empty. intros x Hx.
  specialize (Hl x Hx). congruence.
Qed.

(** When a connection reaches [connected] while the interval is recorded,
    the interval is cleared and polling is stopped. *)
Lemma connected_stops w pc conn id :
  settled w ->
  rt_pcs (rt (w_state w)) !! pc = Some conn ->
  pollingInterval (prov (w_state w)) = Some id ->
  In (ClearInterval id) (step (ConnectionStateChange pc CsConnected) w).2 /\
  at_rest (step (ConnectionStateChange pc CsConnected) w).1.
Proof.
  intros [Hl Hp] Hpc Hpi.
  assert (Hc : not_connect (ConnectionStateChange pc CsConnected)) by discriminate.
  destruct (step_quiet _ w Hc eq_refl Hp) as [Hp' HQ].
  revert Hp' HQ. unfold step. cbn [dispatch]. rewrite Hpc. intros Hp' HQ.
  match goal with
  | |- context [run ?c ?w1] =>
      destruct (onConnectionStateChange_connected pc (pc_remote conn) (w_state w1) id)
        as [Hnone Hin];
      [ | | destruct (run_effects c w1) as [u Hu]; pose proof (run_state c w1) as Hstate ]
  end.
  - cbn. unfold connectionStateOf. cbn. rewrite lookup_alter_eq, Hpc. reflexivity.
  - exact Hpi.
  - split.
    + rewrite Hu. apply in_or_app. left. exact Hin.
    + split; [|exact Hp']. apply linked_none_stopped.
      * destruct HQ as (_ & _ & _ & HQ). apply HQ. exact Hl.
      * rewrite Hstate. exact Hnone.
Qed.

(** C6 (amended).  On a provider on which [connect()] has been called once:
    when a peer connection that exists reaches [connected] while the polling
    interval is recorded, the interval is cleared, [pollingInterval] is reset
    and no interval stays active; and whatever happens afterwards, short of
    another call of [connect()], no poll request is issued and no interval is
    set, and polling stays stopped. *)
Theorem C6_polling_stops o pid r evs1 evs2 pc conn id :
  rt_intervals r = ∅ ->
  Forall not_connect evs1 -> Forall not_connect evs2 ->
  let w := (steps (evs1 ++ CallConnect :: evs2) (newProvider o pid r)).1 in
  rt_pcs (rt (w_state w)) !! pc = Some conn ->
  pollingInterval (prov (w_state w)) = Some id ->
  let w' := (step (ConnectionStateChange pc CsConnected) w).1 in
  In (ClearInterval id) (step (ConnectionStateChange pc CsConnected) w).2 /\
  stopped (w_state w') /\
  forall evs3, Forall not_connect evs3 ->
    no_poll (steps evs3 w').2 /\ stopped (w_state (steps evs3 w').1).
Proof.
  intros Hr H1 H2 w Hpc Hpi w'.
  assert (H0 : at_rest (newProvider o pid r)).
  { split; [split; [reflexivity | exact Hr] | constructor]. }
  assert (Hw : starting w \/ settled w).
  { subst w. rewrite steps_app. cbn [fst steps].
    destruct (steps_at_rest evs1 _ H1 H0) as [Ha _].
    pose proof (step_connect _ Ha) as Hb.
    destruct (step CallConnect (steps evs1 (newProvider o pid r)).1) as [w1 e1].
    pose proof (steps_starting evs2 w1 H2 Hb) as Hc.
    destruct (steps evs2 w1) as [w2 e2]. exact Hc. }
  assert (Hs : settled w).
  { destruct Hw as [[[Hnone _] _] | Hs]; [congruence | exact Hs]. }
  destruct (connected_stops w pc conn id Hs Hpc Hpi) as [Hin Hrest]. fold w' in Hrest.
  split; [exact Hin|]. split; [apply Hrest|].
  intros evs3 H3. destruct (steps_at_rest evs3 w' H3 Hrest) as [[Hst _] Hno]. auto.
Qed.


(** C6, witness: the host of the example; its connection 1 reaches
    [connected] while interval 0 runs. *)
Lemma C6_witness :
  let w := (steps ([] ++ CallConnect :: hostAfterConnect)
              (newProvider hostOptions "host-1" (exampleRuntime false))).1 in
  let w' := (step (ConnectionStateChange 1 CsConnected) w).1 in
  In (ClearInterval 0) (step (ConnectionStateChange 1 CsConnected) w).2 /\
  stopped (w_state w') /\
  no_poll (steps [IntervalTick 0; CallDispatchAction (mkInput "place" [JNum 1]);
                  AwarenessChange] w').2.
Proof.
  assert (Hok : Forall not_connect hostAfterConnect) by (repeat constructor; discriminate).
  pose proof (C6_polling_stops hostOptions "host-1" (exampleRuntime false) [] hostAfterConnect
                1 (mkPc "guest-1" CsNew GsComplete (Some exampleOffer) false) 0
                eq_refl (List.Forall_nil _) Hok) as H.
  cbv zeta in H.
  match type of H with
  | ?A -> ?B -> _ =>
      assert (Hpc : A) by (vm_compute; reflexivity);
      assert (Hpi : B) by (vm_compute; reflexivity)
  end.
  destruct (H Hpc Hpi) as (Hin & Hst & Hall). cbv zeta.
  split; [exact Hin|]. split; [exact Hst|].
  apply Hall. repeat constructor; discriminate.
Defined.

(** C6, counterexample: polling has stopped on the host of the example;
    [connect()] is called again, the room is found, and polling is back: a new
    interval, a poll at once and one at each tick. *)
Lemma C6_counterexample :
  pollingInterval (prov (w_state (steps hostNegotiates hostWorld).1)) = Some 0 /\
  pollingInterval (prov (w_state hostConnected)) = None /\
  rt_intervals (rt (w_state hostConnected)) = ∅ /\
  List.filter is_poll
    (steps [CallConnect; Settle 6 (RespHttp true 200); IntervalTick 3] hostConnected).2 =
  [SetInterval 3 2000; Issue (FetchSignals "ABCDE" "host-1" "1001");
   Issue (FetchSignals "ABCDE" "host-1" "1001")].
Proof. vm_compute. repeat split. Qed.

(** * Further properties of the provider *)

(** ** After [destroy()] *)

Lemma Dead_same st e st' :
  destroyed (prov st') = destroyed (prov st) -> no_fetch e -> Dead st e st'.
Proof. intros H1 H2 Hd. split; [congruence | exact H2]. Qed.

#[local] Instance Dead_rel : StepRel Dead.
Proof.
  split.
  - intros st. apply Dead_same; [reflexivity | constructor].
  - intros a e1 b e2 c H1 H2 Ha. destruct (H1 Ha) as [Hb N1]. destruct (H2 Hb) as [Hc N2].
    split; [exact Hc | apply Forall_app; split; assumption].
  - intros st. apply Dead_same; [reflexivity | repeat constructor].
Qed.

Ltac dead_leaf :=
  let p := fresh "p" in
  let r := fresh "r" in
  intros [p r]; first
    [ apply Dead_same; [reflexivity | repeat constructor]
    | intros _; split; [reflexivity | repeat constructor] ].

Lemma handleSignal_dead s : co_sat Dead (handleSignal s).
Proof. sat_go dead_leaf. Qed.

#[local] Hint Resolve handleSignal_dead : sat_db.

(** A poll on a destroyed provider returns at once. *)
Lemma pollSignals_dead : co_sat Dead pollSignals.
Proof.
  intros [p r]. unfold pollSignals. cbn.
  destruct (destroyed p) eqn:Hd; cbn.
  { apply run_sat_sync. apply rel_refl. }
  split; [intros H; cbn in H; congruence|]. split; [constructor|].
  assert (H : forall resp,
             co_sat Dead
               (try_catch
                  (match resp with
                   | RespReject => throw
                   | RespPoll signals lastSeen =>
                       modP (set_lastSeenSignals lastSeen) ;; foreach signals handleSignal
                   | _ => ret tt
                   end) (ret tt))).
  { intros resp. sat_go dead_leaf. }
  apply sat_await; intros resp st'; destruct (H resp st') as (H1 & H2 & H3).
  - exact H1.
  - exact H2.
  - exact H3.
Qed.

#[local] Hint Resolve pollSignals_dead : sat_db.

Lemma waitForRoom_dead n : co_sat Dead (waitForRoom n).
Proof. induction n; cbn [waitForRoom]; sat_go dead_leaf. Qed.

#[local] Hint Resolve waitForRoom_dead : sat_db.

Lemma handlers_dead ev w w1 c : dispatch ev w = ActRun w1 c -> co_sat Dead c.
Proof. intros Hd. destruct ev; dispatch_cases Hd; sat_go dead_leaf. Qed.

Lemma steps_dead evs w :
  pool_sat Dead w ->
  pool_sat Dead (steps evs w).1 /\ Dead (w_state w) (steps evs w).2 (w_state (steps evs w).1).
Proof.
  intros Hp. apply (steps_sat Dead (fun _ => True)); auto.
  - intros ev w' _. apply (dispatch_sat Dead (fun _ => True)); auto.
    + intros st r' _ _. apply Dead_same; [reflexivity | constructor].
    + intros ev' w'' w1 c _. apply handlers_dead.
  - clear. induction evs; constructor; auto.
Qed.

(** Once the provider is destroyed, whatever reaches it afterwards (calls of
    its methods, ticks of a timer, promises that settle, events of connections
    and channels), it issues no poll request and stays destroyed. *)
Theorem destroyed_never_polls o pid r evs1 evs2 :
  let w := (steps evs1 (newProvider o pid r)).1 in
  destroyed (prov (w_state w)) = true ->
  no_fetch (steps evs2 w).2 /\ destroyed (prov (w_state (steps evs2 w).1)) = true.
Proof.
  intros w Hd.
  assert (Hp0 : pool_sat Dead (newProvider o pid r)) by constructor.
  destruct (steps_dead evs1 _ Hp0) as [Hp _]. fold w in Hp.
  destruct (steps_dead evs2 w Hp) as [_ H]. destruct (H Hd) as [H1 H2]. auto.
Qed.

(** The guest of the example, destroyed while its first poll and its
    announcement are under way: the poll answered, the timer, a second
    [connect()]. *)
Lemma destroyed_never_polls_witness :
  no_fetch (steps [Settle 0 (RespPoll [] "7"); IntervalTick 0; CallConnect]
              (steps [CallConnect; CallDestroy] guestWorld).1).2.
Proof.
  pose proof (destroyed_never_polls guestOptions "guest-1" (exampleRuntime false)
                [CallConnect; CallDestroy]
                [Settle 0 (RespPoll [] "7"); IntervalTick 0; CallConnect]) as H.
  cbv zeta in H.
  match type of H with
  | ?A -> _ => assert (Hd : A) by (vm_compute; reflexivity)
  end.
  exact (proj1 (H Hd)).
Defined.

(** ** The reports to [onConnectionChange] *)

Lemma connection_reports_app e1 e2 :
  connection_reports (e1 ++ e2) = connection_reports e1 ++ connection_reports e2.
Proof. unfold connection_reports. apply flat_map_app. Qed.

#[local] Instance Reports_rel : StepRel Reports.
Proof.
  split.
  - intros st. constructor.
  - intros a e1 b e2 c H1 H2. unfold Reports. rewrite connection_reports_app.
    apply Forall_app. split; assumption.
  - intros st. constructor.
Qed.

Ltac reports_leaf :=
  intros ?; unfold Reports; cbn; repeat constructor; cbn; lia.

Lemma waitForRoom_reports n : co_sat Reports (waitForRoom n).
Proof. induction n; cbn [waitForRoom]; sat_go reports_leaf. Qed.

#[local] Hint Resolve waitForRoom_reports : sat_db.

Lemma handlers_reports ev w w1 c : dispatch ev w = ActRun w1 c -> co_sat Reports c.
Proof. intros Hd. destruct ev; dispatch_cases Hd; sat_go reports_leaf. Qed.

Lemma steps_reports evs w :
  pool_sat Reports w ->
  pool_sat Reports (steps evs w).1 /\ Reports (w_state w) (steps evs w).2 (w_state (steps evs w).1).
Proof.
  intros Hp. apply (steps_sat Reports (fun _ => True)); auto.
  - intros ev w' _. apply (dispatch_sat Reports (fun _ => True)); auto.
    + intros st r' _ _. constructor.
    + intros ev' w'' w1 c _. apply handlers_reports.
  - clear. induction evs; constructor; auto.
Qed.

(** Whatever happens to a provider, [onConnectionChange] is only ever called
    with [connected = true] and a peer count of at least 1: a lost connection
    or [destroy()] is never reported as disconnected. *)
Theorem reports_always_connected o pid r evs :
  Forall report_ok (connection_reports (steps evs (newProvider o pid r)).2).
Proof.
  assert (Hp0 : pool_sat Reports (newProvider o pid r)) by constructor.
  exact (proj2 (steps_reports evs _ Hp0)).
Qed.

(** ** On localhost *)

#[local] Instance Offline_rel : StepRel Offline.
Proof.
  split.
  - intros st. split; [constructor|]. split; reflexivity.
  - intros a e1 b e2 c (N1 & S1 & L1) (N2 & S2 & L2).
    split; [apply Forall_app; split; assumption|]. split; [|congruence].
    intros x Hx. apply S1, S2, Hx.
  - intros st. split; [repeat constructor|]. split; reflexivity.
Qed.

Ltac offline_leaf :=
  let p := fresh "p" in
  let r := fresh "r" in
  intros [p r]; split;
    [ repeat constructor
    | split; [cbn; first [reflexivity | apply subseteq_difference_l; reflexivity]
             | reflexivity] ].

Lemma handlers_offline ev w w1 c :
  not_connect ev -> is_tick ev = false -> dispatch ev w = ActRun w1 c -> co_sat Offline c.
Proof.
  intros Hc Ht Hd. destruct ev; try discriminate; try (exfalso; apply Hc; reflexivity);
    dispatch_cases Hd; sat_go offline_leaf.
Qed.

Lemma notifyPlayersChange_offline : co_sat Offline notifyPlayersChange.
Proof. sat_go offline_leaf. Qed.

Lemma Offline_local a e b : Offline a e b -> on_localhost a -> on_localhost b.
Proof.
  intros (_ & Hs & Hl) [H1 H2]. split; [congruence|].
  apply leibniz_equiv. apply elem_of_equiv_empty. intros x Hx.
  apply Hs in Hx. rewrite H2 in Hx. exact (not_elem_of_empty x Hx).
Qed.

(** [connect()] on localhost takes the loopback path. *)
Lemma connect_local st :
  rt_localhost (rt st) = true -> run_sat Offline st (connect st).
Proof.
  intros Hl. destruct st as [p r]. cbn in Hl. unfold connect. cbn.
  destruct (destroyed p); cbn.
  { apply run_sat_sync. apply rel_refl. }
  assert (Hf : co_sat Offline enableLocalFallback) by sat_go offline_leaf.
  destruct (notifyPlayersChange_run (mkState p r)) as (r' & e & Hrun & _).
  pose proof (notifyPlayersChange_offline (mkState p r)) as (HQ & _ & _).
  rewrite Hrun in HQ. cbn in HQ.
  assert (Hl' : rt_localhost r' = true) by (destruct HQ as (_ & _ & HQ); cbn in HQ; congruence).
  destruct (Hf (mkState p r')) as (F1 & F2 & F3).
  destruct (onConnectionChange (options p)); cbn; rewrite Hrun; cbn; rewrite Hl'; cbn.
  - split; [|split; [exact F2 | exact F3]].
    change (CallOnConnectionChange true 1 :: e ++ ?x) with
      ([CallOnConnectionChange true 1] ++ (e ++ x)).
    eapply rel_trans; [|eapply rel_trans; [exact HQ | exact F1]].
    split; [repeat constructor | split; reflexivity].
  - split; [|split; [exact F2 | exact F3]].
    eapply rel_trans; [exact HQ | exact F1].
Qed.

Lemma step_local ev w :
  on_localhost (w_state w) -> pool_sat Offline w ->
  pool_sat Offline (step ev w).1 /\ Offline (w_state w) (step ev w).2 (w_state (step ev w).1).
Proof.
  intros Hl Hp. destruct (is_tick ev) eqn:Ht.
  { destruct (tick_inv ev Ht) as [id ->]. unfold step.
    rewrite (dispatch_tick_stopped id w (proj2 Hl)). cbn. split; [exact Hp | apply rel_refl]. }
  assert (Hev : ev = CallConnect \/ not_connect ev)
    by (destruct ev; first [left; reflexivity | right; discriminate]).
  destruct Hev as [-> | Hc].
  { unfold step. cbn [dispatch]. apply (finish_sat Offline); [|exact Hp].
    apply connect_local. exact (proj1 Hl). }
  apply (step_sat Offline); [exact Hp|].
  apply (dispatch_sat Offline (fun ev => not_connect ev /\ is_tick ev = false)); auto.
  - intros st r' Hi Hh. split; [constructor|]. cbn. rewrite Hi, Hh. split; reflexivity.
  - intros ev' w' w1 c [Hc' Ht']. apply handlers_offline; assumption.
Qed.

Lemma steps_local evs : forall w,
  on_localhost (w_state w) -> pool_sat Offline w ->
  no_signalling (steps evs w).2 /\ on_localhost (w_state (steps evs w).1).
Proof.
  induction evs as [|ev evs IH]; intros w Hl Hp; cbn [steps].
  - split; [constructor | exact Hl].
  - destruct (step_local ev w Hl Hp) as [Hp1 HQ].
    pose proof (Offline_local _ _ _ HQ Hl) as Hl1.
    destruct (step ev w) as [w1 e1]; cbn in *.
    destruct (IH w1 Hl1 Hp1) as [He2 Hl2].
    destruct (steps evs w1) as [w2 e2]; cbn in *.
    split; [apply Forall_app; split; [apply HQ | exact He2] | exact Hl2].
Qed.

(** A provider created on localhost works over the BroadcastChannel alone:
    whatever happens to it, it sends no request to the relay or to the room
    endpoint, sets no polling interval and creates no peer connection. *)
Theorem localhost_never_signals o pid r evs :
  rt_localhost r = true -> rt_intervals r = ∅ ->
  no_signalling (steps evs (newProvider o pid r)).2 /\
  rt_intervals (rt (w_state (steps evs (newProvider o pid r)).1)) = ∅.
Proof.
  intros Hl Hi.
  assert (Hw : on_localhost (w_state (newProvider o pid r))) by (split; assumption).
  assert (Hp : pool_sat Offline (newProvider o pid r)) by constructor.
  destruct (steps_local evs _ Hw Hp) as [He [_ Hi']]. split; assumption.
Qed.

(** The guest of the example on localhost: it connects, the timer of its
    state request fires, it dispatches an action. *)
Lemma localhost_never_signals_witness :
  no_signalling (steps [CallConnect; Settle 0 RespVoid; CallDispatchAction placeInput]
                   localGuestWorld).2.
Proof.
  exact (proj1 (localhost_never_signals guestOptions "guest-1" (exampleRuntime true)
                  [CallConnect; Settle 0 RespVoid; CallDispatchAction placeInput]
                  eq_refl eq_refl)).
Defined.

(** ** What a run sends *)

Lemma channel_sends_app e1 e2 : channel_sends (e1 ++ e2) = channel_sends e1 ++ channel_sends e2.
Proof. unfold channel_sends. apply flat_map_app. Qed.

Lemma broadcast_posts_app e1 e2 :
  broadcast_posts (e1 ++ e2) = broadcast_posts e1 ++ broadcast_posts e2.
Proof. unfold broadcast_posts. apply flat_map_app. Qed.

Lemma closed_connections_app e1 e2 :
  closed_connections (e1 ++ e2) = closed_connections e1 ++ closed_connections e2.
Proof. unfold closed_connections. apply flat_map_app. Qed.

Lemma channel_sends_deliveries l : channel_sends (map CallOnAction l) = [].
Proof. induction l as [|x l IH]; cbn; [reflexivity | exact IH]. Qed.

Lemma broadcast_posts_deliveries l : broadcast_posts (map CallOnAction l) = [].
Proof. induction l as [|x l IH]; cbn; [reflexivity | exact IH]. Qed.

Lemma channel_sends_map (m : DataChannelMessage) (l : list (string * nat)) :
  channel_sends (map (fun entry => ChannelSend entry.2 m) l) = map (fun entry => (entry.2, m)) l.
Proof. induction l as [|x l IH]; cbn; [reflexivity | f_equal; exact IH]. Qed.

Lemma broadcast_posts_map (m : DataChannelMessage) (l : list (string * nat)) :
  broadcast_posts (map (fun entry => ChannelSend entry.2 m) l) = [].
Proof. induction l as [|x l IH]; cbn; [reflexivity | exact IH]. Qed.

Lemma closed_connections_map (l : list (string * nat)) :
  closed_connections (map (fun entry => ClosePeerConnection entry.2) l) = map snd l.
Proof. induction l as [|x l IH]; cbn; [reflexivity | f_equal; exact IH]. Qed.

(** What the ['update'] listener does with a change of the document. *)
Lemma docUpdateHandler_posts o u st :
  docUpdateHandler o u st =
  mkRun st (if negb o && relays_updates (prov st)
            then [BroadcastPost (mkBroadcast (MsgUpdate (Some u)) (Some (peerId (prov st))) None)]
            else []) [] (Ret tt).
Proof.
  destruct st as [p r]. unfold docUpdateHandler, relays_updates. cbn.
  destruct (docUpdateListener p); cbn; [|now rewrite andb_false_r].
  destruct o; cbn; [reflexivity|].
  destruct (useLocalFallback p); cbn; [|reflexivity].
  destruct (broadcastChannel p); reflexivity.
Qed.

(** One transaction: it runs to its end, touches nothing but the document,
    sends nothing on a data channel, and is posted on the BroadcastChannel
    only when it is a local change and the provider relays. *)
Lemma transact_run o u st : exists p' e,
  transact o u st = mkRun (mkState p' (rt st)) e [] (Ret tt) /\
  doc_only (prov st) p' /\
  operationsArray p' = operationsArray (prov st) ++ u_ops u /\
  metaMap p' = write_meta (u_meta u) (metaMap (prov st)) /\
  channel_sends e = [] /\
  broadcast_posts e =
    (if negb (update_is_empty u) && negb o && relays_updates (prov st)
     then [mkBroadcast (MsgUpdate (Some u)) (Some (peerId (prov st))) None]
     else []).
Proof.
  destruct st as [p r]. unfold transact, operationsObserver. cbn [prov rt].
  destruct (update_is_empty u) eqn:E.
  { exists p, []. cbn. unfold update_is_empty in E.
    destruct (u_ops u); [destruct (u_meta u); [|discriminate]|discriminate].
    cbn. rewrite app_nil_r. repeat split. unfold doc_only. destruct p; reflexivity. }
  destruct (u_ops u) as [|op ops] eqn:Eo.
  - cbn. rewrite docUpdateHandler_posts. cbn. eexists _, _. split; [reflexivity|].
    cbn. rewrite app_nil_r.
    split; [reflexivity|]. split; [reflexivity|]. split; [reflexivity|].
    unfold relays_updates. cbn.
    destruct (negb o && _); cbn; split; reflexivity.
  - cbn.
    rewrite (foreach_deliver
               (fun op => negb (String.eqb (playerId op) (peerId p)) && onAction (options p))).
    cbn. rewrite docUpdateHandler_posts. cbn. eexists _, _. split; [reflexivity|].
    cbn. split; [reflexivity|]. split; [reflexivity|]. split; [reflexivity|].
    rewrite !channel_sends_app, !broadcast_posts_app, channel_sends_deliveries,
      broadcast_posts_deliveries.
    unfold relays_updates. cbn.
    destruct (negb o && _); cbn; split; reflexivity.
Qed.

(** The loop over the data channels sends on the open ones. *)
Lemma foreach_send (m : DataChannelMessage) (l : list (string * nat)) st :
  foreach l (fun entry =>
    s <- readyStateOf entry.2 ;;
    if is_open s then emit (ChannelSend entry.2 m) else ret tt)%co st =
  mkRun st (map (fun entry => ChannelSend entry.2 m)
              (List.filter (fun entry => chan_is_open (rt st) entry.2) l)) [] (Ret tt).
Proof.
  destruct st as [p r]. induction l as [|x l IH]; cbn [foreach List.filter].
  - reflexivity.
  - unfold readyStateOf at 1. cbn. unfold chan_is_open at 1. cbn.
    destruct (rt_chans r !! x.2) as [c|]; cbn; [destruct (is_open (ch_readyState c)); cbn|];
      rewrite IH; reflexivity.
Qed.

(** ** [dispatchAction] *)

(** The run of [dispatchAction] on a live provider. *)
Lemma dispatchAction_run action st :
  destroyed (prov st) = false ->
  let op := fullAction action st in
  let update := mkUpdate (operationsArray (prov st) ++ [op]) (map_to_list (metaMap (prov st))) in
  exists p' e,
    dispatchAction action st = mkRun (mkState p' (rt st)) e [] (Ret tt) /\
    doc_only (prov st) p' /\
    operationsArray p' = operationsArray (prov st) ++ [op] /\
    channel_sends e =
      map (fun entry => (entry.2, MsgUpdate (Some update)))
        (List.filter (fun entry => chan_is_open (rt st) entry.2)
           (map_to_list (dataChannels (prov st)))) /\
    broadcast_posts e =
      (if relays_updates (prov st)
       then [mkBroadcast (MsgUpdate (Some (mkUpdate [op] []))) (Some (peerId (prov st))) None]
       else []) ++
      (if useLocalFallback (prov st) && bool_decide (is_Some (broadcastChannel (prov st)))
       then [mkBroadcast (MsgUpdate (Some update)) (Some (peerId (prov st))) None]
       else []).
Proof.
  destruct st as [p r]. cbn [prov rt]. intros Hd. cbv zeta.
  unfold dispatchAction, transact, operationsObserver, encodeStateAsUpdate, fullAction.
  cbn. rewrite Hd. cbn.
  rewrite (foreach_deliver
             (fun op => negb (String.eqb (playerId op) (peerId p)) && onAction (options p))).
  cbn. rewrite docUpdateHandler_posts. cbn. rewrite foreach_send. cbn.
  unfold relays_updates. cbn.
  destruct (broadcastChannel p) as [name|]; destruct (useLocalFallback p);
    destruct (docUpdateListener p); cbn.
  all: eexists _, _; split; [reflexivity|].
  all: split; [unfold doc_only; destruct p; reflexivity|].
  all: split; [reflexivity|].
  all: rewrite ?channel_sends_app, ?broadcast_posts_app, ?channel_sends_deliveries,
         ?broadcast_posts_deliveries, ?channel_sends_map, ?broadcast_posts_map; cbn;
       rewrite ?channel_sends_app, ?broadcast_posts_app, ?channel_sends_deliveries,
         ?broadcast_posts_deliveries, ?channel_sends_map, ?broadcast_posts_map; cbn;
       rewrite ?app_nil_r.
  all: split; reflexivity.
Qed.

(** [dispatchAction] on a live provider never throws and appends the action,
    stamped with the clock and the provider's id, to the log.  The document is
    then sent once on every data channel that is registered and open, and on
    no other.  With the loopback path active the action reaches the
    BroadcastChannel twice: as the change of the document that the ['update']
    listener relays, then as the whole document. *)
Theorem dispatchAction_sends action st :
  destroyed (prov st) = false ->
  let r := dispatchAction action st in
  let op := fullAction action st in
  let update := mkUpdate (operationsArray (prov st) ++ [op]) (map_to_list (metaMap (prov st))) in
  returns r tt /\
  operationsArray (prov (r_st r)) = operationsArray (prov st) ++ [op] /\
  doc_only (prov st) (prov (r_st r)) /\ rt (r_st r) = rt st /\
  channel_sends (r_eff r) ≡ₚ
    map (fun entry => (entry.2, MsgUpdate (Some update)))
      (List.filter (fun entry => chan_is_open (rt st) entry.2)
         (map_to_list (dataChannels (prov st)))) /\
  (forall ch m, In (ch, m) (channel_sends (r_eff r)) <->
     (exists remote, dataChannels (prov st) !! remote = Some ch) /\
     chan_is_open (rt st) ch = true /\ m = MsgUpdate (Some update)) /\
  (relays_updates (prov st) = true ->
   broadcast_posts (r_eff r) =
     [mkBroadcast (MsgUpdate (Some (mkUpdate [op] []))) (Some (peerId (prov st))) None;
      mkBroadcast (MsgUpdate (Some update)) (Some (peerId (prov st))) None]) /\
  (useLocalFallback (prov st) = false -> broadcast_posts (r_eff r) = []).
Proof.
  intros Hd. cbv zeta.
  destruct (dispatchAction_run action st Hd) as (p' & e & Hrun & Hdoc & Hops & Hs & Hb).
  cbv zeta in Hs, Hb. rewrite Hrun. cbn [r_st r_eff r_forks r_next prov rt returns].
  split; [split; reflexivity|]. split; [exact Hops|]. split; [exact Hdoc|].
  split; [reflexivity|]. split; [rewrite Hs; reflexivity|]. split; [|split].
  - intros ch m. rewrite Hs, in_map_iff. split.
    + intros ([remote ch'] & Heq & Hin). injection Heq as <- <-.
      apply List.filter_In in Hin as [Hin Hopen]. cbn in Hopen.
      split; [|auto]. exists remote. apply elem_of_map_to_list.
      apply list_elem_of_In. exact Hin.
    + intros ((remote & Hl) & Hopen & ->). exists (remote, ch). split; [reflexivity|].
      apply List.filter_In. split; [|exact Hopen].
      apply list_elem_of_In. apply elem_of_map_to_list. exact Hl.
  - intros Hrel. rewrite Hb, Hrel. unfold relays_updates in Hrel.
    destruct (docUpdateListener (prov st)); [|discriminate].
    destruct (useLocalFallback (prov st)); [|discriminate].
    destruct (broadcastChannel (prov st)); [reflexivity | discriminate].
  - intros Hfb. rewrite Hb. unfold relays_updates. rewrite Hfb, andb_false_r. reflexivity.
Qed.

(** The host of the example dispatches an action: a frame is sent on
    channel 2. *)
Lemma dispatchAction_sends_witness :
  exists m, In (2, m) (channel_sends (r_eff (dispatchAction placeInput (w_state hostWithChannel)))).
Proof.
  pose proof (dispatchAction_sends placeInput (w_state hostWithChannel)) as H.
  cbv zeta in H.
  match type of H with
  | ?A -> _ => assert (Hd : A) by (vm_compute; reflexivity)
  end.
  destruct (H Hd) as (_ & _ & _ & _ & _ & Hin & _).
  assert (Hreg : dataChannels (prov (w_state hostWithChannel)) !! "guest-1" = Some 2)
    by (vm_compute; reflexivity).
  assert (Hopen : chan_is_open (rt (w_state hostWithChannel)) 2 = true)
    by (vm_compute; reflexivity).
  eexists.
  exact (proj2 (Hin 2 _) (conj (ex_intro _ "guest-1" Hreg) (conj Hopen eq_refl))).
Defined.

(** ** The log and the metadata map *)

Lemma setMeta_state k v st :
  setMeta k v st = mkRun (mkState (set_meta (<[k := v]> (metaMap (prov st))) (prov st)) (rt st))
                     (r_eff (setMeta k v st)) [] (Ret tt).
Proof.
  destruct st as [p r]. unfold setMeta, transact, operationsObserver, docUpdateHandler. cbn.
  rewrite app_nil_r.
  destruct (docUpdateListener p); cbn; [|destruct p; reflexivity].
  destruct (useLocalFallback p); cbn; [|destruct p; reflexivity].
  destruct (broadcastChannel p); cbn; destruct p; reflexivity.
Qed.

(** [setMeta(k, v)] never throws; [getMeta(k)] then returns [v], every other
    key reads as before, and the log is not touched.  The new entry is sent on
    no data channel: peers connected over WebRTC learn of it only with the
    next document they are sent.  On the loopback path it is posted at once. *)
Theorem meta_round_trip k v st :
  let st' := r_st (setMeta k v st) in
  returns (setMeta k v st) tt /\
  r_next (getMeta k st') = Ret (Some v) /\
  (forall k', k' <> k -> r_next (getMeta k' st') = r_next (getMeta k' st)) /\
  operationsArray (prov st') = operationsArray (prov st) /\
  channel_sends (r_eff (setMeta k v st)) = [] /\
  broadcast_posts (r_eff (setMeta k v st)) =
    (if relays_updates (prov st)
     then [mkBroadcast (MsgUpdate (Some (mkUpdate [] [(k, v)]))) (Some (peerId (prov st))) None]
     else []).
Proof.
  cbv zeta.
  destruct (transact_run false (mkUpdate [] [(k, v)]) st) as (p' & e & Hrun & _ & _ & _ & Hs & Hb).
  assert (He : r_eff (setMeta k v st) = e) by (unfold setMeta; rewrite Hrun; reflexivity).
  rewrite He, Hs, Hb. rewrite setMeta_state. cbn [r_st r_forks r_next returns].
  split; [split; reflexivity|]. unfold getMeta. cbn.
  split; [now rewrite lookup_insert_eq|]. split; [|repeat split].
  intros k' Hne. now rewrite lookup_insert_ne by congruence.
Qed.

(** [getAllOperations()] and [getOperationsSince(0)] return the whole log;
    [getOperationsSince(i)], for an index [i] that is not negative, returns the
    log without its first [i] entries, and nothing for an index at or past the
    end.  After [dispatchAction] on a live provider, asked from the former
    length of the log, it returns just the new action. *)
Theorem operations_since action st i :
  let ops := operationsArray (prov st) in
  r_next (getAllOperations st) = Ret ops /\
  r_next (getOperationsSince 0 st) = Ret ops /\
  (exists since, r_next (getOperationsSince i st) = Ret since /\ take i ops ++ since = ops) /\
  (length ops <= i -> r_next (getOperationsSince i st) = Ret []) /\
  (destroyed (prov st) = false ->
   r_next (getOperationsSince (length ops) (r_st (dispatchAction action st))) =
     Ret [fullAction action st]).
Proof.
  cbv zeta. unfold getAllOperations, getOperationsSince. cbn.
  split; [reflexivity|]. split; [reflexivity|].
  split; [eexists; split; [reflexivity | apply take_drop]|].
  split; [intros Hi; now rewrite drop_ge|].
  intros Hd. destruct (dispatchAction_run action st Hd) as (p' & e & Hrun & _ & Hops & _).
  rewrite Hrun. cbn. rewrite Hops. now rewrite drop_app_length.
Qed.

(** The host of the example: the log read from index 0 after one action. *)
Lemma operations_since_witness :
  r_next (getOperationsSince 0 (r_st (dispatchAction placeInput (w_state hostWorld)))) =
  Ret [mkAction placeInput 1000%Z "host-1"].
Proof.
  pose proof (operations_since placeInput (w_state hostWorld) 5) as H. cbv zeta in H.
  destruct H as (_ & _ & _ & _ & Hnew).
  exact (Hnew eq_refl).
Defined.

(** ** Messages on a data channel *)


(** ** Messages on the BroadcastChannel *)

Lemma notifyPlayersChange_posts st : exists r' e,
  notifyPlayersChange st = mkRun (mkState (prov st) r') e [] (Ret tt) /\
  broadcast_posts e = [] /\ channel_sends e = [].
Proof.
  destruct (notifyPlayersChange_run st) as (r' & e & Hrun & Hyes & Hno).
  exists r', e. split; [exact Hrun|].
  destruct (onPlayersChange (options (prov st))).
  - destruct (Hyes eq_refl) as (others & -> & _). split; reflexivity.
  - rewrite (Hno eq_refl). split; reflexivity.
Qed.

Lemma updateConnectionStatus_posts st : exists r' e,
  updateConnectionStatus st = mkRun (mkState (prov st) r') e [] (Ret tt) /\
  broadcast_posts e = [] /\ channel_sends e = [] /\
  (onConnectionChange (options (prov st)) = true ->
   In (CallOnConnectionChange true (size (connectedPeers (prov st)) + 1)) e).
Proof.
  destruct st as [p r]. unfold updateConnectionStatus. cbn.
  destruct (notifyPlayersChange_posts (mkState p r)) as (r' & e & Hrun & Hb & Hc).
  destruct (onConnectionChange (options p)); cbn; rewrite Hrun; cbn;
    eexists _, _; (split; [reflexivity|]);
    (split; [exact Hb|]); (split; [exact Hc|]); intros H; [left; reflexivity | discriminate].
Qed.

(** A message on the BroadcastChannel that carries the provider's own id is
    ignored.  An [awareness] message of another peer [q]: when [q] is new it
    joins the connected set, the observers are told, and the provider answers
    with its own announcement only while the fallback is active; when [q] is
    known already nothing happens at all. *)
Theorem broadcast_awareness_joins_once msg d q st :
  bm_body msg = MsgAwareness d ->
  from_or_peerId msg = Some q ->
  let r := broadcastOnMessage msg st in
  returns r tt /\
  (~ from_other (prov st) msg -> r_st r = st /\ r_eff r = []) /\
  (from_other (prov st) msg ->
   connectedPeers (prov (r_st r)) = {[q]} ∪ connectedPeers (prov st) /\
   (q ∈ connectedPeers (prov st) -> r_st r = st /\ r_eff r = []) /\
   (q ∉ connectedPeers (prov st) ->
    (onConnectionChange (options (prov st)) = true ->
     In (CallOnConnectionChange true (size (connectedPeers (prov st)) + 2)) (r_eff r)) /\
    broadcast_posts (r_eff r) =
      (if useLocalFallback (prov st) && bool_decide (is_Some (broadcastChannel (prov st)))
       then [announceMsg (prov st)] else []))).
Proof.
  destruct st as [p r]. unfold from_other. cbn [prov]. intros Hbody Hfrom. cbv zeta.
  unfold broadcastOnMessage, handleBroadcastMessage. cbn.
  destruct (opt_str_eqb (bm_from msg) (peerId p) || opt_str_eqb (bm_peerId msg) (peerId p))
    eqn:Hother.
  { cbn. split; [split; reflexivity|]. split; [intros _; split; reflexivity|]. discriminate. }
  rewrite Hbody, Hfrom. cbn.
  destruct (bool_decide (q ∈ connectedPeers p)) eqn:Hq.
  - apply bool_decide_eq_true in Hq. cbn.
    destruct (useLocalFallback p) eqn:Hfb; cbn; rewrite ?Hfb; cbn.
    all: split; [split; reflexivity|].
    all: split; [intros Hn; exfalso; apply Hn; reflexivity|]. 
    all: intros _.
    all: split; [symmetry; apply subseteq_union_1_L; apply singleton_subseteq_l; exact Hq|].
    all: split; [intros _; split; reflexivity | intros Hn; contradiction].
  - apply bool_decide_eq_false in Hq. cbn.
    match goal with
    | |- context [updateConnectionStatus ?s] =>
        destruct (updateConnectionStatus_posts s) as (r' & e & Hrun & Hposts & _ & Hrep);
        rewrite Hrun
    end.
    cbn in Hrep |- *.
    assert (Hsize : size ({[q]} ∪ connectedPeers p) + 1 = size (connectedPeers p) + 2).
    { rewrite size_union by (apply disjoint_singleton_l; exact Hq). rewrite size_singleton. lia. }
    rewrite Hsize in Hrep.
    destruct (broadcastChannel p) as [name|] eqn:Hbc; destruct (useLocalFallback p) eqn:Hfb;
      cbn; rewrite ?Hbc, ?Hfb; cbn.
    all: split; [split; reflexivity|].
    all: split; [intros Hn; exfalso; apply Hn; reflexivity|]. 
    all: intros _.
    all: split; [reflexivity|].
    all: split; [intros Hin; contradiction|]. 
    all: intros _; split;
      [intros Hon; rewrite ?in_app_iff; auto |
       rewrite ?broadcast_posts_app, Hposts; cbn; rewrite ?app_nil_r; reflexivity].
Qed.

(** The guest of the example on localhost hears of the host. *)
Lemma broadcast_awareness_joins_once_witness :
  connectedPeers (prov (r_st (broadcastOnMessage awarenessFromHost
                                (w_state localGuestConnected)))) = {["host-1"]}.
Proof.
  pose proof (broadcast_awareness_joins_once awarenessFromHost None "host-1"
                (w_state localGuestConnected) eq_refl eq_refl) as H.
  cbv zeta in H. destruct H as (_ & _ & H).
  assert (Ho : from_other (prov (w_state localGuestConnected)) awarenessFromHost)
    by (vm_compute; reflexivity).
  destruct (H Ho) as (Hpeers & _). rewrite Hpeers. vm_compute. reflexivity.
Defined.

(** A document update of another peer on the BroadcastChannel is merged only
    while the fallback is active, and what is merged is never posted back on
    the channel nor sent on a data channel. *)
Theorem broadcast_update_gated msg u st :
  from_other (prov st) msg ->
  bm_body msg = MsgUpdate (Some u) \/ bm_body msg = MsgSync (Some u) ->
  let r := broadcastOnMessage msg st in
  returns r tt /\
  (useLocalFallback (prov st) = false -> r_st r = st /\ r_eff r = []) /\
  (useLocalFallback (prov st) = true ->
   rt (r_st r) = rt st /\ doc_only (prov st) (prov (r_st r)) /\
   operationsArray (prov (r_st r)) = operationsArray (prov st) ++ u_ops u /\
   broadcast_posts (r_eff r) = [] /\ channel_sends (r_eff r) = []).
Proof.
  unfold from_other. intros Hother Hbody. cbv zeta.
  destruct (transact_run true u st) as (p' & e & Hrun & Hdoc & Hops & _ & Hs & Hb).
  rewrite andb_false_r in Hb.
  destruct st as [p r]. cbn [prov rt] in *.
  unfold broadcastOnMessage, handleBroadcastMessage. cbn. rewrite Hother.
  destruct Hbody as [Hbody | Hbody]; rewrite Hbody; cbn.
  all: destruct (useLocalFallback p) eqn:Hfb; cbn; rewrite ?Hfb; cbn; rewrite ?Hrun; cbn.
  all: split; [split; reflexivity|].
  all: split; [intros H; try discriminate; split; reflexivity|].
  all: intros H; try discriminate.
  all: repeat split; assumption.
Qed.

(** The guest of the example on localhost, connected, receives the host's
    operation; before [connect()] it would have dropped it. *)
Lemma broadcast_update_gated_witness :
  operationsArray (prov (r_st (broadcastOnMessage updateFromHost
                                 (w_state localGuestConnected)))) = [hostOp] /\
  r_st (broadcastOnMessage updateFromHost (w_state localGuestWorld)) = w_state localGuestWorld.
Proof.
  pose proof (broadcast_update_gated updateFromHost (mkUpdate [hostOp] [])
                (w_state localGuestConnected)) as H.
  pose proof (broadcast_update_gated updateFromHost (mkUpdate [hostOp] [])
                (w_state localGuestWorld)) as H0.
  cbv zeta in H, H0.
  match type of H with
  | ?A -> ?B -> _ =>
      assert (Ha : A) by (vm_compute; reflexivity);
      assert (Hb : B) by (left; reflexivity)
  end.
  match type of H0 with
  | ?A -> ?B -> _ =>
      assert (Ha0 : A) by (vm_compute; reflexivity);
      assert (Hb0 : B) by (left; reflexivity)
  end.
  destruct (H Ha Hb) as (_ & _ & Hon). destruct (H0 Ha0 Hb0) as (_ & Hoff & _).
  split.
  - assert (Hfb : useLocalFallback (prov (w_state localGuestConnected)) = true)
      by (vm_compute; reflexivity).
    destruct (Hon Hfb) as (_ & _ & Hops & _). rewrite Hops. vm_compute. reflexivity.
  - assert (Hfb : useLocalFallback (prov (w_state localGuestWorld)) = false)
      by (vm_compute; reflexivity).
    exact (proj1 (Hoff Hfb)).
Defined.

(** ** Polling the relay *)

(** What a poll does with the relay's answer. *)
Lemma poll_answered st sigs c rest :
  destroyed (prov st) = false ->
  feed (RespPoll sigs c :: rest) (pollSignals st) =
  feed rest (run_prefix [poll_request st]
               (try_catch (foreach sigs handleSignal) (ret tt) (with_cursor c st))).
Proof.
  destruct st as [p r]. cbn [prov]. intros Hd. unfold pollSignals, poll_request, with_cursor.
  cbn. rewrite Hd. reflexivity.
Qed.



(** ** Answers and offers *)

Lemma add_round pc c cs st a rest :
  feed (a :: rest) (foreach (c :: cs) (tryAddIceCandidate pc) st) =
  feed rest (run_prefix [Issue (AddIceCandidate pc c)] (foreach cs (tryAddIceCandidate pc) st)).
Proof. destruct st as [p r]. destruct a; reflexivity. Qed.

Lemma add_loop pc cs : forall answers st,
  length answers = length cs ->
  feed answers (foreach cs (tryAddIceCandidate pc) st) =
  mkRun st (applications pc cs) [] (Ret tt).
Proof.
  induction cs as [|c cs IH]; intros answers st Hlen.
  - destruct answers; [|discriminate]. reflexivity.
  - destruct answers as [|a answers]; [discriminate|]. injection Hlen as Hlen.
    rewrite add_round, feed_prefix, (IH answers st Hlen). reflexivity.
Qed.

(** An answer of a peer without a connection is ignored.  With a connection,
    the remote description is set, then the candidates bundled with the
    answer are applied in order, whatever [addIceCandidate] settles to; the
    provider's state is not touched (candidates buffered for the peer stay
    buffered).  A remote description that is rejected makes [handleSignal]
    throw. *)
Theorem answer_applied st remote sig sdp cs :
  answer_from remote sdp cs sig ->
  (peerConnections (prov st) !! remote = None ->
   handleSignal sig st = mkRun st [] [] (Ret tt)) /\
  (forall pc a answers,
     peerConnections (prov st) !! remote = Some pc ->
     not_rejected a -> length answers = length cs ->
     feed (a :: answers) (handleSignal sig st) =
     mkRun st (Issue (SetRemoteDescription pc (ArgInit sdp)) :: applications pc cs) []
           (Ret tt)) /\
  (forall pc, peerConnections (prov st) !! remote = Some pc ->
     feed [RespReject] (handleSignal sig st) =
     mkRun st [Issue (SetRemoteDescription pc (ArgInit sdp))] [] Throw).
Proof.
  intros (Ht & Hf & Hp). split; [|split].
  - intros Hpc. destruct st as [p r]. unfold handleSignal, handleAnswer.
    rewrite Ht, Hf, Hp. cbn in *. rewrite Hpc. reflexivity.
  - intros pc a answers Hpc Ha Hlen.
    transitivity (feed answers (run_prefix [Issue (SetRemoteDescription pc (ArgInit sdp))]
                                  (foreach cs (tryAddIceCandidate pc) st))).
    + destruct st as [p r]. unfold handleSignal, handleAnswer.
      rewrite Ht, Hf, Hp. cbn in *. rewrite Hpc.
      destruct a; [exfalso; apply Ha; reflexivity | reflexivity..].
    + rewrite feed_prefix, add_loop by exact Hlen. reflexivity.
  - intros pc Hpc. destruct st as [p r]. unfold handleSignal, handleAnswer.
    rewrite Ht, Hf, Hp. cbn in *. rewrite Hpc. reflexivity.
Qed.

(** The guest of the example has no connection for ["guest-1"]: the answer
    is ignored. *)
Lemma answer_applied_witness :
  handleSignal answerFromGuest (w_state guestWorld) = mkRun (w_state guestWorld) [] [] (Ret tt).
Proof.
  assert (Ha : answer_from "guest-1" exampleAnswer [] answerFromGuest) by (repeat split).
  pose proof (answer_applied (w_state guestWorld) "guest-1" answerFromGuest exampleAnswer [] Ha)
    as (H & _).
  exact (H eq_refl).
Defined.

(** When the remote description of an answer is rejected, the error leaves
    [handleAnswer] and ends the loop over the signals of the poll: the signals
    that came after the answer in the same response are not handled, and the
    cursor has moved past them already. *)
Theorem rejected_answer_drops_rest st remote sig sdp cs pc others c :
  destroyed (prov st) = false ->
  answer_from remote sdp cs sig ->
  peerConnections (prov st) !! remote = Some pc ->
  feed [RespPoll (sig :: others) c; RespReject] (pollSignals st) =
  mkRun (with_cursor c st)
        [poll_request st; Issue (SetRemoteDescription pc (ArgInit sdp))] [] (Ret tt).
Proof.
  intros Hd (Ht & Hf & Hp) Hpc. rewrite (poll_answered st _ c _ Hd).
  destruct st as [p r]. unfold with_cursor, poll_request. cbn [prov rt foreach].
  unfold handleSignal at 1. unfold handleAnswer. rewrite Ht, Hf, Hp. cbn in *. rewrite Hpc.
  reflexivity.
Qed.

(** The host of the example: the guest's answer is rejected, the announcement
    that followed it in the same response is lost. *)
Lemma rejected_answer_drops_rest_witness :
  r_eff (feed [RespPoll [answerFromGuest; announceFromGuest] "9"; RespReject]
           (pollSignals (w_state hostWithChannel))) =
  [Issue (FetchSignals "ABCDE" "host-1" "1001");
   Issue (SetRemoteDescription 1 (ArgInit exampleAnswer))].
Proof.
  assert (Ha : answer_from "guest-1" exampleAnswer [] answerFromGuest) by (repeat split).
  assert (Hd : destroyed (prov (w_state hostWithChannel)) = false) by (vm_compute; reflexivity).
  assert (Hpc : peerConnections (prov (w_state hostWithChannel)) !! "guest-1" = Some 1)
    by (vm_compute; reflexivity).
  rewrite (rejected_answer_drops_rest (w_state hostWithChannel) "guest-1" answerFromGuest
             exampleAnswer [] 1 [announceFromGuest] "9" Hd Ha Hpc).
  vm_compute. reflexivity.
Defined.

(** When the remote description of an offer is rejected, the error stays in
    [handleOffer]: the connection has been made, and the signals that came
    after the offer are handled as a poll answered with them alone would
    handle them. *)
Theorem rejected_offer_is_contained st remote sig sdp cs others c answers :
  destroyed (prov st) = false ->
  offer_from remote sdp cs sig ->
  peerConnections (prov st) !! remote = None ->
  feed (RespPoll (sig :: others) c :: RespReject :: answers) (pollSignals st) =
  feed answers
    (run_prefix [poll_request st; NewPeerConnection (rt_nextRef (rt st)) remote;
                 Issue (SetRemoteDescription (rt_nextRef (rt st)) (ArgInit sdp))]
       (try_catch (foreach others handleSignal) (ret tt)
          (with_connection remote (with_cursor c st)))).
Proof.
  intros Hd (Ht & Hf & Hp) Hpc. rewrite (poll_answered st _ c _ Hd).
  destruct st as [p r]. unfold with_cursor, poll_request, with_connection. cbn [prov rt foreach].
  unfold handleSignal at 1.
  unfold handleOffer, createPeerConnection, newPeerConnection, freshRef.
  rewrite Ht, Hf, Hp. cbn in *. rewrite Hpc.
  reflexivity.
Qed.

(** The guest of the example: the host's offer is rejected; the poll ends
    normally, with the connection made. *)
Lemma rejected_offer_is_contained_witness :
  r_next (feed [RespPoll [offerFromHost] "9"; RespReject] (pollSignals (w_state guestWorld))) =
  Ret tt.
Proof.
  assert (Ho : offer_from "host-1" exampleOffer [CandInit "c0"] offerFromHost)
    by (repeat split).
  rewrite (rejected_offer_is_contained (w_state guestWorld) "host-1" offerFromHost
             exampleOffer [CandInit "c0"] [] "9" [] eq_refl Ho eq_refl).
  reflexivity.
Defined.

(** ** Announcements *)

(** An announcement is ignored by a provider that is not the host, and by
    the host when it has a connection for the peer already: no second
    connection, no second offer. *)
Theorem announce_ignored st remote sig :
  announce_signal remote sig ->
  isHost (prov st) = false \/ is_Some (peerConnections (prov st) !! remote) ->
  handleSignal sig st = mkRun st [] [] (Ret tt).
Proof.
  intros (Ht & Hf & a & b & Hp) H. destruct st as [p r]. cbn [prov] in H.
  unfold handleSignal, createPeerConnection. rewrite Ht, Hf, Hp. cbn.
  destruct H as [Hg | [pc Hpc]].
  - rewrite Hg. reflexivity.
  - destruct (isHost p); [|reflexivity]. cbn. rewrite Hpc. reflexivity.
Qed.

(** The host of the example hears the guest's announcement a second time. *)
Lemma announce_ignored_witness :
  handleSignal announceFromGuest (w_state hostWithChannel) =
  mkRun (w_state hostWithChannel) [] [] (Ret tt).
Proof.
  assert (Ha : announce_signal "guest-1" announceFromGuest).
  { split; [reflexivity|]. split; [reflexivity|]. eexists _, _. reflexivity. }
  assert (Hpc : is_Some (peerConnections (prov (w_state hostWithChannel)) !! "guest-1")).
  { exists 1. vm_compute. reflexivity. }
  exact (announce_ignored (w_state hostWithChannel) "guest-1" announceFromGuest Ha
           (or_intror Hpc)).
Defined.

(** ** Requests that fail *)

Lemma room_rounds_left m statuses : forall (f : unit -> Co unit) st rest,
  feed (flat_map roomNotReady statuses ++ rest)
       (bind (waitForRoom (length statuses + m)) f st) =
  feed rest (run_prefix (repeat_list (length statuses) (roomRetryEffects (roomCode (prov st))))
               (bind (waitForRoom m) f st)).
Proof.
  induction statuses as [|s ss IH]; intros f st rest.
  - cbn. unfold run_prefix. cbn. destruct (bind (waitForRoom m) f st). reflexivity.
  - cbn [flat_map roomNotReady app length Nat.add repeat_list].
    rewrite room_round, feed_prefix, IH, <- feed_prefix, run_prefix_app. reflexivity.
Qed.

Lemma room_rejected n (f : unit -> Co unit) st :
  feed [RespReject] (bind (waitForRoom (S n)) f st) =
  mkRun st [Issue (FetchRoom (roomCode (prov st)))] [] Throw.
Proof. destruct st as [p r]. reflexivity. Qed.

(** A room lookup that fails as a request (the fetch rejects) ends the host's
    start of polling with an error that nothing catches: no interval is set
    and no poll is issued by this call. *)
Theorem room_lookup_rejected st statuses :
  isHost (prov st) = true -> length statuses < 6 ->
  let r := feed (flat_map roomNotReady statuses ++ [RespReject]) (startPolling st) in
  r_next r = Throw /\
  r_eff r = repeat_list (length statuses) (roomRetryEffects (roomCode (prov st))) ++
            [Issue (FetchRoom (roomCode (prov st)))] /\
  r_forks r = [] /\ r_st r = st.
Proof.
  intros Hh Hlen. cbv zeta. rewrite (startPolling_host st Hh).
  assert (Hm : exists m, 6 = length statuses + S m) by (exists (5 - length statuses); lia).
  destruct Hm as [m ->]. rewrite room_rounds_left.
  rewrite feed_prefix, room_rejected. cbn. repeat split.
Qed.

(** The host of the example: the room is not found twice, then the third
    lookup fails. *)
Lemma room_lookup_rejected_witness :
  r_next (feed (flat_map roomNotReady [404; 404] ++ [RespReject])
            (startPolling (w_state hostWorld))) = Throw.
Proof.
  assert (Hlen : length [404; 404] < 6) by (cbn; lia).
  exact (proj1 (room_lookup_rejected (w_state hostWorld) [404; 404] eq_refl Hlen)).
Defined.

(** A signal is posted once: whether the relay accepts it, answers with an
    error status or cannot be reached, [sendSignal] and [announcePresence]
    end without throwing, change nothing and do not try again. *)
Theorem signalling_errors_swallowed st type payload to resp resp' :
  let post := PostSignal (roomCode (prov st)) type (peerId (prov st)) to payload in
  let r := feed [resp; resp'] (sendSignal type payload to st) in
  let r' := feed [resp] (announcePresence st) in
  finished r /\ r_st r = st /\ r_forks r = [] /\
  r_eff r = Issue post :: match resp with
                          | RespHttp false _ => [Issue ResponseText]
                          | _ => []
                          end /\
  finished r' /\ r_st r' = st /\ r_forks r' = [] /\
  r_eff r' = [Issue (announce_request (prov st))].
Proof.
  cbv zeta. destruct st as [p r].
  unfold sendSignal, announcePresence, await_ok, announce_request. cbn.
  destruct resp as [| |[|] status| |]; cbn; try (repeat split; fail).
  destruct resp'; cbn; repeat split.
Qed.

(** The host's wait for its room does not look at [destroyed]: whatever has
    happened to the provider while the lookup was under way, [destroy()]
    included, a lookup answered OK is followed by [setInterval] and the
    interval is recorded.  On a destroyed provider the poll that follows
    returns without a request. *)
Theorem room_wait_ignores_destroy st0 st status :
  isHost (prov st0) = true ->
  awaits (r_next (startPolling st0)) = Some (FetchRoom (roomCode (prov st0))) /\
  let r := resumed (r_next (startPolling st0)) (RespHttp true status) st in
  r_eff r = SetInterval (rt_nextRef (rt st)) 2000 :: firstPoll (prov st) /\
  finished r /\
  pollingInterval (prov (r_st r)) = Some (rt_nextRef (rt st)) /\
  rt_nextRef (rt st) ∈ rt_intervals (rt (r_st r)) /\
  destroyed (prov (r_st r)) = destroyed (prov st).
Proof.
  intros Hh. rewrite (startPolling_host st0 Hh).
  destruct (start_interval_run st) as (st' & forks & Hrun & Hpi & Hin).
  assert (Hd : destroyed (prov (r_st ((id <- setInterval 2000 ;;
                 modP (set_pollingInterval (Some id)) ;; fork pollSignals)%co st))) =
               destroyed (prov st)).
  { destruct st as [p r]. unfold setInterval, freshRef, pollSignals. cbn.
    destruct (destroyed p) eqn:E; cbn; rewrite ?E; reflexivity. }
  rewrite Hrun in Hd. cbn in Hd.
  destruct st0 as [p0 r0]. split; [reflexivity|]. cbv zeta.
  change (resumed _ _ st) with
    (run_prefix [] ((id <- setInterval 2000 ;; modP (set_pollingInterval (Some id)) ;;
                     fork pollSignals)%co st)).
  rewrite Hrun. cbn. auto.
Qed.

(** The host of the example is destroyed while it looks its room up: the
    lookup answered, the interval is set all the same. *)
Lemma room_wait_ignores_destroy_witness :
  r_eff (resumed (r_next (startPolling (w_state hostWorld))) (RespHttp true 200)
           (r_st (destroy (w_state hostWorld)))) = [SetInterval 0 2000].
Proof.
  pose proof (room_wait_ignores_destroy (w_state hostWorld) (r_st (destroy (w_state hostWorld)))
                200 eq_refl) as (_ & H).
  cbv zeta in H. destruct H as (He & _). rewrite He. vm_compute. reflexivity.
Defined.

(** ** [destroy()] *)

Lemma foreach_close_effects l : forall st, exists r',
  foreach l (fun entry : string * nat => closePeerConnection entry.2) st =
  mkRun (mkState (prov st) r') (map (fun entry => ClosePeerConnection entry.2) l) [] (Ret tt) /\
  rt_intervals r' = rt_intervals (rt st).
Proof.
  induction l as [|x l IH]; intros [p r]; cbn [foreach].
  - exists r. split; reflexivity.
  - unfold closePeerConnection at 1. cbn.
    match goal with
    | |- context [foreach l _ ?s] => destruct (IH s) as (r' & Hrun & Hi); rewrite Hrun
    end.
    cbn. exists r'. split; [reflexivity | exact Hi].
Qed.

(** [destroy()] on a live provider: it runs to its end; every connection of
    the table is closed, once, and both tables are emptied; a recorded
    interval is cleared; the BroadcastChannel, if there is one, is closed; the
    log and the metadata stay readable. *)
Theorem destroy_tears_down st :
  destroyed (prov st) = false ->
  let r := destroy st in
  let p' := prov (r_st r) in
  returns r tt /\
  destroyed p' = true /\
  peerConnections p' = ∅ /\ dataChannels p' = ∅ /\
  pollingInterval p' = None /\ broadcastChannel p' = None /\
  closed_connections (r_eff r) ≡ₚ map snd (map_to_list (peerConnections (prov st))) /\
  (forall id, pollingInterval (prov st) = Some id ->
     In (ClearInterval id) (r_eff r) /\ id ∉ rt_intervals (rt (r_st r))) /\
  (In BroadcastClose (r_eff r) <-> broadcastChannel (prov st) <> None) /\
  operationsArray p' = operationsArray (prov st) /\ metaMap p' = metaMap (prov st).
Proof.
  destruct st as [p r]. cbn [prov rt]. intros Hd. cbv zeta.
  unfold destroy, clearInterval. cbn. rewrite Hd. cbn.
  destruct (pollingInterval p) as [id|] eqn:Hpi; cbn.
  all: match goal with
       | |- context [foreach ?l _ ?s] =>
           destruct (foreach_close_effects l s) as (r' & Hrun & Hi); rewrite Hrun
       end; cbn in Hi |- *.
  all: destruct (broadcastChannel p) as [name|] eqn:Hbc; cbn.
  all: split; [split; reflexivity|].
  all: do 5 (split; [first [reflexivity | assumption]|]).
  all: split; [rewrite ?closed_connections_app, ?closed_connections_map; cbn;
               rewrite ?closed_connections_app, ?closed_connections_map, ?app_nil_r;
               reflexivity|].
  all: split; [intros id' Hid'; try discriminate|].
  all: try (injection Hid' as <-; split; [left; reflexivity|];
            rewrite Hi; intros Hin; apply elem_of_difference in Hin as [_ Hin];
            apply Hin; apply elem_of_singleton; reflexivity).
  all: split; [|split; first [reflexivity | assumption]].
  all: split; [intros Hin | intros Hne].
  all: try discriminate.
  all: try (rewrite ?in_app_iff; cbn; auto 10; fail).
  all: try (exfalso; apply Hne; reflexivity).
  all: exfalso; cbn in Hin; rewrite ?in_app_iff in Hin; cbn in Hin.
  all: repeat (destruct Hin as [Hin | Hin]; try discriminate Hin; try contradiction).
  all: apply in_map_iff in Hin as (x & Hx & _); discriminate Hx.
Qed.

(** The host of the example after the negotiation: connection 1 is closed. *)
Lemma destroy_tears_down_witness :
  closed_connections (r_eff (destroy (w_state hostWithChannel))) ≡ₚ [1].
Proof.
  pose proof (destroy_tears_down (w_state hostWithChannel)) as H. cbv zeta in H.
  match type of H with
  | ?A -> _ => assert (Hd : A) by (vm_compute; reflexivity)
  end.
  destruct (H Hd) as (_ & _ & _ & _ & _ & _ & Hc & _).
  rewrite Hc. vm_compute. reflexivity.
Defined.

(** ** The loopback fallback *)

Lemma enableLocalFallback_returns st : r_next (enableLocalFallback st) = Ret tt.
Proof.
  destruct st as [p r]. unfold enableLocalFallback. cbn.
  destruct (useLocalFallback p); [reflexivity|]. cbn.
  destruct (broadcastChannel p); [|reflexivity]. cbn.
  destruct (isHost p); cbn.
  all: match goal with
       | |- context [updateConnectionStatus ?s] =>
           destruct (updateConnectionStatus_posts s) as (r' & e & Hrun & _); rewrite Hrun
       end; reflexivity.
Qed.

(** [enableLocalFallback] does nothing when the fallback is active already
    or when there is no BroadcastChannel.  Otherwise it sets the flag and
    announces the provider; a host starts nothing else, a guest starts one
    call that waits 100 ms and then posts a [state-request], unless the
    channel is gone by then (the provider was destroyed in between). *)
Theorem fallback_activation st :
  (useLocalFallback (prov st) = true \/ broadcastChannel (prov st) = None ->
   enableLocalFallback st = mkRun st [] [] (Ret tt)) /\
  (useLocalFallback (prov st) = false -> broadcastChannel (prov st) <> None ->
   let r := enableLocalFallback st in
   r_next r = Ret tt /\
   useLocalFallback (prov (r_st r)) = true /\
   broadcast_posts (r_eff r) = [announceMsg (prov st)] /\
   (isHost (prov st) = true -> r_forks r = []) /\
   (isHost (prov st) = false ->
    exists t, r_forks r = [t] /\ awaits t = Some (Sleep 100) /\
      forall resp st',
        resumed t resp st' =
        mkRun st'
          (match broadcastChannel (prov st') with
           | Some _ => [BroadcastPost (stateRequestMsg (prov st))]
           | None => []
           end) [] (Ret tt))).
Proof.
  destruct st as [p r]. cbn [prov]. split.
  - intros H. unfold enableLocalFallback. cbn.
    destruct (useLocalFallback p); [reflexivity|]. cbn.
    destruct H as [H | H]; [discriminate | rewrite H; reflexivity].
  - intros Hfb Hbc. cbv zeta. unfold enableLocalFallback. cbn. rewrite Hfb. cbn.
    destruct (broadcastChannel p) as [name|] eqn:Hb; [|contradiction]. cbn.
    destruct (isHost p) eqn:Hh; cbn.
    + match goal with
      | |- context [updateConnectionStatus ?s] =>
          destruct (updateConnectionStatus_posts s) as (r' & e & Hrun & Hposts & _);
          rewrite Hrun
      end.
      cbn. split; [reflexivity|]. split; [reflexivity|].
      split; [unfold announceMsg; f_equal; exact Hposts|].
      split; [reflexivity | discriminate].
    + match goal with
      | |- context [updateConnectionStatus ?s] =>
          destruct (updateConnectionStatus_posts s) as (r' & e & Hrun & Hposts & _);
          rewrite Hrun
      end.
      cbn. split; [reflexivity|]. split; [reflexivity|].
      split; [unfold announceMsg; f_equal; exact Hposts|].
      split; [discriminate|]. intros _. eexists. split; [reflexivity|].
      split; [reflexivity|]. intros resp [p' r'']. cbn.
      destruct (broadcastChannel p'); reflexivity.
Qed.

(** The guest of the example on localhost, before [connect()]: the fallback
    is switched on and the guest announces itself. *)
Lemma fallback_activation_witness :
  broadcast_posts (r_eff (enableLocalFallback (w_state localGuestWorld))) =
  [announceMsg (prov (w_state localGuestWorld))].
Proof.
  pose proof (fallback_activation (w_state localGuestWorld)) as [_ H]. cbv zeta in H.
  assert (Hbc : broadcastChannel (prov (w_state localGuestWorld)) <> None)
    by (vm_compute; discriminate).
  destruct (H eq_refl Hbc) as (_ & _ & Hposts & _). exact Hposts.
Defined.

(** ** The life of a data channel *)

Lemma syncDocument_run remote st :
  syncDocument remote st =
  mkRun st (match channel_open st remote with
            | Some channel => sync_frames (prov st) channel
            | None => []
            end) [] (Ret tt).
Proof.
  destruct st as [p r].
  unfold syncDocument, encodeStateAsUpdate, readyStateOf, channel_open, sync_frames.
  cbn.
  destruct (dataChannels p !! remote) as [ch|]; [|destruct (awarenessLocal p); reflexivity].
  cbn.
  destruct (rt_chans r !! ch) as [c|] eqn:Hc; cbn.
  - destruct (is_open (ch_readyState c)) eqn:Ho; cbn;
      destruct (awarenessLocal p); cbn; rewrite ?Hc; cbn; rewrite ?Ho; reflexivity.
  - destruct (awarenessLocal p); cbn; rewrite ?Hc; reflexivity.
Qed.

(** When a data channel of [remote] opens: if it is the channel registered
    for [remote], the provider sends on it its whole document, then its
    awareness state if it has one; a guest then asks for the game state on the
    channel that opened.  When no channel is registered for [remote] any more
    nothing is synchronised, but a guest still sends its request.  The
    provider itself is not changed. *)
Theorem channel_open_sync w ch c remote :
  rt_chans (rt (w_state w)) !! ch = Some c -> ch_peer c = Some remote ->
  let p := prov (w_state w) in
  let request := if isHost p then [] else [ChannelSend ch MsgStateRequest] in
  prov (w_state (step (ChannelOpen ch) w).1) = p /\
  (dataChannels p !! remote = Some ch ->
   (step (ChannelOpen ch) w).2 = sync_frames p ch ++ request) /\
  (dataChannels p !! remote = None ->
   (step (ChannelOpen ch) w).2 = request).
Proof.
  intros Hch Hpeer. cbv zeta. unfold step. cbn [dispatch]. rewrite Hch, Hpeer.
  destruct w as [[p r] pool next]. cbn [w_state prov rt] in *.
  set (st1 := mkState p (set_chan ch (fun c => mkChan (ch_peer c) RsOpen) r)).
  assert (Hrun : channelOnOpen ch remote st1 =
            mkRun st1 (match channel_open st1 remote with
                       | Some channel => sync_frames p channel
                       | None => []
                       end ++ if isHost p then [] else [ChannelSend ch MsgStateRequest])
                  [] (Ret tt)).
  { unfold channelOnOpen. unfold bind at 1. rewrite syncDocument_run. cbn.
    destruct (isHost p); cbn; rewrite ?app_nil_r; reflexivity. }
  unfold with_rt, with_state. cbn [w_state w_tasks w_nextTask prov rt]. fold st1.
  rewrite (run_sync (channelOnOpen ch remote) (mkWorld st1 pool next) _ _ Hrun).
  cbn [fst snd w_state prov].
  split; [reflexivity|]. unfold channel_open, st1. cbn [prov rt].
  split; intros Hreg; rewrite Hreg; [|reflexivity].
  unfold set_chan. cbn. rewrite lookup_alter_eq, Hch. reflexivity.
Qed.

(** The host of the example: channel 2 opens, the document and the awareness
    state are sent on it, and the host asks for nothing. *)
Lemma channel_open_sync_witness :
  map fst (channel_sends (step (ChannelOpen 2) hostBeforeOpen).2) = [2; 2].
Proof.
  pose proof (channel_open_sync hostBeforeOpen 2 (mkChan (Some "guest-1") RsConnecting)
                "guest-1") as H.
  cbv zeta in H.
  match type of H with
  | ?A -> ?B -> _ =>
      assert (Ha : A) by (vm_compute; reflexivity);
      assert (Hb : B) by reflexivity
  end.
  destruct (H Ha Hb) as (_ & Hsync & _).
  assert (Hreg : dataChannels (prov (w_state hostBeforeOpen)) !! "guest-1" = Some 2)
    by (vm_compute; reflexivity).
  rewrite (Hsync Hreg). vm_compute. reflexivity.
Defined.

(** When a channel of [remote] closes, the entry of [remote] is taken out of
    [dataChannels] whichever channel it holds: a newer channel that has
    replaced the closing one is unregistered too.  Nothing is sent or
    reported, the connection stays in its table, and the entries of other
    peers stay. *)
Theorem channel_close_unregisters w ch c remote :
  rt_chans (rt (w_state w)) !! ch = Some c -> ch_peer c = Some remote ->
  let w' := (step (ChannelClose ch) w).1 in
  (step (ChannelClose ch) w).2 = [] /\
  dataChannels (prov (w_state w')) = delete remote (dataChannels (prov (w_state w))) /\
  channel_open (w_state w') remote = None /\
  peerConnections (prov (w_state w')) = peerConnections (prov (w_state w)) /\
  connectedPeers (prov (w_state w')) = connectedPeers (prov (w_state w)) /\
  rt_chans (rt (w_state w')) !! ch = Some (mkChan (Some remote) RsClosed) /\
  (forall ch', ch' <> ch ->
     rt_chans (rt (w_state w')) !! ch' = rt_chans (rt (w_state w)) !! ch') /\
  (forall q, q <> remote ->
     dataChannels (prov (w_state w')) !! q = dataChannels (prov (w_state w)) !! q).
Proof.
  intros Hch Hpeer. cbv zeta. unfold step. cbn [dispatch]. rewrite Hch, Hpeer.
  destruct w as [[p r] pool next]. cbn in Hch.
  erewrite run_sync by reflexivity. cbn.
  split; [reflexivity|]. split; [reflexivity|].
  split; [unfold channel_open; cbn; now rewrite lookup_delete_eq|].
  split; [reflexivity|]. split; [reflexivity|].
  split; [rewrite lookup_alter_eq, Hch; cbn; now rewrite Hpeer|].
  split.
  - intros ch' Hne. now rewrite lookup_alter_ne by congruence.
  - intros q Hne. now rewrite lookup_delete_ne by congruence.
Qed.

(** The host of the example: channel 2 closes, the guest still counts as
    connected. *)
Lemma channel_close_unregisters_witness :
  dataChannels (prov (w_state (step (ChannelClose 2) hostWithChannel).1)) = ∅ /\
  peerConnections (prov (w_state (step (ChannelClose 2) hostWithChannel).1)) !! "guest-1" =
    Some 1.
Proof.
  pose proof (channel_close_unregisters hostWithChannel 2 (mkChan (Some "guest-1") RsOpen)
                "guest-1") as H.
  cbv zeta in H.
  match type of H with
  | ?A -> ?B -> _ =>
      assert (Ha : A) by (vm_compute; reflexivity);
      assert (Hb : B) by reflexivity
  end.
  destruct (H Ha Hb) as (_ & Hd & _ & Hpc & _).
  rewrite Hd, Hpc. split; vm_compute; reflexivity.
Defined.

(** ** [connect()] *)

Lemma room_wait_state n (f : unit -> Co unit) st :
  r_st (bind (waitForRoom (S n)) f st) = st.
Proof. destruct st as [p r]. reflexivity. Qed.

(** [connect()] returns without waiting on a destroyed provider, on
    localhost and on the host: there it has only started the polling.  On a
    live guest away from localhost it sets the polling interval (unless one is
    recorded already) and issues the first poll before it posts the
    announcement, and it waits for the announcement only; called again while
    the interval is recorded it announces again. *)
Theorem connect_awaits_announcement st :
  let r := connect st in
  (destroyed (prov st) = true \/ rt_localhost (rt st) = true \/ isHost (prov st) = true ->
   r_next r = Ret tt) /\
  (destroyed (prov st) = false -> rt_localhost (rt st) = false -> isHost (prov st) = false ->
   waits_for r (announce_request (prov st)) /\
   exists pre, Forall (fun x => is_callback x = true) pre /\
     match pollingInterval (prov st) with
     | None =>
         exists id, r_eff r = pre ++ [SetInterval id 2000; poll_request st;
                                      Issue (announce_request (prov st))] /\
                    pollingInterval (prov (r_st r)) = Some id /\
                    id ∈ rt_intervals (rt (r_st r))
     | Some id =>
         r_eff r = pre ++ [Issue (announce_request (prov st))] /\
         r_forks r = [] /\ prov (r_st r) = prov st
     end).
Proof.
  destruct st as [p r]. cbn [prov rt]. cbv zeta.
  destruct (notifyPlayersChange_run (mkState p r)) as (r' & e & Hrun & Hyes & Hno).
  pose proof (notifyPlayersChange_offline (mkState p r)) as (HQ & _ & _).
  rewrite Hrun in HQ. cbn in HQ.
  assert (Hl' : rt_localhost r' = rt_localhost r) by (destruct HQ as (_ & _ & HQ); exact HQ).
  assert (He : Forall (fun x => is_callback x = true) e).
  { cbn in Hyes, Hno. destruct (onPlayersChange (options p)).
    - destruct (Hyes eq_refl) as (others & -> & _). repeat constructor.
    - rewrite (Hno eq_refl). constructor. }
  split.
  - intros H. unfold connect. cbn.
    destruct (destroyed p); [reflexivity|]. cbn.
    pose proof (enableLocalFallback_returns (mkState p r')) as Hfb.
    unfold startSignalPolling.
    destruct (onConnectionChange (options p)); cbn; rewrite Hrun; cbn; rewrite Hl'.
    all: destruct (rt_localhost r); cbn; [exact Hfb|].
    all: destruct H as [H | [H | H]]; try discriminate.
    all: destruct (pollingInterval p); cbn; rewrite ?H; try reflexivity.
    all: rewrite (startPolling_host (mkState p r') H), room_wait_state; cbn; rewrite H;
      reflexivity.
  - intros Hd Hl Hh. rewrite Hl in Hl'.
    unfold connect, startSignalPolling, startPolling, announcePresence, await_ok, setInterval,
      freshRef, pollSignals, announce_request, poll_request.
    cbn. rewrite Hd. cbn.
    destruct (onConnectionChange (options p)); cbn; rewrite Hrun; cbn; rewrite Hl'; cbn.
    all: destruct (pollingInterval p) as [id|] eqn:Hpi; cbn;
      repeat (progress (rewrite ?Hh, ?Hd; cbn)).
    all: split; [unfold waits_for; cbn; reflexivity|].
    all: first [exists (CallOnConnectionChange true 1 :: e);
                  split; [constructor; [reflexivity | exact He]|];
                  first [split; [reflexivity | split; reflexivity]
                        | eexists; split; [reflexivity | split; [reflexivity|]]]
                | exists e; split; [exact He|];
                  first [split; [reflexivity | split; reflexivity]
                        | eexists; split; [reflexivity | split; [reflexivity|]]]].
    all: apply elem_of_union_l, elem_of_singleton; reflexivity.
Qed.

(** The guest of the example: [connect()] waits for the announcement, the
    host's returns. *)
Lemma connect_awaits_announcement_witness :
  waits_for (connect (w_state guestWorld))
    (PostSignal "ABCDE" SigOffer "guest-1" None (PayAnnounce "guest-1" "Bob")) /\
  r_next (connect (w_state hostWorld)) = Ret tt.
Proof.
  pose proof (connect_awaits_announcement (w_state guestWorld)) as [_ Hg].
  pose proof (connect_awaits_announcement (w_state hostWorld)) as [Hh _].
  split.
  - exact (proj1 (Hg eq_refl eq_refl eq_refl)).
  - apply Hh. right. right. reflexivity.
Defined.

(** * Properties of the callers *)

(** ** [broadcastAction] *)

Section SyncFacts.

Variable stringify : GameActionInput -> string.

Lemma dispatched_app e1 e2 : dispatched (e1 ++ e2) = dispatched e1 ++ dispatched e2.
Proof. unfold dispatched. apply flat_map_app. Qed.

Lemma sync_step_last ev lastActionRef sent :
  ref_is_last stringify lastActionRef sent ->
  ref_is_last stringify (sync_step stringify ev lastActionRef).1
              (sent ++ dispatched (sync_step stringify ev lastActionRef).2).
Proof.
  intros H. destruct ev as [connected action | key]; cbn.
  - unfold broadcastAction. destruct connected; cbn; [|now rewrite app_nil_r].
    destruct (bool_decide (lastActionRef = Some (stringify action))); cbn.
    + now rewrite app_nil_r.
    + exists action. split; [apply last_snoc | reflexivity].
  - rewrite app_nil_r. unfold timeoutCallback.
    destruct (bool_decide (lastActionRef = Some key)); [exact I | exact H].
Qed.

Lemma sync_steps_last evs : forall lastActionRef sent,
  ref_is_last stringify lastActionRef sent ->
  ref_is_last stringify (sync_steps stringify evs lastActionRef).1
              (sent ++ dispatched (sync_steps stringify evs lastActionRef).2).
Proof.
  induction evs as [|ev evs IH]; intros lastActionRef sent H; cbn [sync_steps].
  - cbn. now rewrite app_nil_r.
  - pose proof (sync_step_last ev lastActionRef sent H) as H1.
    destruct (sync_step stringify ev lastActionRef) as [ref1 e1]. cbn in H1.
    specialize (IH ref1 _ H1).
    destruct (sync_steps stringify evs ref1) as [ref2 e2]. cbn in IH |- *.
    rewrite dispatched_app, app_assoc. exact IH.
Qed.

(** Whatever calls and timers came before, starting from an empty
    [lastActionRef]: [broadcastAction(action)] on a connected context either
    dispatches the action, once, or drops it, and it drops it only when the
    action dispatched last has the same key.  While the context is not
    connected nothing is dispatched and nothing is remembered. *)
Theorem broadcast_drops_only_repeats evs action :
  let '(lastActionRef, before) := sync_steps stringify evs None in
  let '(ref', e) := broadcastAction stringify true action lastActionRef in
  (dispatched e = [action] /\ ref' = Some (stringify action) \/
   dispatched e = [] /\ ref' = lastActionRef /\
   exists b, last (dispatched before) = Some b /\ stringify b = stringify action) /\
  broadcastAction stringify false action lastActionRef = (lastActionRef, []).
Proof.
  pose proof (sync_steps_last evs None [] I) as H.
  destruct (sync_steps stringify evs None) as [lastActionRef before]. cbn in H.
  unfold broadcastAction. cbn.
  destruct (bool_decide (lastActionRef = Some (stringify action))) eqn:E.
  - apply bool_decide_eq_true in E. split; [|reflexivity]. right.
    split; [reflexivity|]. split; [reflexivity|]. rewrite E in H. exact H.
  - split; [|reflexivity]. left. split; reflexivity.
Qed.

Lemma broadcast_new action lastActionRef :
  lastActionRef <> Some (stringify action) ->
  broadcastAction stringify true action lastActionRef =
  (Some (stringify action), [SetTimeout (stringify action) 100; DispatchAction action]).
Proof. intros H. unfold broadcastAction. cbn [negb]. now rewrite bool_decide_eq_false_2. Qed.

Lemma broadcast_same action lastActionRef :
  lastActionRef = Some (stringify action) ->
  broadcastAction stringify true action lastActionRef = (lastActionRef, []).
Proof. intros H. unfold broadcastAction. cbn [negb]. now rewrite bool_decide_eq_true_2. Qed.

(** An action broadcast again before any timer has fired is dispatched once,
    however often it is repeated. *)
Lemma repeats_dropped action n lastActionRef :
  lastActionRef = Some (stringify action) ->
  sync_steps stringify (repeat (BroadcastAction true action) n) lastActionRef =
  (lastActionRef, []).
Proof.
  intros H. induction n as [|n IH]; cbn [repeat sync_steps sync_step]; [reflexivity|].
  rewrite (broadcast_same _ _ H), IH. reflexivity.
Qed.

(** The timer does not belong to one call: the timer armed by an earlier
    dispatch of an action clears the mark left by a later dispatch of the
    same action.  After [a], [b], [a] (all dispatched, [b] with another key),
    the first timer of [a] fires and [a] is dispatched once more, whereas
    without that timer it is dropped however often it is repeated. *)
Theorem stale_timer_reopens a b n :
  stringify a <> stringify b ->
  let burst := [BroadcastAction true a; BroadcastAction true b; BroadcastAction true a] in
  dispatched (sync_steps stringify
                (burst ++ TimeoutFires (stringify a) :: repeat (BroadcastAction true a) (S n))
                None).2 = [a; b; a; a] /\
  dispatched (sync_steps stringify (burst ++ repeat (BroadcastAction true a) (S n)) None).2 =
    [a; b; a].
Proof.
  intros Hne. cbv zeta.
  assert (Hba : Some (stringify b) <> Some (stringify a)) by congruence.
  assert (Hab : Some (stringify a) <> Some (stringify b)) by congruence.
  assert (Hna : None <> Some (stringify a)) by discriminate.
  split.
  - cbn [app repeat sync_steps sync_step].
    rewrite (broadcast_new a None Hna), (broadcast_new b _ Hab), (broadcast_new a _ Hba).
    unfold timeoutCallback. rewrite bool_decide_eq_true_2 by reflexivity.
    rewrite (broadcast_new a None Hna), (repeats_dropped a n _ eq_refl). reflexivity.
  - cbn [app repeat sync_steps sync_step].
    rewrite (broadcast_new a None Hna), (broadcast_new b _ Hab), (broadcast_new a _ Hba).
    rewrite (broadcast_same a _ eq_refl), (repeats_dropped a n _ eq_refl). reflexivity.
Qed.

End SyncFacts.

(** Two actions of different types, the type taken as the key. *)
Lemma stale_timer_reopens_witness :
  dispatched (sync_steps action_type
                [BroadcastAction true placeInput; BroadcastAction true bulldozeInput;
                 BroadcastAction true placeInput; TimeoutFires "place";
                 BroadcastAction true placeInput] None).2 =
  [placeInput; bulldozeInput; placeInput; placeInput].
Proof.
  assert (Hne : action_type placeInput <> action_type bulldozeInput) by (cbn; discriminate).
  exact (proj1 (stale_timer_reopens action_type placeInput bulldozeInput 0 Hne)).
Defined.

(** ** [joinRoom] *)

Lemma lookupRoom_requests rounds : forall attempt code answers,
  Forall (fun r => r = FetchRoom code \/ r = Sleep 500) (lookupRoom rounds attempt code answers).1 /\
  room_fetches (lookupRoom rounds attempt code answers).1 <= rounds /\
  room_waits (lookupRoom rounds attempt code answers).1 <= 2 - attempt /\
  (rounds <= length answers -> (lookupRoom rounds attempt code answers).2 <> LookupPending).
Proof.
  induction rounds as [|rounds IH]; intros attempt code answers; cbn [lookupRoom].
  - cbn. repeat split; [constructor | lia | lia | discriminate].
  - destruct answers as [|[message | [|] status body] rest].
    + cbn. repeat split; [repeat constructor; auto | lia | lia | lia].
    + cbn. repeat split; [repeat constructor; auto | lia | lia | discriminate].
    + cbn. repeat split; [repeat constructor; auto | lia | lia |].
      intros _. destruct body as [m | [room|] e]; discriminate.
    + destruct ((status =? 404) && (attempt <? 2)) eqn:E.
      * apply andb_true_iff in E as [_ E]. apply Nat.ltb_lt in E.
        destruct (IH (S attempt) code rest) as (H1 & H2 & H3 & H4).
        destruct (lookupRoom rounds (S attempt) code rest) as [requests result].
        unfold room_fetches, room_waits in *. cbn in *.
        split; [constructor; [left; reflexivity|]; constructor; [right; reflexivity | exact H1]|].
        split; [lia|]. split; [lia|].
        intros Hl; apply H4; lia.
      * cbn. repeat split; [repeat constructor; auto | lia | lia |].
        intros _. destruct body as [m | room e]; discriminate.
Qed.

(** The room lookup of [joinRoom] makes at most three requests to the room
    endpoint, waits at most twice, 500 ms each time, and has ended once three
    requests are answered. *)
Theorem join_lookup_bounded code answers :
  let '(requests, result) := joinLookup code answers in
  Forall (fun r => r = FetchRoom code \/ r = Sleep 500) requests /\
  room_fetches requests <= 3 /\ room_waits requests <= 2 /\
  (3 <= length answers -> result <> LookupPending).
Proof.
  pose proof (lookupRoom_requests 3 0 code answers) as H. unfold joinLookup.
  destruct (lookupRoom 3 0 code answers) as [requests result]. exact H.
Qed.

(** The rounds that find no room: a request and a wait each. *)
Lemma lookup_skips pre : forall rounds attempt code rest,
  Forall not_found pre -> length pre + attempt <= 2 -> length pre <= rounds ->
  lookupRoom rounds attempt code (pre ++ rest) =
  (repeat_list (length pre) [FetchRoom code; Sleep 500] ++
     (lookupRoom (rounds - length pre) (attempt + length pre) code rest).1,
   (lookupRoom (rounds - length pre) (attempt + length pre) code rest).2).
Proof.
  induction pre as [|c pre IH]; intros rounds attempt code rest Hnf Hlen Hr.
  - cbn. rewrite Nat.sub_0_r, Nat.add_0_r. destruct (lookupRoom _ _ _ _); reflexivity.
  - inversion Hnf as [|? ? [body ->] Hnf']; subst. cbn [length] in Hlen, Hr.
    destruct rounds as [|rounds]; [lia|]. cbn [lookupRoom app].
    assert (Ha : (attempt <? 2) = true) by (apply Nat.ltb_lt; lia).
    rewrite Ha. cbn [Nat.eqb andb].
    rewrite (IH rounds (S attempt) code rest Hnf') by lia.
    cbn [length Nat.sub repeat_list app].
    replace (attempt + S (length pre)) with (S attempt + length pre) by lia.
    reflexivity.
Qed.

Lemma lookupRoom_found rounds : forall attempt code answers room,
  rounds + attempt = 3 ->
  (lookupRoom rounds attempt code answers).2 = RoomFound room ->
  exists pre status error rest,
    answers = pre ++ CheckResponse true status (BodyJson (Some room) error) :: rest /\
    length pre + attempt <= 2 /\ Forall not_found pre.
Proof.
  induction rounds as [|rounds IH]; intros attempt code answers room Hsum; cbn [lookupRoom].
  - discriminate.
  - destruct answers as [|[message | [|] status body] rest]; try discriminate.
    + destruct body as [m | [room'|] e]; try discriminate. cbn. intros [= ->].
      exists [], status, e, rest. split; [reflexivity|]. split; [cbn; lia | constructor].
    + destruct ((status =? 404) && (attempt <? 2)) eqn:E.
      * apply andb_true_iff in E as [Es Ea]. apply Nat.eqb_eq in Es as ->.
        apply Nat.ltb_lt in Ea.
        specialize (IH (S attempt) code rest room).
        destruct (lookupRoom rounds (S attempt) code rest) as [requests result]. cbn.
        intros ->. destruct (IH ltac:(lia) eq_refl) as (pre & s & e & rest' & -> & Hlen & Hnf).
        exists (CheckResponse false 404 body :: pre), s, e, rest'.
        split; [reflexivity|]. split; [cbn; lia|]. constructor; [eexists; reflexivity | exact Hnf].
      * destruct body; discriminate.
Qed.

(** [joinRoom] finds the room exactly when a response is OK and carries a
    room, after at most two responses before it that all had status 404;
    it has then made one request for each of these responses, with a wait of
    500 ms after each but the last. *)
Theorem join_lookup_found code answers room :
  (joinLookup code answers).2 = RoomFound room <->
  exists pre status error rest,
    answers = pre ++ CheckResponse true status (BodyJson (Some room) error) :: rest /\
    length pre <= 2 /\ Forall not_found pre /\
    (joinLookup code answers).1 =
      repeat_list (length pre) [FetchRoom code; Sleep 500] ++ [FetchRoom code].
Proof.
  unfold joinLookup. split.
  - intros H. destruct (lookupRoom_found 3 0 code answers room eq_refl H)
      as (pre & status & e & rest & -> & Hlen & Hnf).
    exists pre, status, e, rest. split; [reflexivity|]. split; [lia|]. split; [exact Hnf|].
    rewrite (lookup_skips pre 3 0 code _ Hnf) by lia. cbn [fst].
    destruct (3 - length pre) as [|k] eqn:Hk; [lia|]. reflexivity.
  - intros (pre & status & e & rest & -> & Hlen & Hnf & _).
    rewrite (lookup_skips pre 3 0 code _ Hnf) by lia. cbn [snd].
    destruct (3 - length pre) as [|k] eqn:Hk; [lia|]. reflexivity.
Qed.

(** The room is found at the second lookup. *)
Lemma join_lookup_found_witness :
  (joinLookup "ABCDE"
     [notFound404; CheckResponse true 200 (BodyJson (Some (mkRoomRecord None None None)) None)]).2 =
  RoomFound (mkRoomRecord None None None).
Proof.
  apply (proj2 (join_lookup_found "ABCDE"
                  [notFound404;
                   CheckResponse true 200 (BodyJson (Some (mkRoomRecord None None None)) None)]
                  (mkRoomRecord None None None))).
  exists [notFound404], 200, None, [].
  split; [reflexivity|]. split; [cbn; lia|].
  split; [repeat constructor; eexists; reflexivity | reflexivity].
Defined.

(** How [joinRoom] fails to find the room, after [pre], at most two
    responses with status 404: a request that is rejected, or a body that
    does not parse, throws its own error; a response that is OK but carries
    no room throws ["Room not found after retries"]; a response that is not
    OK, with a status other than 404 or as the third response, throws the
    [error] of its body, or ["Room not found"] when there is none.  So a room
    that stays unknown to the endpoint for three lookups is reported with the
    endpoint's message, never with ["Room not found after retries"]. *)
Theorem join_lookup_fails code pre rest :
  Forall not_found pre -> length pre <= 2 ->
  (forall message,
     (joinLookup code (pre ++ CheckRejected message :: rest)).2 = LookupThrows message) /\
  (forall ok status message,
     status <> 404 \/ ok = true \/ length pre = 2 ->
     (joinLookup code (pre ++ CheckResponse ok status (BodyThrows message) :: rest)).2 =
       LookupThrows message) /\
  (forall status error,
     (joinLookup code (pre ++ CheckResponse true status (BodyJson None error) :: rest)).2 =
       LookupThrows "Room not found after retries") /\
  (forall status room error,
     status <> 404 \/ length pre = 2 ->
     (joinLookup code (pre ++ CheckResponse false status (BodyJson room error) :: rest)) =
       (repeat_list (length pre) [FetchRoom code; Sleep 500] ++ [FetchRoom code],
        LookupThrows (or_else error "Room not found"))).
Proof.
  intros Hnf Hlen. unfold joinLookup.
  assert (Hgo : forall c,
            lookupRoom 3 0 code (pre ++ c :: rest) =
            (repeat_list (length pre) [FetchRoom code; Sleep 500] ++
               (lookupRoom (S (2 - length pre)) (length pre) code (c :: rest)).1,
             (lookupRoom (S (2 - length pre)) (length pre) code (c :: rest)).2)).
  { intros c. rewrite (lookup_skips pre 3 0 code _ Hnf) by lia.
    replace (3 - length pre) with (S (2 - length pre)) by lia. reflexivity. }
  assert (Hlast : forall status, status <> 404 \/ length pre = 2 ->
            (status =? 404) && (length pre <? 2) = false).
  { intros status [H | H].
    - apply Nat.eqb_neq in H. rewrite H. reflexivity.
    - rewrite H. apply andb_false_r. }
  split; [|split; [|split]].
  - intros message. rewrite Hgo. reflexivity.
  - intros ok status message H. rewrite Hgo. cbn [lookupRoom snd].
    destruct ok; [reflexivity|].
    rewrite Hlast; [reflexivity|]. destruct H as [H | [H | H]]; [auto | discriminate | auto].
  - intros status error. rewrite Hgo. reflexivity.
  - intros status room error H. rewrite Hgo. cbn [lookupRoom fst snd].
    rewrite (Hlast status H). reflexivity.
Qed.

(** The room is not found three times. *)
Lemma join_lookup_fails_witness :
  joinLookup "ABCDE" [notFound404; notFound404; notFound404] =
  ([FetchRoom "ABCDE"; Sleep 500; FetchRoom "ABCDE"; Sleep 500; FetchRoom "ABCDE"],
   LookupThrows "Room not found").
Proof.
  assert (Hnf : Forall not_found [notFound404; notFound404])
    by (repeat constructor; eexists; reflexivity).
  assert (Hlen : length [notFound404; notFound404] <= 2) by (cbn; lia).
  destruct (join_lookup_fails "ABCDE" [notFound404; notFound404] [] Hnf Hlen)
    as (_ & _ & _ & H).
  exact (H 404 None (Some "Room not found") (or_intror eq_refl)).
Defined.


(** ** A connection that comes back *)

#[local] Instance SameObjects_rel : StepRel SameObjects.
Proof.
  split.
  - intros st. split; reflexivity.
  - intros a e1 b e2 c [H1 H2] [H3 H4]. split; congruence.
  - intros st. split; reflexivity.
Qed.

Ltac objects_leaf :=
  let p := fresh "p" in
  let r := fresh "r" in
  intros [p r]; split; reflexivity.

Lemma onConnectionStateChange_objects pc remote :
  co_sat SameObjects (onConnectionStateChange pc remote).
Proof. sat_go objects_leaf. Qed.

(** What the handler does when the connection state it reads is [connected]:
    the peer joins the connected set; the tables are not touched. *)
Lemma onConnectionStateChange_joined pc remote st :
  connectionStateOf (rt st) pc = CsConnected ->
  let r := onConnectionStateChange pc remote st in
  connectedPeers (prov (r_st r)) = {[remote]} ∪ connectedPeers (prov st) /\
  peerConnections (prov (r_st r)) = peerConnections (prov st) /\
  dataChannels (prov (r_st r)) = dataChannels (prov st) /\
  destroyed (prov (r_st r)) = destroyed (prov st).
Proof.
  destruct st as [p r]. cbn [rt prov]. intros Hs. cbv zeta.
  unfold onConnectionStateChange. cbn. rewrite Hs. cbn.
  match goal with
  | |- context [updateConnectionStatus ?s] =>
      destruct (updateConnectionStatus_run s) as (r1 & e1 & Hrun & Hch); rewrite Hrun
  end.
  cbn. unfold stopPollingIfConnected, clearInterval. cbn -[Nat.ltb].
  destruct (pollingInterval p); cbn -[Nat.ltb]; [rewrite size_add_pos; cbn|].
  all: repeat split.
Qed.

(** One event of a connection: the handler runs on the state in which the
    object has its new connection state. *)
Lemma step_connection_state w pc o s :
  rt_pcs (rt (w_state w)) !! pc = Some o ->
  exists st0,
    w_state (step (ConnectionStateChange pc s) w).1 =
      r_st (onConnectionStateChange pc (pc_remote o) st0) /\
    connectionStateOf (rt st0) pc = s /\
    prov st0 = prov (w_state w) /\
    exists o', rt_pcs (rt st0) !! pc = Some o' /\ pc_remote o' = pc_remote o.
Proof.
  intros Hpc. unfold step. cbn [dispatch]. rewrite Hpc. rewrite run_state.
  eexists. split; [reflexivity|]. destruct w as [[p r] pool next]. cbn in Hpc |- *.
  unfold connectionStateOf. cbn. rewrite lookup_alter_eq, Hpc. cbn.
  split; [reflexivity|]. split; [reflexivity|]. eexists. split; reflexivity.
Qed.

(** A connection that is reported [disconnected] and then [connected] again
    counts as connected, but it has lost its place in the tables: no
    connection and no data channel is registered for its peer any more.  The
    provider then sends the peer nothing: the actions it dispatches go only
    to the channels of the other peers. *)
Theorem recovered_connection_is_orphaned w pc o :
  rt_pcs (rt (w_state w)) !! pc = Some o ->
  let remote := pc_remote o in
  let w1 := (step (ConnectionStateChange pc CsDisconnected) w).1 in
  let w2 := (step (ConnectionStateChange pc CsConnected) w1).1 in
  remote ∈ connectedPeers (prov (w_state w2)) /\
  peerConnections (prov (w_state w2)) !! remote = None /\
  dataChannels (prov (w_state w2)) = delete remote (dataChannels (prov (w_state w))) /\
  channel_open (w_state w2) remote = None /\
  (forall action ch m,
     destroyed (prov (w_state w2)) = false ->
     In (ch, m) (channel_sends (r_eff (dispatchAction action (w_state w2)))) ->
     exists q, q <> remote /\ dataChannels (prov (w_state w)) !! q = Some ch).
Proof.
  intros Hpc. cbv zeta.
  destruct (step_connection_state w pc o CsDisconnected Hpc)
    as (st0 & Hw1 & Hs0 & Hp0 & o0 & Hpc0 & Hr0).
  destruct (onConnectionStateChange_lost pc (pc_remote o) st0 (or_intror Hs0))
    as (p1 & e1 & Hp1 & _ & _ & Hcase).
  pose proof (onConnectionStateChange_objects pc (pc_remote o) st0) as ([Hobj _] & _).
  set (w1 := (step (ConnectionStateChange pc CsDisconnected) w).1) in *.
  assert (Hpc1 : rt_pcs (rt (w_state w1)) !! pc = Some o0) by (rewrite Hw1, Hobj; exact Hpc0).
  destruct (step_connection_state w1 pc o0 CsConnected Hpc1)
    as (st1 & Hw2 & Hs1 & Hp1' & _).
  rewrite Hr0 in Hw2.
  destruct (onConnectionStateChange_joined pc (pc_remote o) st1 Hs1) as (Hc & Hpcs & Hdc & _).
  set (w2 := (step (ConnectionStateChange pc CsConnected) w1).1) in *.
  assert (Htab : peerConnections p1 = delete (pc_remote o) (peerConnections (prov (w_state w))) /\
                 dataChannels p1 = delete (pc_remote o) (dataChannels (prov (w_state w)))).
  { rewrite <- Hp0.
    destruct (broadcastChannel (prov st0)); [destruct (useLocalFallback (prov st0))|].
    - rewrite Hcase. split; reflexivity.
    - destruct Hcase as [-> _]. split; reflexivity.
    - rewrite Hcase. split; reflexivity. }
  destruct Htab as [Htp Htd].
  assert (Hdc2 : dataChannels (prov (w_state w2)) =
                 delete (pc_remote o) (dataChannels (prov (w_state w)))).
  { rewrite Hw2, Hdc, Hp1', Hw1, Hp1. exact Htd. }
  split; [rewrite Hw2, Hc; apply elem_of_union_l, elem_of_singleton; reflexivity|].
  split; [rewrite Hw2, Hpcs, Hp1', Hw1, Hp1, Htp; apply lookup_delete_eq|].
  split; [exact Hdc2|].
  split; [unfold channel_open; rewrite Hdc2, lookup_delete_eq; reflexivity|].
  intros action ch m Hd Hin.
  destruct (dispatchAction_run action (w_state w2) Hd) as (p' & e & Hrun & _ & _ & Hs & _).
  cbv zeta in Hs. rewrite Hrun in Hin. cbn [r_eff] in Hin. rewrite Hs in Hin.
  apply in_map_iff in Hin as ([q ch'] & Heq & Hin). injection Heq as <- _.
  apply List.filter_In in Hin as [Hin _]. apply list_elem_of_In in Hin.
  apply elem_of_map_to_list in Hin. rewrite Hdc2 in Hin.
  apply lookup_delete_Some in Hin as [Hne Hq]. exists q. split; [congruence | exact Hq].
Qed.

(** The host of the example: the connection to the guest comes back, the
    guest counts as connected, and no channel is registered for it. *)
Lemma recovered_connection_is_orphaned_witness :
  "guest-1" ∈ connectedPeers (prov (w_state
     (step (ConnectionStateChange 1 CsConnected)
        (step (ConnectionStateChange 1 CsDisconnected) hostWithChannel).1).1)) /\
  channel_open (w_state
     (step (ConnectionStateChange 1 CsConnected)
        (step (ConnectionStateChange 1 CsDisconnected) hostWithChannel).1).1) "guest-1" = None.
Proof.
  pose proof (recovered_connection_is_orphaned hostWithChannel 1
                (mkPc "guest-1" CsNew GsComplete (Some exampleOffer) false)) as H.
  cbv zeta in H. cbn [pc_remote] in H.
  match type of H with
  | ?A -> _ => assert (Ha : A) by (vm_compute; reflexivity)
  end.
  destruct (H Ha) as (Hin & _ & _ & Hopen & _).
  exact (conj Hin Hopen).
Defined.
